(** * PL-600 quiz app: shallow embedding of the quiz core and its properties

    The development follows the two JavaScript sources of the repository:
    - [css/js/utils.js]  (object [Utils]):   [shuffle], [arraysEqual],
      [calculateScaledScore], [escapeHtml], [getRandomElements],
      [validateQuestion], [formatQuestion], [calculateDifficulty];
    - the main application class [QuizApp]:  the constructor,
      [loadQuestions], [validateQuestions], [loadHistory], [saveHistory],
      [updateQuestionHistory], [getQuestionMasteryStatus],
      [calculateMasteryStats], [toggleCategory], [selectTestQuestions],
      [startQuiz], [selectAnswer], [checkAnswer], [nextQuestion],
      [prevQuestion], [calculateCategoryScores], [showResults],
      [reviewAnswers], [reset], [render], and the controls that the three
      templates of the page offer.

    Conventions of the embedding.
    - JavaScript numbers that only ever hold small integers (counters,
      indices, the retention score) are [nat] or [Z]; the two places where the
      code really computes with fractions ([calculateScaledScore] and the
      per-category target of [selectTestQuestions]) use Rocq's binary64
      primitive floats, which are the IEEE doubles of JavaScript.
    - Plain JavaScript objects used as dictionaries ([questionHistory],
      [userAnswers], [categoryDistribution], [categories]) are the
      [gmap string _] of their own properties.  [obj[key]] is read through
      [JS.get]: under a key that names a member of [Object.prototype]
      ('constructor', 'toString', '__proto__', ...) and has no own property
      it finds the inherited member, under any other key without own
      property [undefined].  A property that holds for ordinary keys only
      says so in a hypothesis.
    - Question records are objects shared between [allQuestions] and
      [questions]: they live in a heap and the arrays hold references.
    - [Math.random] and [new Date()] are oracles indexed by the number of
      calls made so far; the counters are part of the state.
    - A method that throws (a [TypeError] on [undefined]) returns [None].
    - The page is what [render] or [showResults] wrote last; a click is on a
      control of that page which is not disabled, and runs its handler. *)

From Stdlib Require Import ZArith Lia.
From Stdlib Require Import Floats.PrimFloat Floats.FloatOps Floats.SpecFloat.
From Stdlib Require Import Uint63.
From stdpp Require Import gmap strings list fin_maps sorting pretty.
From Stdlib Require Import Ascii.

Set Warnings "-inexact-float".

(* ===================================================================== *)
(** * JavaScript primitives used by the code *)
(* ===================================================================== *)

Module JS.

(** A value returned by [Math.random()]: a fraction in [[0,1)].  It is kept
    as the pair (numerator, distance to the denominator minus one), so that
    every inhabitant denotes [rnum / (rnum + rgap + 1) < 1]. *)
Record unit_frac := UnitFrac { rnum : nat; rgap : nat }.

(** [Math.floor(r * n)] for [r] a [Math.random()] value and [n] a
    non-negative integer, hence an integer in [[0, n)].  The product of the
    code is a double and may be rounded, but never up to [n], so the code
    draws from the same range; every sequence of integers it can draw is the
    one of some source of the model. *)
Definition floor_mul (r : unit_frac) (n : nat) : nat :=
  (rnum r * n) / (rnum r + rgap r + 1).

(** A non-negative integer as a double (exact below 2^53). *)
Definition num (n : nat) : float := of_uint63 (Uint63.of_Z (Z.of_nat n)).

(** [Math.round]: the nearest integer, ties towards +infinity, that is
    [floor(x + 1/2)] computed exactly on the value [m * 2^e] of the double.
    [NaN] and the infinities are returned unchanged by JavaScript and are
    not integers: [None]. *)
Definition Math_round (x : float) : option Z :=
  match Prim2SF x with
  | S754_zero _ => Some 0%Z
  | S754_finite s m e =>
      let sm := if s then Z.neg m else Z.pos m in
      Some (if (0 <=? e)%Z then sm * 2 ^ e
            else (2 * sm + 2 ^ (- e)) / 2 ^ (1 - e))%Z
  | S754_infinity _ | S754_nan => None
  end.

(** [arr.slice(0, e)] for an integer [e]: a negative end counts from the
    end of the array. *)
Definition slice0 {A} (arr : list A) (e : Z) : list A :=
  if (e <? 0)%Z then take (length arr - Z.to_nat (- e)) arr
  else take (Z.to_nat e) arr.

(** [arr.sort()] on an array of strings: the default comparison orders
    strings by their code units; the result of sorting by a total order is
    unique, so any sorting algorithm models it. *)
Definition sort (arr : list string) : list string := merge_sort String.le arr.

(** ** Plain objects used as dictionaries

    [questionHistory], [userAnswers] and the local [categoryDistribution]
    and [categories] are plain objects: [obj[key]] finds an own property
    and, when there is none, what the object inherits from
    [Object.prototype].  These are the members of [Object.prototype], each
    with its own [length] property: the functions have the number of their
    declared parameters, and [__proto__] is an accessor that returns
    [Object.prototype] itself, which has no [length]. *)
Definition prototypeMembers : list (string * option nat) :=
  [ ("constructor", Some 1); ("__defineGetter__", Some 2); ("__defineSetter__", Some 2);
    ("hasOwnProperty", Some 1); ("__lookupGetter__", Some 1); ("__lookupSetter__", Some 1);
    ("isPrototypeOf", Some 1); ("propertyIsEnumerable", Some 1); ("toString", Some 0);
    ("valueOf", Some 0); ("__proto__", None); ("toLocaleString", Some 0) ].

(** The key names a member of [Object.prototype]. *)
Definition inherited (key : string) : bool :=
  bool_decide (key ∈ prototypeMembers.*1).

(** [member.length] for the member named [key]. *)
Definition memberLength (key : string) : option nat :=
  match List.find (λ member, String.eqb member.1 key) prototypeMembers with
  | Some member => member.2
  | None => None
  end.

(** What [obj[key]] finds in a dictionary whose own properties are [obj]:
    the own property, or the inherited member, or [undefined].  An inherited
    member is an object (a function, or [Object.prototype]): it is truthy, it
    is neither an array nor a string (no [sort], no [includes], no [push]),
    it is never [===] to a string or to [undefined], and the numbers that
    the code reads from its properties ([attempts], [correct], [incorrect],
    [retentionScore], [total]) are [undefined] or, once the code has
    incremented them, [NaN]; its [mastered] is [undefined] or [false].
    The code writes such properties onto the member itself; for
    [__proto__] that is onto [Object.prototype], from where every object
    would inherit them: the model does not follow this, the properties
    about sequences of calls leave the key [__proto__] out. *)
Inductive Property (A : Type) :=
| Own (v : A)
| Inherited
| Absent.
Arguments Own {A} v.
Arguments Inherited {A}.
Arguments Absent {A}.

Definition get {A} (obj : gmap string A) (key : string) : Property A :=
  match obj !! key with
  | Some v => Own v
  | None => if inherited key then Inherited else Absent
  end.

(** [obj[key] = v] for a value [v] that is not an object (a string): an
    own property is created or overwritten, except under the key
    [__proto__], whose setter ignores such a value. *)
Definition assign {A} (obj : gmap string A) (key : string) (v : A) : gmap string A :=
  if String.eqb key "__proto__" then obj else <[key := v]> obj.

End JS.

(* ===================================================================== *)
(** * css/js/utils.js *)
(* ===================================================================== *)

Module Utils.
Import JS.

Section Shuffle.
Context {A : Type}.
Variable random : nat -> unit_frac.

(** [[arr[i], arr[j]] = [arr[j], arr[i]]]: both reads happen before both
    writes.  The shuffle only calls it with [j <= i < arr.length]
    (see [shuffle_loop]); out of that range JavaScript would read
    [undefined] and extend the array, which the model leaves out: there
    the array is returned as it is. *)
Definition swap (i j : nat) (arr : list A) : list A :=
  match arr !! i, arr !! j with
  | Some x, Some y => <[j:=x]> (<[i:=y]> arr)
  | _, _ => arr
  end.

(** [for (let i = ...; i > 0; i--) { const j = Math.floor(Math.random() * (i + 1)); swap }]
    started at index [i], after [k] calls of [Math.random]. *)
Fixpoint shuffle_loop (i : nat) (arr : list A) (k : nat) : list A * nat :=
  match i with
  | O => (arr, k)
  | S i' =>
      let j := floor_mul (random k) (i + 1) in
      shuffle_loop i' (swap i j arr) (S k)
  end.

(** [shuffle(array)] on the contents of the array: the copy [[...array]]
    is the local [arr], which only the loop touches. *)
Definition shuffle (array : list A) (k : nat) : list A * nat :=
  let arr := array in
  shuffle_loop (length arr - 1) arr k.

(** The same function on a heap of arrays, where the argument is a
    reference: [const arr = [...array]] allocates a fresh array, every
    iteration of the loop assigns into that array in place, and its
    reference is returned.  A dangling argument is a [TypeError]
    (spreading [undefined]). *)
Fixpoint shuffle_loop_ref (i : nat) (arr : nat) (h : gmap nat (list A)) (k : nat)
  : gmap nat (list A) * nat :=
  match i with
  | O => (h, k)
  | S i' =>
      let j := floor_mul (random k) (i + 1) in
      shuffle_loop_ref i' arr (alter (swap i j) arr h) (S k)
  end.

Definition shuffle_ref (h : gmap nat (list A)) (array : nat) (k : nat)
  : option (gmap nat (list A) * nat * nat) :=
  match h !! array with
  | None => None
  | Some elems =>
      let arr := fresh (dom h) in
      let h1 := <[arr := elems]> h in
      let '(h2, k') := shuffle_loop_ref (length elems - 1) arr h1 k in
      Some (h2, arr, k')
  end.
End Shuffle.

Section ArraysEqual.
Context {A : Type} `{EqDecision A}.

(** The loop of [arraysEqual] from index [i], with [n] iterations left.
    An index past the end of an array reads [undefined], which is [None]
    here, and [!==] compares the two reads. *)
Fixpoint arraysEqual_from (n i : nat) (arr1 arr2 : list A) : bool :=
  match n with
  | O => true
  | S n' =>
      if decide (arr1 !! i = arr2 !! i)
      then arraysEqual_from n' (S i) arr1 arr2
      else false
  end.

Definition arraysEqual (arr1 arr2 : list A) : bool :=
  if decide (length arr1 = length arr2)
  then arraysEqual_from (length arr1) 0 arr1 arr2
  else false.
End ArraysEqual.

(** [calculateScaledScore] on doubles, as written. *)
Definition calculateScaledScore (rawPercentage : float) : option Z :=
  if (rawPercentage =? 0)%float then Some 0%Z
  else if (rawPercentage =? 100)%float then Some 1000%Z
  else
    let passingThreshold := 0.65%float in
    if (rawPercentage / 100 <? passingThreshold)%float then
      Math_round ((rawPercentage / 100 / passingThreshold) * 699)%float
    else
      let abovePassingRatio :=
        ((rawPercentage / 100 - passingThreshold) / (1 - passingThreshold))%float in
      Math_round (700 + (abovePassingRatio * 300))%float.

End Utils.

(* ===================================================================== *)
(** * The application class [QuizApp] *)
(* ===================================================================== *)

Module QuizApp.
Import JS.

(** A reference to a Question object. *)
Definition loc := nat.
(** A point in time, as returned by [new Date()]. *)
Definition Timestamp := nat.

Record AnswerOption := mkOption { letter : string; optionText : string }.

(** The fields of a question record that the core reads ([hints],
    [keyWords] and [conceptsTested] are only interpolated into the page). *)
Record Question := mkQuestion {
  id : string;
  text : string;
  category : string;
  options : list AnswerOption;
  correctAnswers : list string;
  isMultipleChoice : bool;
  explanation : option string;
  reference : option string
}.

Definition set_correctAnswers (v : list string) (q : Question) : Question :=
  {| id := id q; text := text q; category := category q; options := options q;
     correctAnswers := v; isMultipleChoice := isMultipleChoice q;
     explanation := explanation q; reference := reference q |}.

Record History := mkHistory {
  attempts : Z;
  correct : Z;
  incorrect : Z;
  lastAttempt : option Timestamp;
  firstSeen : Timestamp;
  mastered : bool;
  retentionScore : Z
}.

(** A value stored in [userAnswers]: one letter for a single-choice
    question, an array of letters for a multiple-choice one. *)
Inductive Answer :=
| Letter (optionLetter : string)
| Letters (currentAnswers : list string).

(** [questionCount]: the string ['all'] or the integer read by [parseInt]
    from the selected option. *)
Inductive Count :=
| all
| limit (n : Z).

Record MasteryStatus := mkStatus { status : string; label : string; color : string }.

(** The instance fields of the class, followed by the environment it acts
    on: the heap of question objects, the number of [Math.random()] and
    [new Date()] calls made so far, the messages passed to [alert], and the
    value stored under ['pl600_questionHistory'] ([None] when the storage
    is not available, so that [setItem] throws). *)
Record State := mkState {
  heap : gmap loc Question;
  allQuestions : list loc;
  questions : list loc;
  currentIndex : nat;
  userAnswers : gmap string Answer;
  score : nat;
  quizMode : string;
  showAnswer : bool;
  showHints : bool;
  hintLevel : string;
  quizStarted : bool;
  selectedCategories : gset string;
  questionCount : Count;
  questionHistory : gmap string History;
  quizResults : list bool;
  testStartTime : option Timestamp;
  randomCalls : nat;
  dateCalls : nat;
  alerts : list string;
  localStorage : option (gmap string History)
}.

(** Assignments [this.f = v] (and the writes to the environment). *)
Definition set_heap (v : gmap loc Question) (w : State) : State :=
  {| heap := v; allQuestions := allQuestions w; questions := questions w;
     currentIndex := currentIndex w; userAnswers := userAnswers w; score := score w;
     quizMode := quizMode w; showAnswer := showAnswer w; showHints := showHints w;
     hintLevel := hintLevel w; quizStarted := quizStarted w;
     selectedCategories := selectedCategories w; questionCount := questionCount w;
     questionHistory := questionHistory w; quizResults := quizResults w;
     testStartTime := testStartTime w; randomCalls := randomCalls w;
     dateCalls := dateCalls w; alerts := alerts w; localStorage := localStorage w |}.
Definition set_questions (v : list loc) (w : State) : State :=
  {| heap := heap w; allQuestions := allQuestions w; questions := v;
     currentIndex := currentIndex w; userAnswers := userAnswers w; score := score w;
     quizMode := quizMode w; showAnswer := showAnswer w; showHints := showHints w;
     hintLevel := hintLevel w; quizStarted := quizStarted w;
     selectedCategories := selectedCategories w; questionCount := questionCount w;
     questionHistory := questionHistory w; quizResults := quizResults w;
     testStartTime := testStartTime w; randomCalls := randomCalls w;
     dateCalls := dateCalls w; alerts := alerts w; localStorage := localStorage w |}.
Definition set_currentIndex (v : nat) (w : State) : State :=
  {| heap := heap w; allQuestions := allQuestions w; questions := questions w;
     currentIndex := v; userAnswers := userAnswers w; score := score w;
     quizMode := quizMode w; showAnswer := showAnswer w; showHints := showHints w;
     hintLevel := hintLevel w; quizStarted := quizStarted w;
     selectedCategories := selectedCategories w; questionCount := questionCount w;
     questionHistory := questionHistory w; quizResults := quizResults w;
     testStartTime := testStartTime w; randomCalls := randomCalls w;
     dateCalls := dateCalls w; alerts := alerts w; localStorage := localStorage w |}.
Definition set_userAnswers (v : gmap string Answer) (w : State) : State :=
  {| heap := heap w; allQuestions := allQuestions w; questions := questions w;
     currentIndex := currentIndex w; userAnswers := v; score := score w;
     quizMode := quizMode w; showAnswer := showAnswer w; showHints := showHints w;
     hintLevel := hintLevel w; quizStarted := quizStarted w;
     selectedCategories := selectedCategories w; questionCount := questionCount w;
     questionHistory := questionHistory w; quizResults := quizResults w;
     testStartTime := testStartTime w; randomCalls := randomCalls w;
     dateCalls := dateCalls w; alerts := alerts w; localStorage := localStorage w |}.
Definition set_score (v : nat) (w : State) : State :=
  {| heap := heap w; allQuestions := allQuestions w; questions := questions w;
     currentIndex := currentIndex w; userAnswers := userAnswers w; score := v;
     quizMode := quizMode w; showAnswer := showAnswer w; showHints := showHints w;
     hintLevel := hintLevel w; quizStarted := quizStarted w;
     selectedCategories := selectedCategories w; questionCount := questionCount w;
     questionHistory := questionHistory w; quizResults := quizResults w;
     testStartTime := testStartTime w; randomCalls := randomCalls w;
     dateCalls := dateCalls w; alerts := alerts w; localStorage := localStorage w |}.
Definition set_showAnswer (v : bool) (w : State) : State :=
  {| heap := heap w; allQuestions := allQuestions w; questions := questions w;
     currentIndex := currentIndex w; userAnswers := userAnswers w; score := score w;
     quizMode := quizMode w; showAnswer := v; showHints := showHints w;
     hintLevel := hintLevel w; quizStarted := quizStarted w;
     selectedCategories := selectedCategories w; questionCount := questionCount w;
     questionHistory := questionHistory w; quizResults := quizResults w;
     testStartTime := testStartTime w; randomCalls := randomCalls w;
     dateCalls := dateCalls w; alerts := alerts w; localStorage := localStorage w |}.
Definition set_showHints (v : bool) (w : State) : State :=
  {| heap := heap w; allQuestions := allQuestions w; questions := questions w;
     currentIndex := currentIndex w; userAnswers := userAnswers w; score := score w;
     quizMode := quizMode w; showAnswer := showAnswer w; showHints := v;
     hintLevel := hintLevel w; quizStarted := quizStarted w;
     selectedCategories := selectedCategories w; questionCount := questionCount w;
     questionHistory := questionHistory w; quizResults := quizResults w;
     testStartTime := testStartTime w; randomCalls := randomCalls w;
     dateCalls := dateCalls w; alerts := alerts w; localStorage := localStorage w |}.
Definition set_quizStarted (v : bool) (w : State) : State :=
  {| heap := heap w; allQuestions := allQuestions w; questions := questions w;
     currentIndex := currentIndex w; userAnswers := userAnswers w; score := score w;
     quizMode := quizMode w; showAnswer := showAnswer w; showHints := showHints w;
     hintLevel := hintLevel w; quizStarted := v;
     selectedCategories := selectedCategories w; questionCount := questionCount w;
     questionHistory := questionHistory w; quizResults := quizResults w;
     testStartTime := testStartTime w; randomCalls := randomCalls w;
     dateCalls := dateCalls w; alerts := alerts w; localStorage := localStorage w |}.
Definition set_questionHistory (v : gmap string History) (w : State) : State :=
  {| heap := heap w; allQuestions := allQuestions w; questions := questions w;
     currentIndex := currentIndex w; userAnswers := userAnswers w; score := score w;
     quizMode := quizMode w; showAnswer := showAnswer w; showHints := showHints w;
     hintLevel := hintLevel w; quizStarted := quizStarted w;
     selectedCategories := selectedCategories w; questionCount := questionCount w;
     questionHistory := v; quizResults := quizResults w;
     testStartTime := testStartTime w; randomCalls := randomCalls w;
     dateCalls := dateCalls w; alerts := alerts w; localStorage := localStorage w |}.
Definition set_quizResults (v : list bool) (w : State) : State :=
  {| heap := heap w; allQuestions := allQuestions w; questions := questions w;
     currentIndex := currentIndex w; userAnswers := userAnswers w; score := score w;
     quizMode := quizMode w; showAnswer := showAnswer w; showHints := showHints w;
     hintLevel := hintLevel w; quizStarted := quizStarted w;
     selectedCategories := selectedCategories w; questionCount := questionCount w;
     questionHistory := questionHistory w; quizResults := v;
     testStartTime := testStartTime w; randomCalls := randomCalls w;
     dateCalls := dateCalls w; alerts := alerts w; localStorage := localStorage w |}.
Definition set_testStartTime (v : option Timestamp) (w : State) : State :=
  {| heap := heap w; allQuestions := allQuestions w; questions := questions w;
     currentIndex := currentIndex w; userAnswers := userAnswers w; score := score w;
     quizMode := quizMode w; showAnswer := showAnswer w; showHints := showHints w;
     hintLevel := hintLevel w; quizStarted := quizStarted w;
     selectedCategories := selectedCategories w; questionCount := questionCount w;
     questionHistory := questionHistory w; quizResults := quizResults w;
     testStartTime := v; randomCalls := randomCalls w; dateCalls := dateCalls w;
     alerts := alerts w; localStorage := localStorage w |}.
Definition set_randomCalls (v : nat) (w : State) : State :=
  {| heap := heap w; allQuestions := allQuestions w; questions := questions w;
     currentIndex := currentIndex w; userAnswers := userAnswers w; score := score w;
     quizMode := quizMode w; showAnswer := showAnswer w; showHints := showHints w;
     hintLevel := hintLevel w; quizStarted := quizStarted w;
     selectedCategories := selectedCategories w; questionCount := questionCount w;
     questionHistory := questionHistory w; quizResults := quizResults w;
     testStartTime := testStartTime w; randomCalls := v; dateCalls := dateCalls w;
     alerts := alerts w; localStorage := localStorage w |}.
Definition set_dateCalls (v : nat) (w : State) : State :=
  {| heap := heap w; allQuestions := allQuestions w; questions := questions w;
     currentIndex := currentIndex w; userAnswers := userAnswers w; score := score w;
     quizMode := quizMode w; showAnswer := showAnswer w; showHints := showHints w;
     hintLevel := hintLevel w; quizStarted := quizStarted w;
     selectedCategories := selectedCategories w; questionCount := questionCount w;
     questionHistory := questionHistory w; quizResults := quizResults w;
     testStartTime := testStartTime w; randomCalls := randomCalls w; dateCalls := v;
     alerts := alerts w; localStorage := localStorage w |}.
Definition set_alerts (v : list string) (w : State) : State :=
  {| heap := heap w; allQuestions := allQuestions w; questions := questions w;
     currentIndex := currentIndex w; userAnswers := userAnswers w; score := score w;
     quizMode := quizMode w; showAnswer := showAnswer w; showHints := showHints w;
     hintLevel := hintLevel w; quizStarted := quizStarted w;
     selectedCategories := selectedCategories w; questionCount := questionCount w;
     questionHistory := questionHistory w; quizResults := quizResults w;
     testStartTime := testStartTime w; randomCalls := randomCalls w;
     dateCalls := dateCalls w; alerts := v; localStorage := localStorage w |}.
Definition set_localStorage (v : option (gmap string History)) (w : State) : State :=
  {| heap := heap w; allQuestions := allQuestions w; questions := questions w;
     currentIndex := currentIndex w; userAnswers := userAnswers w; score := score w;
     quizMode := quizMode w; showAnswer := showAnswer w; showHints := showHints w;
     hintLevel := hintLevel w; quizStarted := quizStarted w;
     selectedCategories := selectedCategories w; questionCount := questionCount w;
     questionHistory := questionHistory w; quizResults := quizResults w;
     testStartTime := testStartTime w; randomCalls := randomCalls w;
     dateCalls := dateCalls w; alerts := alerts w; localStorage := v |}.

Definition set_allQuestions (v : list loc) (w : State) : State :=
  {| heap := heap w; allQuestions := v; questions := questions w;
     currentIndex := currentIndex w; userAnswers := userAnswers w; score := score w;
     quizMode := quizMode w; showAnswer := showAnswer w; showHints := showHints w;
     hintLevel := hintLevel w; quizStarted := quizStarted w;
     selectedCategories := selectedCategories w; questionCount := questionCount w;
     questionHistory := questionHistory w; quizResults := quizResults w;
     testStartTime := testStartTime w; randomCalls := randomCalls w;
     dateCalls := dateCalls w; alerts := alerts w; localStorage := localStorage w |}.
Definition set_quizMode (v : string) (w : State) : State :=
  {| heap := heap w; allQuestions := allQuestions w; questions := questions w;
     currentIndex := currentIndex w; userAnswers := userAnswers w; score := score w;
     quizMode := v; showAnswer := showAnswer w; showHints := showHints w;
     hintLevel := hintLevel w; quizStarted := quizStarted w;
     selectedCategories := selectedCategories w; questionCount := questionCount w;
     questionHistory := questionHistory w; quizResults := quizResults w;
     testStartTime := testStartTime w; randomCalls := randomCalls w;
     dateCalls := dateCalls w; alerts := alerts w; localStorage := localStorage w |}.
Definition set_selectedCategories (v : gset string) (w : State) : State :=
  {| heap := heap w; allQuestions := allQuestions w; questions := questions w;
     currentIndex := currentIndex w; userAnswers := userAnswers w; score := score w;
     quizMode := quizMode w; showAnswer := showAnswer w; showHints := showHints w;
     hintLevel := hintLevel w; quizStarted := quizStarted w;
     selectedCategories := v; questionCount := questionCount w;
     questionHistory := questionHistory w; quizResults := quizResults w;
     testStartTime := testStartTime w; randomCalls := randomCalls w;
     dateCalls := dateCalls w; alerts := alerts w; localStorage := localStorage w |}.

(** [loadHistory()]: the stored mapping, or [{}] when there is none or the
    storage cannot be read. *)
Definition loadHistory (storage : option (gmap string History)) : gmap string History :=
  match storage with
  | Some saved => saved
  | None => ∅
  end.

(** The fields set by the constructor, before the questions are loaded,
    in an environment with the question objects [h] and the storage
    [storage]. *)
Definition constructor (h : gmap loc Question) (storage : option (gmap string History))
    : State :=
  {| heap := h; allQuestions := []; questions := []; currentIndex := 0;
     userAnswers := ∅; score := 0; quizMode := "practice"; showAnswer := false;
     showHints := false; hintLevel := "easy"; quizStarted := false;
     selectedCategories := ∅; questionCount := limit 10;
     questionHistory := loadHistory storage; quizResults := [];
     testStartTime := None; randomCalls := 0; dateCalls := 0; alerts := [];
     localStorage := storage |}.

(** [loadQuestions()] with the array [data] obtained from the question
    source, followed by [validateQuestions()]: a record needs a non-empty
    [id] and [text]. *)
Definition isValid (h : gmap loc Question) (q : loc) : bool :=
  match h !! q with
  | Some question =>
      negb (String.eqb (id question) "") && negb (String.eqb (text question) "")
  | None => false
  end.

Definition validateQuestions (w : State) : State :=
  set_allQuestions (filter (λ q, isValid (heap w) q = true) (allQuestions w)) w.

Definition loadQuestions (data : list loc) (w : State) : State :=
  validateQuestions (set_allQuestions data w).

Module Dist.
(** An entry of [categoryDistribution]. *)
Record t := mk { min : float; max : float; questions : list loc }.
End Dist.

Definition categoryDistribution : list (string * Dist.t) :=
  [ ("Perform solution envisioning and requirement analysis",
     Dist.mk 0.45 0.50 []);
    ("Architect a solution", Dist.mk 0.35 0.40 []);
    ("Implement the solution", Dist.mk 0.15 0.20 []) ].

Section Methods.
Variable random : nat -> unit_frac.
Variable clock : nat -> Timestamp.

(** [saveHistory()]: [JSON.stringify] keeps the own properties that hold
    history records and leaves out those that hold a function (an inherited
    member stored back by [updateQuestionHistory]); the records hold
    integers, booleans, strings and [null], which [JSON.parse] gives back as
    they are, so the stored text is identified with the map of the records.
    A storage that cannot be written is one that cannot be read either
    ([None]); a quota that is exceeded is not modelled. *)
Definition saveHistory (w : State) : State :=
  match localStorage w with
  | Some _ => set_localStorage (Some (questionHistory w)) w
  | None => w
  end.

(** [updateQuestionHistory(questionId, isCorrect)].  When
    [this.questionHistory[questionId]] is an inherited member, that member
    is the [history] object: the literal after [||] is not evaluated, the
    increments and the [Math.min] or [Math.max] leave [NaN] in its
    properties, [mastered] is never set to true, the date is read once, and
    the member is stored back under the key, where it is found as before
    and is left out by [JSON.stringify]: no history record is created. *)
Definition updateQuestionHistory (questionId : string) (isCorrect : bool)
    (w : State) : State :=
  match get (questionHistory w) questionId with
  | Inherited => saveHistory (set_dateCalls (S (dateCalls w)) w)
  | found =>
  (* this.questionHistory[questionId] || { ..., firstSeen: new Date()... } *)
  let '(history, w) :=
    match found with
    | Own history => (history, w)
    | _ =>
        (mkHistory 0 0 0 None (clock (dateCalls w)) false 100,
         set_dateCalls (S (dateCalls w)) w)
    end in
  let attempts' := (attempts history + 1)%Z in
  let lastAttempt' := Some (clock (dateCalls w)) in
  let w := set_dateCalls (S (dateCalls w)) w in
  let history :=
    if isCorrect then
      let correct' := (correct history + 1)%Z in
      let mastered' :=
        if (correct' >=? 3)%Z && (incorrect history =? 0)%Z
        then true else mastered history in
      mkHistory attempts' correct' (incorrect history) lastAttempt'
        (firstSeen history) mastered'
        (Z.min 100 (retentionScore history + 10))
    else
      mkHistory attempts' (correct history) (incorrect history + 1)%Z lastAttempt'
        (firstSeen history) false
        (Z.max 0 (retentionScore history - 20)) in
  saveHistory (set_questionHistory (<[questionId := history]> (questionHistory w)) w)
  end.

(** [getQuestionMasteryStatus(questionId)].  An inherited member is a
    [history] that is truthy, whose [mastered] is not true and whose
    comparisons of [undefined] or [NaN] are all false: 'learning'. *)
Definition getQuestionMasteryStatus (w : State) (questionId : string) : MasteryStatus :=
  match get (questionHistory w) questionId with
  | Absent => mkStatus "unseen" "New" "#5f6368"
  | Inherited => mkStatus "learning" "Learning" "#fbbc04"
  | Own history =>
      if mastered history && (retentionScore history >=? 70)%Z then
        mkStatus "mastered" "Mastered" "#34a853"
      else if (incorrect history >? correct history)%Z
              || (retentionScore history <? 50)%Z then
        mkStatus "weak" "Needs Practice" "#ea4335"
      else mkStatus "learning" "Learning" "#fbbc04"
  end.

(** [if (categoryDistribution[category])
    categoryDistribution[category].questions.push(q)]: the question is
    pushed when the category is one of the keys and skipped when it is
    unknown; an inherited member is truthy and has no [questions]:
    [TypeError]. *)
Definition pushQuestion (category : string) (q : loc)
    (dist : list (string * Dist.t)) : option (list (string * Dist.t)) :=
  if bool_decide (category ∈ dist.*1) then
    Some ((λ '(name, data),
             if String.eqb name category
             then (name, Dist.mk (Dist.min data) (Dist.max data)
                           (Dist.questions data ++ [q]))
             else (name, data)) <$> dist)
  else if inherited category then None
  else Some dist.

(** [availableQuestions.forEach(q => ...)]: group by category. *)
Fixpoint groupQuestions (h : gmap loc Question) (availableQuestions : list loc)
    (dist : list (string * Dist.t)) : option (list (string * Dist.t)) :=
  match availableQuestions with
  | [] => Some dist
  | q :: rest =>
      question ← h !! q;
      dist ← pushQuestion (category question) q dist;
      groupQuestions h rest dist
  end.

(** [Math.round(targetTotal * avgPercentage)]. *)
Definition targetCount (targetTotal : nat) (data : Dist.t) : option Z :=
  let avgPercentage := ((Dist.min data + Dist.max data) / 2)%float in
  Math_round (num targetTotal * avgPercentage)%float.

(** [shuffled.slice(0, Math.min(targetCount, shuffled.length))]; when
    [targetCount] is [NaN] so is the minimum, and the slice is empty. *)
Definition sliceTarget (shuffled : list loc) (target : option Z) : list loc :=
  match target with
  | Some t => slice0 shuffled (Z.min t (Z.of_nat (length shuffled)))
  | None => []
  end.

(** [Object.entries(categoryDistribution).forEach(...)], in the order of
    the keys. *)
Fixpoint selectPerCategory (targetTotal : nat) (entries : list (string * Dist.t))
    (selectedQuestions : list loc) (k : nat) : list loc * nat :=
  match entries with
  | [] => (selectedQuestions, k)
  | (_, data) :: rest =>
      let '(shuffled, k) := Utils.shuffle random (Dist.questions data) k in
      let selected := sliceTarget shuffled (targetCount targetTotal data) in
      selectPerCategory targetTotal rest (selectedQuestions ++ selected) k
  end.

(** [selectTestQuestions(availableQuestions, targetTotal)], with the
    heap to read the categories from and the count of [Math.random()]
    calls.  [includes] compares object references. *)
Definition selectTestQuestions (h : gmap loc Question)
    (availableQuestions : list loc) (targetTotal : nat) (k : nat)
    : option (list loc * nat) :=
  dist ← groupQuestions h availableQuestions categoryDistribution;
  let '(selectedQuestions, k) := selectPerCategory targetTotal dist [] k in
  let '(selectedQuestions, k) :=
    if length selectedQuestions <? targetTotal then
      let remaining := targetTotal - length selectedQuestions in
      let unused := filter (λ q, q ∉ selectedQuestions) availableQuestions in
      let '(shuffled, k) := Utils.shuffle random unused k in
      let additional := take remaining shuffled in
      (selectedQuestions ++ additional, k)
    else (selectedQuestions, k) in
  let '(shuffled, k) := Utils.shuffle random selectedQuestions k in
  Some (take targetTotal shuffled, k).

(** [this.selectedCategories.has(q.category)] over the array. *)
Fixpoint filterByCategory (h : gmap loc Question) (categories : gset string)
    (qs : list loc) : option (list loc) :=
  match qs with
  | [] => Some []
  | q :: rest =>
      question ← h !! q;
      rest' ← filterByCategory h categories rest;
      Some (if bool_decide (category question ∈ categories) then q :: rest' else rest')
  end.

(** [Utils.arraysEqual((userAnswer || []).sort(), question.correctAnswers.sort())]
    for the question object at [r].  Both [sort] calls work in place: the
    first on the array stored in [userAnswers] (or on the temporary [[]]
    when nothing truthy is stored), the second on the array held by the
    question object.  A non-empty string has no [sort], and neither has an
    inherited member: [TypeError]. *)
Definition sortedAnswersEqual (r : loc) (question : Question) (w : State)
    : option (bool * State) :=
  '(sortedAnswer, w) ←
    match get (userAnswers w) (id question) with
    | Absent | Own (Letter "") => Some (sort [], w)
    | Own (Letter _) | Inherited => None
    | Own (Letters userAnswer) =>
        let sorted := sort userAnswer in
        Some (sorted, set_userAnswers (<[id question := Letters sorted]> (userAnswers w)) w)
    end;
  let sortedCorrect := sort (correctAnswers question) in
  let w := set_heap (<[r := set_correctAnswers sortedCorrect question]> (heap w)) w in
  Some (Utils.arraysEqual sortedAnswer sortedCorrect, w).

(** [(this.userAnswers[question.id] || []).includes(option.letter)],
    evaluated by [renderQuestion] for every option of a multiple-choice
    question: an array and a string have [includes], an inherited member has
    not, and the first option meets the [TypeError]. *)
Definition optionsRendered (question : Question) (w : State) : bool :=
  match get (userAnswers w) (id question) with
  | Inherited => negb (isMultipleChoice question) || (length (options question) =? 0)
  | _ => true
  end.

(** The effect of [render()] on the state (the page itself is not
    modelled).  [renderSetup] only reads.  [renderQuestion] only reads
    too, except for the answer feedback, shown when [showAnswer] is set,
    which evaluates the same sorting comparison as [checkAnswer]; it throws
    where the options cannot be rendered. *)
Definition render (w : State) : option State :=
  if negb (quizStarted w) then Some w
  else
    match questions w !! currentIndex w with
    | None => Some w
    | Some r =>
        question ← heap w !! r;
        if negb (optionsRendered question w) then None
        else if showAnswer w && isMultipleChoice question
        then snd <$> sortedAnswersEqual r question w
        else Some w
    end.

Definition startQuiz (w : State) : option State :=
  let filteredQuestions := allQuestions w in
  filteredQuestions ←
    (if 0 <? size (selectedCategories w)
     then filterByCategory (heap w) (selectedCategories w) filteredQuestions
     else Some filteredQuestions);
  if length filteredQuestions =? 0 then
    Some (set_alerts (alerts w ++ ["No questions available with selected filters"]) w)
  else
    '(filteredQuestions, k) ←
      (if String.eqb (quizMode w) "test" then
         let questionCount := floor_mul (random (randomCalls w)) 21 + 40 in
         selectTestQuestions (heap w) filteredQuestions questionCount
           (S (randomCalls w))
       else
         let '(shuffled, k) :=
           Utils.shuffle random filteredQuestions (randomCalls w) in
         Some (match questionCount w with
               | all => shuffled
               | limit n => slice0 shuffled n
               end, k));
    let w := set_randomCalls k w in
    let w := set_questions filteredQuestions w in
    let w := set_quizStarted true w in
    let w := set_currentIndex 0 w in
    let w := set_score 0 w in
    let w := set_userAnswers ∅ w in
    let w := set_quizResults [] w in
    let w := set_showAnswer false w in
    let w := set_showHints false w in
    let w := set_testStartTime (Some (clock (dateCalls w))) w in
    let w := set_dateCalls (S (dateCalls w)) w in
    render w.

(** [[...s]] for a string: its characters. *)
Definition spread (s : string) : list string :=
  (λ c, String c EmptyString) <$> String.list_ascii_of_string s.

(** [s.includes(t)] for strings. *)
Definition includes_str (s t : string) : bool :=
  match String.index 0 t s with Some _ => true | None => false end.

(** [selectAnswer(optionLetter)].  For a multiple-choice question
    [currentAnswers] is what [this.userAnswers[qId] || []] finds; an
    inherited member has no [includes]: [TypeError]. *)
Definition selectAnswer (optionLetter : string) (w : State) : option State :=
  if showAnswer w then Some w
  else
    r ← questions w !! currentIndex w;
    question ← heap w !! r;
    let qId := id question in
    w ←
      (if isMultipleChoice question then
         match get (userAnswers w) qId with
         | Inherited => None
         | Absent | Own (Letter "") =>
             Some (set_userAnswers (<[qId := Letters [optionLetter]]> (userAnswers w)) w)
         | Own (Letter s) =>
             (* a string is stored: [filter] does not exist on it *)
             if includes_str s optionLetter then None
             else Some (set_userAnswers
                          (<[qId := Letters (spread s ++ [optionLetter])]> (userAnswers w)) w)
         | Own (Letters currentAnswers) =>
             if bool_decide (optionLetter ∈ currentAnswers) then
               Some (set_userAnswers
                       (<[qId := Letters (filter (λ a, a ≠ optionLetter) currentAnswers)]>
                          (userAnswers w)) w)
             else
               Some (set_userAnswers
                       (<[qId := Letters (currentAnswers ++ [optionLetter])]>
                          (userAnswers w)) w)
         end
       else Some (set_userAnswers (assign (userAnswers w) qId (Letter optionLetter)) w));
    render w.

(** [userAnswer === question.correctAnswers[0]]: two [undefined] are
    equal, an array or an inherited member is never equal to a string or to
    [undefined]. *)
Definition strictEqual (userAnswer : Property Answer) (correctAnswer : option string)
    : bool :=
  match userAnswer, correctAnswer with
  | Absent, None => true
  | Own (Letter a), Some c => String.eqb a c
  | _, _ => false
  end.

Definition checkAnswer (w : State) : option State :=
  r ← questions w !! currentIndex w;
  question ← heap w !! r;
  let userAnswer := get (userAnswers w) (id question) in
  '(isCorrect, w) ←
    (if isMultipleChoice question
     then sortedAnswersEqual r question w
     else Some (strictEqual userAnswer (correctAnswers question !! 0), w));
  let w := updateQuestionHistory (id question) isCorrect w in
  let w := set_quizResults (quizResults w ++ [isCorrect]) w in
  let w := if isCorrect then set_score (S (score w)) w else w in
  let w := set_showAnswer true w in
  render w.

(** A finite sequence of [updateQuestionHistory(questionId, isCorrect)]
    calls, in order. *)
Fixpoint recordAttempts (calls : list (string * bool)) (w : State) : State :=
  match calls with
  | [] => w
  | (questionId, isCorrect) :: rest =>
      recordAttempts rest (updateQuestionHistory questionId isCorrect w)
  end.

End Methods.
End QuizApp.

(* ===================================================================== *)
(** * Definitions used to state the properties *)
(* ===================================================================== *)

Module Spec.
Import JS Utils QuizApp.


Section History.
Variable clock : nat → Timestamp.

(** The history object a call starts from, for a question whose id names
    no inherited member. *)
Definition startingHistory (w : State) (questionId : string) : History :=
  match questionHistory w !! questionId with
  | Some history => history
  | None => mkHistory 0 0 0 None (clock (dateCalls w)) false 100
  end.

(** The state invariant of one history object. *)
Definition history_ok (history : History) : Prop :=
  (0 ≤ retentionScore history ≤ 100)%Z ∧
  (0 ≤ correct history)%Z ∧ (0 ≤ incorrect history)%Z ∧
  (mastered history = true → (3 ≤ correct history)%Z ∧ incorrect history = 0%Z).

Definition entry_ok (w : State) (questionId : string) : Prop :=
  ∀ history, questionHistory w !! questionId = Some history → history_ok history.

End History.

(** The category filter of [startQuiz] leaves nothing: every loaded
    question is rejected by a filter that is active. *)
Definition pool_empty (w : State) : Prop :=
  ∀ r, r ∈ allQuestions w →
       size (selectedCategories w) ≠ 0 ∧
       ∃ question, heap w !! r = Some question ∧
                   category question ∉ selectedCategories w.

(** The set of letters that [checkAnswer] compares for a multiple-choice
    question, [userAnswer || []]: nothing stored, or the empty string, count
    as no letter. *)
Definition storedLetters (userAnswer : option Answer) (stored : list string) : Prop :=
  match userAnswer with
  | None | Some (Letter "") => stored = []
  | Some (Letter _) => False
  | Some (Letters currentAnswers) => stored = currentAnswers
  end.



(** The three official categories. *)
Definition envisioning : string := "Perform solution envisioning and requirement analysis".
Definition architecture : string := "Architect a solution".
Definition implementation : string := "Implement the solution".

(** The questions of a pool that belong to a category, in the order of the
    pool, and their number. *)
Definition categoryPool (h : gmap loc Question) (name : string) (pool : list loc)
    : list loc :=
  filter (λ q, category <$> h !! q = Some name) pool.

Definition countCategory (h : gmap loc Question) (name : string) (pool : list loc) : nat :=
  length (categoryPool h name pool).

(** Every reference of the pool points to a question object (references
    never dangle in JavaScript). *)
Definition allocated (h : gmap loc Question) (pool : list loc) : Prop :=
  Forall (λ q, is_Some (h !! q)) pool.

(** No question of the list has a category, or an id, that names a member
    of [Object.prototype]. *)
Definition ordinaryCategories (h : gmap loc Question) (pool : list loc) : Prop :=
  Forall (λ q, (inherited ∘ category) <$> h !! q ≠ Some true) pool.

Definition ordinaryIds (h : gmap loc Question) (pool : list loc) : Prop :=
  Forall (λ q, (inherited ∘ id) <$> h !! q ≠ Some true) pool.

(** What one round of the per-category pass picks from an entry: a slice of
    some rearrangement of its questions. *)
Definition pick_of (targetTotal : nat) (data : Dist.t) (pick : list loc) : Prop :=
  ∃ shuffled, shuffled ≡ₚ Dist.questions data ∧
              pick = sliceTarget shuffled (targetCount targetTotal data).

(** The entries of [categoryDistribution] after grouping the pool. *)
Definition grouped (h : gmap loc Question) (pool : list loc)
    (dist : list (string * Dist.t)) : list (string * Dist.t) :=
  (λ '(name, data),
     (name, Dist.mk (Dist.min data) (Dist.max data)
              (Dist.questions data ++ categoryPool h name pool))) <$> dist.

(** A bank of 60 questions for the exam scenarios: 30 on envisioning, 20
    on architecture and 10 on implementation. *)
Definition examQuestion (n : nat) : Question :=
  mkQuestion (String.append "exam-" (pretty n)) "Which one applies?"
    (if n <? 30 then envisioning else if n <? 50 then architecture else implementation)
    [mkOption "A" "first"; mkOption "B" "second"] ["A"] false None None.

Definition examBank : gmap loc Question :=
  list_to_map ((λ n, (n, examQuestion n)) <$> seq 0 60).

(** A state to run the scenarios in: no question loaded, empty storage,
    and a clock that counts the calls. *)
Definition emptyApp : State := constructor ∅ (Some ∅).
Definition ticks : nat → Timestamp := λ n, 1000 * n.

(** A small question bank for the scenarios.  The first question is
    multiple-choice, with the given array of correct answers. *)
Definition abcd : list AnswerOption :=
  [mkOption "A" "first"; mkOption "B" "second"; mkOption "C" "third"; mkOption "D" "fourth"].

Definition twoOf (answers : list string) : Question :=
  mkQuestion "q1" "Which two apply?" "Architect a solution" abcd answers true None None.

Definition oneOf : Question :=
  mkQuestion "q2" "Which one applies?" "Implement the solution" abcd ["A"] false None None.

Definition bank (answers : list string) : gmap loc Question :=
  {[ 0 := twoOf answers;
     1 := oneOf;
     2 := mkQuestion "q3" "Which one first?"
            "Perform solution envisioning and requirement analysis" abcd ["B"] false
            None None ]}.

(** [Math.random()] always returning 0: every swap of the shuffle is with
    index 0. *)
Definition zeros : nat → unit_frac := λ _, UnitFrac 0 0.

(** The application after loading the bank. *)
Definition loadedApp (answers : list string) : State :=
  loadQuestions [0; 1; 2] (constructor (bank answers) (Some ∅)).

(** A practice session on the architecture category: the only question is
    the multiple-choice one. *)
Definition architectureQuiz (answers : list string) : option State :=
  startQuiz zeros ticks
    (set_selectedCategories {[ "Architect a solution" ]} (loadedApp answers)).

(** The user ticks C, then A. *)
Definition answeredCA (answers : list string) : option State :=
  w ← architectureQuiz answers;
  w ← selectAnswer "C" w;
  selectAnswer "A" w.




(** A category nobody wrote a question for. *)
Definition emptyCategoryApp : State :=
  set_selectedCategories {[ "Deploy" ]} (loadedApp ["A"; "C"]).

End Spec.

(* ===================================================================== *)
(** * css/js/utils.js, continued *)
(* ===================================================================== *)

Module Helpers.
Import JS Utils QuizApp.

(** An integer as a double (exact below 2^53 in absolute value). *)
Definition numZ (z : Z) : float :=
  if (z <? 0)%Z then (- num (Z.to_nat (- z)))%float else num (Z.to_nat z).

(** [Math.round] with its result as the double that JavaScript returns: the
    argument itself when it is an integer already (every double from 2^52
    on), [NaN] or an infinity.  A result [-0] is returned as [0], which no
    comparison of the code tells apart. *)
Definition Math_round_num (x : float) : float :=
  match Prim2SF x with
  | S754_finite _ _ e =>
      if (0 <=? e)%Z then x
      else match Math_round x with Some z => numZ z | None => x end
  | _ => x
  end.

(** [calculateScaledScore] with its result as a double: the integer of
    [calculateScaledScore] when there is one, [NaN] or an infinity
    otherwise. *)
Definition calculateScaledScore_num (rawPercentage : float) : float :=
  if (rawPercentage =? 0)%float then 0%float
  else if (rawPercentage =? 100)%float then 1000%float
  else
    let passingThreshold := 0.65%float in
    if (rawPercentage / 100 <? passingThreshold)%float then
      Math_round_num ((rawPercentage / 100 / passingThreshold) * 699)%float
    else
      let abovePassingRatio :=
        ((rawPercentage / 100 - passingThreshold) / (1 - passingThreshold))%float in
      Math_round_num (700 + (abovePassingRatio * 300))%float.

(** The characters that [escapeHtml] replaces, and their entities.  The
    replaced characters are ASCII, so that replacing them code unit by code
    unit, as the regular expression does, is replacing them byte by byte in
    the UTF-8 text of a Rocq string. *)
Definition quote : Ascii.ascii := "034"%char.

Definition escapeChar (m : Ascii.ascii) : string :=
  if Ascii.eqb m "&"%char then "&amp;"
  else if Ascii.eqb m "<"%char then "&lt;"
  else if Ascii.eqb m ">"%char then "&gt;"
  else if Ascii.eqb m quote then "&quot;"
  else if Ascii.eqb m "'"%char then "&#039;"
  else String m EmptyString.

(** [text.replace(re, m => map[m])], where the global regular expression
    [re] matches each of the five characters of [map]. *)
Fixpoint escapeHtml (text : string) : string :=
  match text with
  | EmptyString => EmptyString
  | String m rest => String.append (escapeChar m) (escapeHtml rest)
  end.

(** [formatQuestion]: a new object with the text of the question and of
    each option escaped, the other fields copied by the spread. *)
Definition formatQuestion (question : Question) : Question :=
  {| id := id question;
     text := escapeHtml (text question);
     category := category question;
     options := (λ opt, mkOption (letter opt) (escapeHtml (optionText opt)))
                  <$> options question;
     correctAnswers := correctAnswers question;
     isMultipleChoice := isMultipleChoice question;
     explanation := explanation question;
     reference := reference question |}.

Section Random.
Context {A : Type}.
Variable random : nat → unit_frac.

(** [getRandomElements(array, count)], for an integer [count]. *)
Definition getRandomElements (array : list A) (count : Z) (k : nat) : list A * nat :=
  let '(shuffled, k) := shuffle random array k in
  (slice0 shuffled count, k).
End Random.

(** The object returned by [validateQuestion]; [errors] is absent from a
    valid result. *)
Record Validation := mkValidation { valid : bool; errors : option string }.

(** [missing.join(', ')]. *)
Fixpoint join (sep : string) (fields : list string) : string :=
  match fields with
  | [] => EmptyString
  | [field] => field
  | field :: rest => String.append field (String.append sep (join sep rest))
  end.

(** [validateQuestion] on a record whose [options] and [correctAnswers]
    are arrays and whose other required fields are strings: such a field is
    missing ([!question[field]]) when it is the empty string, the two arrays
    are never missing, and [Array.isArray] holds. *)
Definition validateQuestion (question : Question) : Validation :=
  let missing :=
    (if String.eqb (id question) "" then ["id"] else [])
    ++ (if String.eqb (text question) "" then ["text"] else [])
    ++ (if String.eqb (category question) "" then ["category"] else []) in
  if 0 <? length missing then
    mkValidation false (Some (String.append "Missing fields: " (join ", " missing)))
  else if length (options question) <? 2 then
    mkValidation false (Some "Question must have at least 2 options")
  else if length (correctAnswers question) =? 0 then
    mkValidation false (Some "Question must have at least one correct answer")
  else if existsb (λ option, String.eqb (letter option) "" || String.eqb (optionText option) "")
            (options question) then
    mkValidation false (Some "Each option must have a letter and text")
  else
    let optionLetters := letter <$> options question in
    match List.find (λ answer, negb (bool_decide (answer ∈ optionLetters)))
            (correctAnswers question) with
    | Some answer =>
        mkValidation false
          (Some (String.append "Correct answer "
                   (String.append answer " not found in options")))
    | None => mkValidation true None
    end.

(** [calculateDifficulty(questionId, history)]; the success rate is a
    quotient of doubles.  An inherited member is truthy and its [attempts]
    is not [0]: the success rate is [NaN], below both thresholds. *)
Definition calculateDifficulty (questionId : string) (history : gmap string History)
    : string :=
  match get history questionId with
  | Absent => "unknown"
  | Inherited => "hard"
  | Own questionHistory =>
      if (attempts questionHistory =? 0)%Z then "unknown"
      else
        let successRate :=
          (numZ (correct questionHistory) / numZ (attempts questionHistory))%float in
        if (0.8 <=? successRate)%float then "easy"
        else if (0.5 <=? successRate)%float then "medium"
        else "hard"
  end.

End Helpers.

(* ===================================================================== *)
(** * The application class [QuizApp], continued: statistics, navigation,
      results, and the controls of the page *)
(* ===================================================================== *)

Module Flow.
Import JS Utils QuizApp Helpers.

Definition set_hintLevel (v : string) (w : State) : State :=
  {| heap := heap w; allQuestions := allQuestions w; questions := questions w;
     currentIndex := currentIndex w; userAnswers := userAnswers w; score := score w;
     quizMode := quizMode w; showAnswer := showAnswer w; showHints := showHints w;
     hintLevel := v; quizStarted := quizStarted w;
     selectedCategories := selectedCategories w; questionCount := questionCount w;
     questionHistory := questionHistory w; quizResults := quizResults w;
     testStartTime := testStartTime w; randomCalls := randomCalls w;
     dateCalls := dateCalls w; alerts := alerts w; localStorage := localStorage w |}.
Definition set_questionCount (v : Count) (w : State) : State :=
  {| heap := heap w; allQuestions := allQuestions w; questions := questions w;
     currentIndex := currentIndex w; userAnswers := userAnswers w; score := score w;
     quizMode := quizMode w; showAnswer := showAnswer w; showHints := showHints w;
     hintLevel := hintLevel w; quizStarted := quizStarted w;
     selectedCategories := selectedCategories w; questionCount := v;
     questionHistory := questionHistory w; quizResults := quizResults w;
     testStartTime := testStartTime w; randomCalls := randomCalls w;
     dateCalls := dateCalls w; alerts := alerts w; localStorage := localStorage w |}.

Definition getOfficialCategories : list string :=
  [ "Perform solution envisioning and requirement analysis";
    "Architect a solution";
    "Implement the solution" ].

Definition getCategoryWeight (category : string) : string :=
  if String.eqb category "Perform solution envisioning and requirement analysis"
  then "45-50%"
  else if String.eqb category "Architect a solution" then "35-40%"
  else if String.eqb category "Implement the solution" then "15-20%"
  else "N/A".

Module Stats.
(** The object returned by [calculateMasteryStats]. *)
Record t := mk { mastered : nat; weak : nat; unseen : nat; learning : nat; total : nat }.
End Stats.

(** The body of the [forEach] of [calculateMasteryStats]: the [switch] on
    the status of one question. *)
Definition countStatus (status : string) (counts : nat * nat * nat * nat)
    : nat * nat * nat * nat :=
  let '(mastered, weak, unseen, learning) := counts in
  if String.eqb status "mastered" then (S mastered, weak, unseen, learning)
  else if String.eqb status "weak" then (mastered, S weak, unseen, learning)
  else if String.eqb status "unseen" then (mastered, weak, S unseen, learning)
  else if String.eqb status "learning" then (mastered, weak, unseen, S learning)
  else counts.

Fixpoint countStatuses (w : State) (qs : list loc) (counts : nat * nat * nat * nat)
    : option (nat * nat * nat * nat) :=
  match qs with
  | [] => Some counts
  | q :: rest =>
      question ← heap w !! q;
      countStatuses w rest
        (countStatus (status (getQuestionMasteryStatus w (id question))) counts)
  end.

Definition calculateMasteryStats (w : State) : option Stats.t :=
  '(mastered, weak, unseen, learning) ← countStatuses w (allQuestions w) (0, 0, 0, 0);
  Some (Stats.mk mastered weak unseen learning (length (allQuestions w))).

(** An entry of the object [categories] of [calculateCategoryScores], and
    of the array it returns. *)
Record CategoryScore := mkScore {
  name : string;
  categoryCorrect : nat;
  categoryTotal : nat
}.

(** [categories[category]] is created on first use and updated in place
    afterwards; [Object.entries] lists the keys in the order of their
    creation (the category names are not array indices).  For a category
    that names an inherited member [!categories[category]] is false: no
    entry is created, the increments go to the member, and
    [Object.entries] does not list it. *)
Fixpoint addResult (category : string) (isCorrect : bool) (categories : list CategoryScore)
    : list CategoryScore :=
  match categories with
  | [] => if inherited category then []
          else [mkScore category (if isCorrect then 1 else 0) 1]
  | entry :: rest =>
      if String.eqb (name entry) category
      then mkScore (name entry)
             (if isCorrect then S (categoryCorrect entry) else categoryCorrect entry)
             (S (categoryTotal entry)) :: rest
      else entry :: addResult category isCorrect rest
  end.

(** The [forEach] over the questions, from position [index];
    [this.quizResults[index]] is [undefined], hence false, past the end. *)
Fixpoint tally (w : State) (qs : list loc) (index : nat) (categories : list CategoryScore)
    : option (list CategoryScore) :=
  match qs with
  | [] => Some categories
  | q :: rest =>
      question ← heap w !! q;
      let isCorrect := default false (quizResults w !! index) in
      tally w rest (S index) (addResult (category question) isCorrect categories)
  end.

(** [Math.round((data.correct / data.total) * 100)]. *)
Definition percentage (entry : CategoryScore) : float :=
  Math_round_num (num (categoryCorrect entry) / num (categoryTotal entry) * 100)%float.

(** [calculateCategoryScores()]: the entries, each displayed with
    [percentage]. *)
Definition calculateCategoryScores (w : State) : option (list CategoryScore) :=
  tally w (questions w) 0 [].

(** What [showResults] hands to the template of the page: the arguments of
    [renderTestResults] or of [renderPracticeResults], with the category
    scores and the mastery statistics that the templates compute. *)
Inductive Report :=
| TestResults (scaledScore : float) (passed : bool) (rawPercentage : float)
    (correctCount totalQuestions : nat) (testDuration : float)
    (categories : list CategoryScore)
| PracticeResults (rawPercentage : float) (correctCount totalQuestions : nat)
    (categories : list CategoryScore) (stats : Stats.t).

Section Methods.
Variable random : nat → unit_frac.
Variable clock : nat → Timestamp.

Definition toggleCategory (category : string) (w : State) : option State :=
  render
    (if bool_decide (category ∈ selectedCategories w)
     then set_selectedCategories (selectedCategories w ∖ {[ category ]}) w
     else set_selectedCategories ({[ category ]} ∪ selectedCategories w) w).

(** [showResults()]: the report, and the state after reading the clock. *)
Definition showResults (w : State) : option (Report * State) :=
  let correctCount := length (filter (λ r, r = true) (quizResults w)) in
  let totalQuestions := length (questions w) in
  let rawPercentage :=
    Math_round_num (num correctCount / num totalQuestions * 100)%float in
  let scaledScore := calculateScaledScore_num rawPercentage in
  let passed := (700 <=? scaledScore)%float in
  let '(testDuration, w) :=
    match testStartTime w with
    | Some start =>
        (Math_round_num
           (numZ (Z.of_nat (clock (dateCalls w)) - Z.of_nat start) / 1000)%float,
         set_dateCalls (S (dateCalls w)) w)
    | None => (0%float, w)
    end in
  categories ← calculateCategoryScores w;
  if String.eqb (quizMode w) "test" then
    Some (TestResults scaledScore passed rawPercentage correctCount totalQuestions
            testDuration categories, w)
  else
    stats ← calculateMasteryStats w;
    Some (PracticeResults rawPercentage correctCount totalQuestions categories stats, w).

(** [nextQuestion()]: the next question, or the results after the last
    one. *)
Definition nextQuestion (w : State) : option (State * option Report) :=
  if currentIndex w <? length (questions w) - 1 then
    let w := set_currentIndex (S (currentIndex w)) w in
    let w := set_showAnswer false w in
    let w := set_showHints false w in
    w ← render w; Some (w, None)
  else
    '(report, w) ← showResults w; Some (w, Some report).

Definition prevQuestion (w : State) : option State :=
  if 0 <? currentIndex w then
    let w := set_currentIndex (currentIndex w - 1) w in
    let w := set_showAnswer false w in
    let w := set_showHints false w in
    render w
  else Some w.

Definition reviewAnswers (w : State) : option State :=
  let w := set_currentIndex 0 w in
  let w := set_showAnswer true w in
  render w.

Definition reset (w : State) : option State :=
  let w := set_currentIndex 0 w in
  let w := set_userAnswers ∅ w in
  let w := set_score 0 w in
  let w := set_showAnswer false w in
  let w := set_showHints false w in
  let w := set_quizStarted false w in
  let w := set_quizResults [] w in
  render w.

(** ** The page and its controls *)

(** What the element [#app] shows: the setup page or the question page,
    written by [render], or the results, written by [showResults]. *)
Inductive Screen :=
| SetupScreen
| QuestionScreen
| ResultsScreen (report : Report).

Record App := mkApp { state : State; screen : Screen }.

(** [render()] replaces the page. *)
Definition rendered (w : State) : Screen :=
  if quizStarted w then QuestionScreen else SetupScreen.

(** The controls of the three templates, by their [onclick] and [onchange]
    handlers. *)
Inductive Click :=
| ChoosePractice
| ChooseTest
| ToggleCategory (category : string)
| SelectAll
| ClearAll
| ChooseCount (count : Count)
| Start
| ChooseOption (optionLetter : string)
| ToggleHints
| ChooseHintLevel (level : string)
| Previous
| CheckAnswer
| Next
| Reset
| Review.

Definition currentQuestion (w : State) : option Question :=
  r ← questions w !! currentIndex w; heap w !! r.

(** [!this.userAnswers[question.id] || (question.isMultipleChoice &&
    (... || this.userAnswers[question.id].length === 0))]: the condition
    under which the button 'Check Answer' is disabled.  An inherited member
    is truthy, and has the [length] of [memberLength]. *)
Definition checkDisabled (w : State) (question : Question) : bool :=
  match get (userAnswers w) (id question) with
  | Absent | Own (Letter "") => true
  | Own (Letter _) => false
  | Own (Letters userAnswer) => isMultipleChoice question && (length userAnswer =? 0)
  | Inherited =>
      isMultipleChoice question && bool_decide (memberLength (id question) = Some 0)
  end.

(** The control is on the page and is not disabled.  The question page is
    the card 'No questions available', without controls, when there is no
    current question.  The hint controls are on the page in practice mode
    while the answer is hidden, for a question that has hints: the record
    of a question does not say whether it has, and they are taken as present
    (the selector of the level only once the hints are shown). *)
Definition available (a : App) (c : Click) : bool :=
  let w := state a in
  match screen a with
  | SetupScreen =>
      match c with
      | ChoosePractice | ChooseTest | SelectAll | ClearAll => true
      | ToggleCategory category => bool_decide (category ∈ getOfficialCategories)
      | ChooseCount count =>
          String.eqb (quizMode w) "practice"
          && match count with
             | all => true
             | limit n => bool_decide (n ∈ [5; 10; 15; 20]%Z)
             end
      | Start => negb (size (selectedCategories w) =? 0)
      | _ => false
      end
  | QuestionScreen =>
      match currentQuestion w with
      | None => false
      | Some question =>
          match c with
          | ChooseOption optionLetter =>
              bool_decide (optionLetter ∈ letter <$> options question)
              && negb (showAnswer w)
          | ToggleHints =>
              String.eqb (quizMode w) "practice" && negb (showAnswer w)
          | ChooseHintLevel level =>
              String.eqb (quizMode w) "practice" && negb (showAnswer w) && showHints w
              && bool_decide (level ∈ ["easy"; "medium"; "hard"])
          | Previous => negb (currentIndex w =? 0)
          | CheckAnswer =>
              negb (showAnswer w) && String.eqb (quizMode w) "practice"
              && negb (checkDisabled w question)
          | Next => showAnswer w || String.eqb (quizMode w) "test"
          | _ => false
          end
      end
  | ResultsScreen _ =>
      match c with
      | Reset | Review => true
      | _ => false
      end
  end.

(** The handler of a control, and the page it leaves.  [startQuiz] returns
    without rendering after its alert, and [selectAnswer] when the answer is
    shown. *)
Definition handle (c : Click) (a : App) : option App :=
  let w := state a in
  match c with
  | ChoosePractice => w ← render (set_quizMode "practice" w); Some (mkApp w (rendered w))
  | ChooseTest => w ← render (set_quizMode "test" w); Some (mkApp w (rendered w))
  | ToggleCategory category => w ← toggleCategory category w; Some (mkApp w (rendered w))
  | SelectAll =>
      w ← render (set_selectedCategories (list_to_set getOfficialCategories) w);
      Some (mkApp w (rendered w))
  | ClearAll => w ← render (set_selectedCategories ∅ w); Some (mkApp w (rendered w))
  | ChooseCount count => w ← render (set_questionCount count w); Some (mkApp w (rendered w))
  | Start =>
      w' ← startQuiz random clock w;
      Some (mkApp w' (if length (alerts w') =? length (alerts w)
                      then rendered w' else screen a))
  | ChooseOption optionLetter =>
      w' ← selectAnswer optionLetter w;
      Some (mkApp w' (if showAnswer w then screen a else rendered w'))
  | ToggleHints =>
      w ← render (set_showHints (negb (showHints w)) w); Some (mkApp w (rendered w))
  | ChooseHintLevel level => w ← render (set_hintLevel level w); Some (mkApp w (rendered w))
  | Previous =>
      w' ← prevQuestion w;
      Some (mkApp w' (if 0 <? currentIndex w then rendered w' else screen a))
  | CheckAnswer => w ← checkAnswer clock w; Some (mkApp w (rendered w))
  | Next =>
      '(w, report) ← nextQuestion w;
      Some (mkApp w (match report with
                     | Some report => ResultsScreen report
                     | None => rendered w
                     end))
  | Reset => w ← reset w; Some (mkApp w (rendered w))
  | Review => w ← reviewAnswers w; Some (mkApp w (rendered w))
  end.

(** One click on a control of the page. *)
Definition click (c : Click) (a : App) : option App :=
  if available a c then handle c a else None.

(** A sequence of clicks, each on a control of the page it finds. *)
Fixpoint clicks (cs : list Click) (a : App) : option App :=
  match cs with
  | [] => Some a
  | c :: rest => a ← click c a; clicks rest a
  end.

End Methods.
End Flow.

(* ===================================================================== *)
(** * Definitions used to state the further properties *)
(* ===================================================================== *)

Module Props.
Import JS Utils QuizApp Helpers Flow.

(** The characters of a text. *)
Definition chars (text : string) : list Ascii.ascii := String.list_ascii_of_string text.

(** The five characters that [escapeHtml] replaces. *)
Definition special (m : Ascii.ascii) : Prop :=
  m ∈ ["&"%char; "<"%char; ">"%char; quote; "'"%char].

(** The characters that open or close a tag or an attribute value. *)
Definition markup (m : Ascii.ascii) : Prop :=
  m ∈ ["<"%char; ">"%char; quote; "'"%char].

(** A question in the shape that [validateQuestion] asks for. *)
Definition wellFormed (question : Question) : Prop :=
  id question ≠ "" ∧ text question ≠ "" ∧ category question ≠ "" ∧
  2 ≤ length (options question) ∧
  correctAnswers question ≠ [] ∧
  Forall (λ option, letter option ≠ "" ∧ optionText option ≠ "") (options question) ∧
  Forall (λ answer, answer ∈ letter <$> options question) (correctAnswers question).

(** The difficulty by exact fractions: at least 4/5 of the attempts correct
    is easy, at least 1/2 is medium. *)
Definition difficultyOf (correct attempts : Z) : string :=
  if (4 * attempts <=? 5 * correct)%Z then "easy"
  else if (attempts <=? 2 * correct)%Z then "medium"
  else "hard".

(** One line of the table of success rates, for a number of attempts. *)
Definition difficulty_ok (attempts : nat) : bool :=
  forallb
    (λ correct,
       String.eqb
         (calculateDifficulty "q"
            {[ "q" := mkHistory (Z.of_nat attempts) (Z.of_nat correct)
                        (Z.of_nat (attempts - correct)) None 0 false 100 ]})
         (difficultyOf (Z.of_nat correct) (Z.of_nat attempts)))
    (seq 0 (S attempts)).


(** The fields that [render] does not write: all but the question objects
    and the stored answers. *)
Definition session (w : State) :=
  (allQuestions w, questions w, currentIndex w, score w, quizMode w, showAnswer w,
   showHints w, hintLevel w, quizStarted w, selectedCategories w, questionCount w,
   questionHistory w, quizResults w, testStartTime w, randomCalls w, dateCalls w,
   alerts w, localStorage w).

(** The fields that [updateQuestionHistory] does not write: all but the
    history, the storage and the clock. *)
Definition controls (w : State) :=
  (heap w, allQuestions w, questions w, currentIndex w, userAnswers w, score w,
   quizMode w, showAnswer w, showHints w, hintLevel w, quizStarted w,
   selectedCategories w, questionCount w, quizResults w, testStartTime w,
   randomCalls w, alerts w).

(** A report of an exam that shows no correct answer and a failure (a
    report of a practice session shows neither). *)
Definition failedExam (report : Report) : Prop :=
  match report with
  | TestResults _ passed _ correctCount _ _ _ => passed = false ∧ correctCount = 0
  | PracticeResults _ _ _ _ _ => True
  end.

(** What holds of the application whatever is clicked. *)
Definition examInvariant (a : App) : Prop :=
  (screen a = SetupScreen ↔ quizStarted (state a) = false) ∧
  (screen a = SetupScreen → quizResults (state a) = []) ∧
  (quizMode (state a) = "test" →
   quizResults (state a) = [] ∧
   (screen a ≠ SetupScreen → length (questions (state a)) ≤ 60)) ∧
  (∀ report, screen a = ResultsScreen report → failedExam report).

(** One line of the table of exams without a correct answer. *)
Definition zero_score_fails (totalQuestions : nat) : bool :=
  negb (700 <=? calculateScaledScore_num
                  (Math_round_num (num 0 / num totalQuestions * 100)))%float.

(** The nearest integers to the percentage of [correctCount] in
    [totalQuestions]. *)
Definition nearestPercentage (correctCount totalQuestions p : nat) : Prop :=
  2 * (100 * correctCount - p * totalQuestions) ≤ totalQuestions ∧
  2 * (p * totalQuestions - 100 * correctCount) ≤ totalQuestions.

(** One line of the table of percentages and exam results, for a number of
    questions: the percentage is a nearest integer, and the exam is passed
    from 64.5% on. *)
Definition results_ok (totalQuestions : nat) : bool :=
  forallb
    (λ correctCount,
       let rawPercentage :=
         Math_round_num (num correctCount / num totalQuestions * 100)%float in
       let p := (200 * correctCount + totalQuestions) / (2 * totalQuestions) in
       ((rawPercentage =? num p)%float
        || (rawPercentage =? num (p - 1))%float
           && (2 * (100 * correctCount - (p - 1) * totalQuestions) <=? totalQuestions))
       && Bool.eqb (700 <=? calculateScaledScore_num rawPercentage)%float
            (129 * totalQuestions <=? 200 * correctCount))
    (seq 0 (S totalQuestions)).

(** The answers of the array [results] that are true. *)
Definition correctResults (results : list bool) : nat :=
  length (filter (λ r, r = true) results).

(** The pool that [startQuiz] draws from: the loaded questions, those of
    the selected categories when some category is selected. *)
Definition inSelectedCategory (w : State) (q : loc) : bool :=
  match heap w !! q with
  | Some question => bool_decide (category question ∈ selectedCategories w)
  | None => false
  end.

Definition selectedPool (w : State) : list loc :=
  if 0 <? size (selectedCategories w)
  then filter (λ q, inSelectedCategory w q = true) (allQuestions w)
  else allQuestions w.

(** The questions of a list whose id names a member of
    [Object.prototype]. *)
Definition inheritedIds (h : gmap loc Question) (qs : list loc) : list loc :=
  filter (λ q, (inherited ∘ id) <$> h !! q = Some true) qs.

(** The calls of a sequence that are about one question. *)
Definition callsFor (questionId : string) (calls : list (string * bool))
    : list (string * bool) :=
  filter (λ call, call.1 = questionId) calls.

(** The attempts, correct and incorrect answers recorded for a question:
    none when it has no history. *)
Definition attemptCounts (w : State) (questionId : string) : Z * Z * Z :=
  match questionHistory w !! questionId with
  | Some history => (attempts history, correct history, incorrect history)
  | None => (0, 0, 0)%Z
  end.

(** The number of questions that the entries named [n] account for. *)
Definition totalOf (n : string) (categories : list CategoryScore) : nat :=
  sum_list (categoryTotal <$> filter (λ entry, name entry = n) categories).

(** A finished session on the three questions of the bank, the first two
    answered correctly. *)
Definition finishedSession (mode : string) : State :=
  set_quizResults [true; true; false]
    (set_questions [0; 1; 2] (set_quizMode mode (Spec.loadedApp ["A"; "C"]))).


(** The two states are of the same session: started or not, with the same
    questions, results and mode. *)
Definition sameExam (w w' : State) : Prop :=
  quizStarted w' = quizStarted w ∧ quizResults w' = quizResults w ∧
  quizMode w' = quizMode w ∧ questions w' = questions w.

(** A run of the page: an exam on all categories of the bank, the first
    question answered with A, then on to the results. *)
Definition examRun : option App :=
  clicks Spec.zeros Spec.ticks
    [ChooseTest; SelectAll; Start; ChooseOption "A"; Next; Next; Next]
    (mkApp (Spec.loadedApp ["A"; "C"]) SetupScreen).

(** A practice session at a single-choice question that is not the last
    one, with its correct answer chosen and not yet checked; no question of
    the session has an id that names an inherited member. *)
Definition correctlyAnswered (w : State) (r : loc) (question : Question) (answer : string)
    : Prop :=
  quizStarted w = true ∧ quizMode w = "practice" ∧ showAnswer w = false ∧
  Spec.allocated (heap w) (questions w) ∧
  Spec.ordinaryIds (heap w) (questions w) ∧
  S (currentIndex w) < length (questions w) ∧
  questions w !! currentIndex w = Some r ∧ heap w !! r = Some question ∧
  isMultipleChoice question = false ∧
  userAnswers w !! id question = Some (Letter answer) ∧ answer ≠ "" ∧
  correctAnswers question !! 0 = Some answer.

(** A practice session on the second question of the bank, with its correct
    answer chosen. *)
Definition answeredSession : State :=
  set_userAnswers {[ "q2" := Letter "A" ]}
    (set_quizStarted true (set_questions [1; 2] (Spec.loadedApp ["A"; "C"]))).

(** Reduces the projections of a chain of field updates. *)
Ltac fields :=
  cbn [heap allQuestions questions currentIndex userAnswers score quizMode showAnswer
       showHints hintLevel quizStarted selectedCategories questionCount questionHistory
       quizResults testStartTime randomCalls dateCalls alerts localStorage
       set_heap set_questions set_currentIndex set_userAnswers set_score set_showAnswer
       set_showHints set_quizStarted set_questionHistory set_quizResults
       set_testStartTime set_randomCalls set_dateCalls set_alerts set_localStorage
       set_allQuestions set_quizMode set_selectedCategories set_hintLevel
       set_questionCount].

End Props.

(* ===================================================================== *)
(** * Properties of the dictionaries *)
(* ===================================================================== *)

Module DictionaryFacts.
Import JS.

Section Dictionary.
Context {A : Type}.
Implicit Types (obj : gmap string A) (key : string).

Lemma get_Own obj key v : obj !! key = Some v → get obj key = Own v.
Proof. unfold get. by intros ->. Qed.


Lemma get_Inherited obj key :
  obj !! key = None → inherited key = true → get obj key = Inherited.
Proof. unfold get. by intros -> ->. Qed.

(** Under a key that names no member of [Object.prototype] the lookup
    finds the own property or nothing. *)
Lemma get_ordinary obj key :
  inherited key = false →
  get obj key = match obj !! key with Some v => Own v | None => Absent end.
Proof. unfold get. by intros ->. Qed.

Lemma get_Own_inv obj key v : get obj key = Own v → obj !! key = Some v.
Proof.
  unfold get. destruct (obj !! key); [by intros [= ->]|].
  by destruct (inherited key).
Qed.

Lemma get_Inherited_inv obj key :
  get obj key = Inherited → obj !! key = None ∧ inherited key = true.
Proof.
  unfold get. destruct (obj !! key); [done|].
  by destruct (inherited key).
Qed.

Lemma get_Absent_inv obj key :
  get obj key = Absent → obj !! key = None ∧ inherited key = false.
Proof.
  unfold get. destruct (obj !! key); [done|].
  by destruct (inherited key).
Qed.

Lemma assign_ordinary obj key v :
  inherited key = false → assign obj key v = <[key := v]> obj.
Proof.
  unfold assign. destruct (String.eqb key "__proto__") eqn:Heq; [|done].
  apply String.eqb_eq in Heq as ->. by vm_compute.
Qed.

End Dictionary.

Lemma inherited_constructor : inherited "constructor" = true.
Proof. by vm_compute. Qed.

End DictionaryFacts.

(* ===================================================================== *)
(** * Properties of the utilities *)
(* ===================================================================== *)

Module UtilsFacts.
Import JS Utils Spec.

(** [Math.floor(Math.random() * n)] is an index below [n]. *)
Lemma floor_mul_lt r n : 0 < n → floor_mul r n < n.
Proof.
  intros Hn. unfold floor_mul.
  apply Nat.Div0.div_lt_upper_bound. nia.
Qed.

Section Shuffle.
Context {A : Type}.
Variable random : nat → unit_frac.
Implicit Types arr elems : list A.

Lemma swap_Permutation i j arr : swap i j arr ≡ₚ arr.
Proof.
  unfold swap.
  destruct (arr !! i) as [x|] eqn:Hi; [|done].
  destruct (arr !! j) as [y|] eqn:Hj; [|done].
  by apply Permutation_insert_swap.
Qed.

Lemma swap_length i j arr : length (swap i j arr) = length arr.
Proof. apply Permutation_length, swap_Permutation. Qed.

(** Inside the loop both indices are in range, so the swap is the
    JavaScript one: the two cells exchange their values. *)
Lemma swap_in_range i j arr :
  i < length arr → j < length arr →
  swap i j arr !! i = arr !! j ∧ swap i j arr !! j = arr !! i.
Proof.
  intros Hi Hj. unfold swap.
  destruct (lookup_lt_is_Some_2 _ _ Hi) as [x Hx].
  destruct (lookup_lt_is_Some_2 _ _ Hj) as [y Hy].
  rewrite Hx, Hy. destruct (decide (i = j)) as [->|Hne].
  - rewrite list_lookup_insert_eq by (by rewrite length_insert). naive_solver.
  - rewrite list_lookup_insert_ne, list_lookup_insert_eq by done.
    by rewrite list_lookup_insert_eq by (by rewrite length_insert).
Qed.

(** Each iteration of the loop, at an index [S i] of the array, swaps with an
    index [j <= S i]: both cells exist and exchange their values. *)
Lemma shuffle_step_in_range i arr k :
  S i < length arr →
  let j := floor_mul (random k) (S i + 1) in
  j ≤ S i ∧
  swap (S i) j arr !! S i = arr !! j ∧ swap (S i) j arr !! j = arr !! S i.
Proof.
  intros Hi j. assert (j < S i + 1) as Hj by (apply floor_mul_lt; lia).
  split; [lia|]. apply swap_in_range; lia.
Qed.

Lemma shuffle_loop_Permutation i arr k : (shuffle_loop random i arr k).1 ≡ₚ arr.
Proof.
  revert arr k. induction i as [|i IH]; intros arr k; simpl; [done|].
  by rewrite IH, swap_Permutation.
Qed.

Lemma shuffle_loop_calls i arr k : (shuffle_loop random i arr k).2 = k + i.
Proof.
  revert arr k. induction i as [|i IH]; intros arr k; simpl; [lia|].
  rewrite IH. lia.
Qed.

Lemma shuffle_Permutation arr k : (shuffle random arr k).1 ≡ₚ arr.
Proof. apply shuffle_loop_Permutation. Qed.

Lemma shuffle_length arr k : length (shuffle random arr k).1 = length arr.
Proof. apply Permutation_length, shuffle_Permutation. Qed.

Lemma shuffle_calls arr k : (shuffle random arr k).2 = k + (length arr - 1).
Proof. apply shuffle_loop_calls. Qed.

Lemma shuffle_nil k : shuffle random (@nil A) k = (@nil A, k).
Proof. reflexivity. Qed.

Lemma shuffle_singleton (x : A) k : shuffle random [x] k = ([x], k).
Proof. reflexivity. Qed.

(** The loop on the heap only writes to [arr], and what it leaves there
    is what the loop on the contents computes. *)
Lemma shuffle_loop_ref_spec i (a : nat) (h : gmap nat (list A)) elems k :
  h !! a = Some elems →
  shuffle_loop_ref random i a h k =
    (<[a := (shuffle_loop random i elems k).1]> h, (shuffle_loop random i elems k).2).
Proof.
  revert h elems k. induction i as [|i IH]; intros h elems k Harr; simpl.
  - by rewrite insert_id.
  - erewrite IH by (by rewrite lookup_alter_eq, Harr).
    f_equal. apply map_eq. intros r. destruct (decide (a = r)) as [->|Hne].
    + by rewrite !lookup_insert_eq.
    + by rewrite !lookup_insert_ne, lookup_alter_ne.
Qed.
End Shuffle.

Section ArraysEqual.
Context {A : Type} `{EqDecision A}.
Implicit Types arr : list A.

Lemma arraysEqual_from_spec n i arr1 arr2 :
  arraysEqual_from n i arr1 arr2 = true ↔
  ∀ j, i ≤ j < i + n → arr1 !! j = arr2 !! j.
Proof.
  revert i. induction n as [|n IH]; intros i; simpl.
  - split; [intros _ j; lia|done].
  - case_decide as Heq.
    + rewrite IH. split.
      * intros H j Hj. destruct (decide (j = i)) as [->|]; [done|]. apply H. lia.
      * intros H j Hj. apply H. lia.
    + split; [done|]. intros H. destruct Heq. apply H. lia.
Qed.

Lemma arraysEqual_spec arr1 arr2 : arraysEqual arr1 arr2 = true ↔ arr1 = arr2.
Proof.
  unfold arraysEqual. case_decide as Hlen.
  - rewrite arraysEqual_from_spec. split.
    + intros H. apply list_eq. intros j.
      destruct (decide (j < length arr1)); [apply H; lia|].
      by rewrite !lookup_ge_None_2 by lia.
    + by intros ->.
  - split; [done|]. by intros ->.
Qed.
End ArraysEqual.

(** ** [shuffle] *)

(** C8: for every array (empty and one-element arrays included),
    [shuffle] returns a new array that is a permutation of the argument
    (same elements with the same multiplicities, same length), and the
    argument array is left as it was: the result is a fresh reference, the
    argument still holds its elements in their order, and no other array of
    the heap changes. *)
Theorem shuffle_permutation_of_input {A} (random : nat → unit_frac)
    (h : gmap nat (list A)) (array : nat) (elems : list A) (k : nat) :
  h !! array = Some elems →
  ∃ h' arr k' shuffled,
    shuffle_ref random h array k = Some (h', arr, k') ∧
    h' !! arr = Some shuffled ∧
    shuffled = fst (shuffle random elems k) ∧
    shuffled ≡ₚ elems ∧
    length shuffled = length elems ∧
    (arr ∉ dom h) ∧
    h' !! array = Some elems ∧
    (∀ r, r ≠ arr → h' !! r = h !! r).
Proof.
  intros Harray. unfold shuffle_ref. rewrite Harray.
  set (arr := fresh (dom h)).
  assert (Hfresh : arr ∉ dom h) by apply is_fresh.
  assert (Hne : arr ≠ array).
  { intros ->. apply Hfresh, elem_of_dom. eauto. }
  rewrite (shuffle_loop_ref_spec random _ arr _ elems) by apply lookup_insert_eq.
  eexists _, arr, _, _. split; [reflexivity|].
  split; [apply lookup_insert_eq|].
  split; [reflexivity|].
  split; [apply shuffle_loop_Permutation|].
  split; [apply Permutation_length, shuffle_loop_Permutation|].
  split; [done|].
  split.
  - by rewrite !lookup_insert_ne.
  - intros r Hr. by rewrite !lookup_insert_ne.
Qed.

Lemma shuffle_permutation_of_input_witness :
  ∃ h' arr k' shuffled,
    shuffle_ref (λ n, UnitFrac n 1) {[ 7 := [10; 20; 30; 40] ]} 7 0 = Some (h', arr, k') ∧
    h' !! arr = Some shuffled ∧
    shuffled = fst (shuffle (λ n, UnitFrac n 1) [10; 20; 30; 40] 0) ∧
    shuffled ≡ₚ [10; 20; 30; 40] ∧
    length shuffled = length [10; 20; 30; 40] ∧
    (arr ∉ dom ({[ 7 := [10; 20; 30; 40] ]} : gmap nat (list nat))) ∧
    h' !! 7 = Some [10; 20; 30; 40] ∧
    (∀ r, r ≠ arr → h' !! r = ({[ 7 := [10; 20; 30; 40] ]} : gmap nat (list nat)) !! r).
Proof.
  apply (shuffle_permutation_of_input (λ n, UnitFrac n 1)
           {[ 7 := [10; 20; 30; 40] ]} 7 [10; 20; 30; 40] 0).
  reflexivity.
Defined.

(** ** [calculateScaledScore] *)





(** The doubles next to the breakpoints, and a half-integer percentage. *)
Lemma calculateScaledScore_neighbours :
  calculateScaledScore (next_up 0) = Some 0%Z ∧
  calculateScaledScore 64.5%float = Some 694%Z ∧
  calculateScaledScore (next_down 65) = Some 699%Z ∧
  calculateScaledScore (next_up 65) = Some 700%Z ∧
  calculateScaledScore (next_down 100) = Some 1000%Z.
Proof. repeat split; by vm_compute. Qed.



End UtilsFacts.

(* ===================================================================== *)
(** * Properties of the mastery tracker *)
(* ===================================================================== *)

Module HistoryFacts.
Import JS QuizApp Spec DictionaryFacts.

Section Mastery.
Variable clock : nat → Timestamp.

Abbreviation update := (updateQuestionHistory clock).
Abbreviation run := (recordAttempts clock).
Abbreviation startingHistory := (Spec.startingHistory clock).

Lemma saveHistory_questionHistory w :
  questionHistory (saveHistory w) = questionHistory w.
Proof. unfold saveHistory. by destruct (localStorage w). Qed.

(** A call for an inherited member that is not shadowed by a record
    leaves the records as they are. *)
Lemma update_inherited w questionId isCorrect :
  get (questionHistory w) questionId = Inherited →
  questionHistory (update questionId isCorrect w) = questionHistory w.
Proof.
  intros Hget. unfold updateQuestionHistory. rewrite Hget.
  by rewrite saveHistory_questionHistory.
Qed.

(** One call writes exactly the entry of its question. *)
Lemma update_lookup_eq w questionId isCorrect :
  get (questionHistory w) questionId ≠ Inherited →
  ∃ history' : History,
    questionHistory (update questionId isCorrect w) !! questionId = Some history' ∧
    attempts history' = (attempts (startingHistory w questionId) + 1)%Z ∧
    correct history' =
      (correct (startingHistory w questionId) + if isCorrect then 1 else 0)%Z ∧
    incorrect history' =
      (incorrect (startingHistory w questionId) + if isCorrect then 0 else 1)%Z ∧
    mastered history' =
      (if isCorrect
       then if (correct (startingHistory w questionId) + 1 >=? 3)%Z
               && (incorrect (startingHistory w questionId) =? 0)%Z
            then true else mastered (startingHistory w questionId)
       else false) ∧
    retentionScore history' =
      (if isCorrect
       then Z.min 100 (retentionScore (startingHistory w questionId) + 10)
       else Z.max 0 (retentionScore (startingHistory w questionId) - 20)).
Proof.
  unfold updateQuestionHistory, startingHistory, get.
  destruct (questionHistory w !! questionId) as [history|];
    [|destruct (inherited questionId); [done|]];
    intros _; destruct isCorrect; rewrite saveHistory_questionHistory; simpl;
    rewrite lookup_insert_eq; eexists; (split; [reflexivity|]); simpl;
    rewrite ?Z.add_0_r; done.
Qed.

Lemma update_lookup_ne w questionId isCorrect other :
  questionId ≠ other →
  questionHistory (update questionId isCorrect w) !! other = questionHistory w !! other.
Proof.
  intros Hne. unfold updateQuestionHistory, get.
  destruct (questionHistory w !! questionId) as [history|];
    [|destruct (inherited questionId)];
    rewrite saveHistory_questionHistory; simpl; by rewrite ?lookup_insert_ne.
Qed.

Lemma startingHistory_ok w questionId :
  entry_ok w questionId → history_ok (startingHistory w questionId).
Proof.
  unfold entry_ok, startingHistory. intros Hok.
  destruct (questionHistory w !! questionId) as [history|]; [by apply Hok|].
  repeat split; simpl; try lia; done.
Qed.

Lemma update_entry_ok w questionId isCorrect target :
  entry_ok w target → entry_ok (update questionId isCorrect w) target.
Proof.
  intros Hok history'. destruct (decide (questionId = target)) as [->|Hne].
  - assert (get (questionHistory w) target = Inherited ∨
            get (questionHistory w) target ≠ Inherited) as [Hget|Hget]
      by (destruct (get (questionHistory w) target); auto).
    { rewrite update_inherited by done. apply Hok. }
    destruct (update_lookup_eq w target isCorrect Hget)
      as (h & Hlook & _ & Hc & Hi & Hm & Hr).
    rewrite Hlook. intros [= <-]. apply startingHistory_ok in Hok.
    destruct Hok as (Hrs & Hc0 & Hi0 & Hmast).
    unfold history_ok. rewrite Hc, Hi, Hm, Hr. destruct isCorrect.
    + destruct (_ && _) eqn:Hb.
      * apply andb_prop in Hb as [Hb1 Hb2]. repeat split; lia.
      * intuition lia.
    + repeat split; try lia; done.
  - rewrite update_lookup_ne by done. apply Hok.
Qed.

Lemma run_entry_ok calls w target :
  entry_ok w target → entry_ok (run calls w) target.
Proof.
  revert w. induction calls as [|[questionId isCorrect] calls IH]; intros w Hok;
    simpl; [done|].
  by apply IH, update_entry_ok.
Qed.

Lemma no_history_entry_ok w questionId :
  questionHistory w !! questionId = None → entry_ok w questionId.
Proof. intros Hnone history. by rewrite Hnone. Qed.

(** Once a question has been attempted its history stays. *)
Lemma run_lookup_is_Some calls w target :
  is_Some (questionHistory w !! target) →
  is_Some (questionHistory (run calls w) !! target).
Proof.
  revert w. induction calls as [|[questionId isCorrect] calls IH]; intros w Hsome;
    simpl; [done|].
  apply IH. destruct (decide (questionId = target)) as [->|Hne].
  - destruct Hsome as [history Hsome].
    destruct (update_lookup_eq w target isCorrect) as (h & -> & _); [|eauto].
    by rewrite (get_Own _ _ _ Hsome).
  - by rewrite update_lookup_ne.
Qed.

Lemma run_attempted calls w target :
  inherited target = false →
  target ∈ calls.*1 → is_Some (questionHistory (run calls w) !! target).
Proof.
  intros Hordinary.
  revert w. induction calls as [|[questionId isCorrect] calls IH]; intros w Hin;
    simpl in *; [by apply elem_of_nil in Hin|].
  apply elem_of_cons in Hin as [->|Hin]; [|by apply IH].
  apply run_lookup_is_Some.
  destruct (update_lookup_eq w questionId isCorrect) as (h & -> & _); [|eauto].
  rewrite get_ordinary by done. by destruct (_ !! _).
Qed.

(** A sequence of calls for an inherited member never creates a record
    for it. *)
Lemma run_inherited calls w target :
  inherited target = true → questionHistory w !! target = None →
  questionHistory (run calls w) !! target = None.
Proof.
  intros Hinherited.
  revert w. induction calls as [|[questionId isCorrect] calls IH]; intros w Hnone;
    simpl; [done|].
  apply IH. destruct (decide (questionId = target)) as [->|Hne].
  - rewrite update_inherited; [done|]. by apply get_Inherited.
  - by rewrite update_lookup_ne.
Qed.





(** C6: for every question and every finite sequence of
    [updateQuestionHistory] calls that starts where the question has no
    history, whenever [getQuestionMasteryStatus] answers 'mastered' the
    question has a history with at least 3 correct answers, no incorrect
    answer and a retention score of at least 70. *)
Theorem mastered_status_invariant w questionId calls :
  questionHistory w !! questionId = None →
  status (getQuestionMasteryStatus (recordAttempts clock calls w) questionId) = "mastered" →
  ∃ history,
    questionHistory (recordAttempts clock calls w) !! questionId = Some history ∧
    (3 ≤ correct history)%Z ∧ incorrect history = 0%Z ∧
    (70 ≤ retentionScore history)%Z.
Proof.
  intros Hnone Hstatus.
  pose proof (run_entry_ok calls w questionId (no_history_entry_ok _ _ Hnone)) as Hok.
  unfold getQuestionMasteryStatus, get in Hstatus.
  destruct (questionHistory (run calls w) !! questionId) as [history|] eqn:Hlook;
    [|by destruct (inherited questionId)].
  destruct (Hok history Hlook) as (_ & _ & _ & Hmast).
  destruct (mastered history) eqn:Hm; simpl in Hstatus.
  - destruct (retentionScore history >=? 70)%Z eqn:Hr.
    + exists history. destruct (Hmast eq_refl). repeat split; try done. lia.
    + by destruct (_ || _).
  - by destruct (_ || _).
Qed.

End Mastery.





Lemma mastered_status_invariant_witness :
  ∃ history,
    questionHistory
      (recordAttempts ticks [("q7", true); ("q7", true); ("q2", false); ("q7", true)] emptyApp)
      !! "q7" = Some history ∧
    (3 ≤ correct history)%Z ∧ incorrect history = 0%Z ∧
    (70 ≤ retentionScore history)%Z.
Proof.
  apply (mastered_status_invariant ticks emptyApp "q7"
           [("q7", true); ("q7", true); ("q2", false); ("q7", true)]).
  - reflexivity.
  - vm_compute. reflexivity.
Defined.

End HistoryFacts.

(* ===================================================================== *)
(** * Properties of the exam selection: [selectTestQuestions] *)
(* ===================================================================== *)

Module SelectionFacts.
Import JS Utils QuizApp Spec DictionaryFacts.

Lemma ordinaryCategories_lookup h pool q question :
  ordinaryCategories h pool → q ∈ pool → h !! q = Some question →
  inherited (category question) = false.
Proof.
  unfold ordinaryCategories. rewrite Forall_forall. intros Hall Hq Hlook.
  specialize (Hall q Hq). rewrite Hlook in Hall. simpl in Hall.
  by destruct (inherited (category question)).
Qed.

Lemma ordinaryIds_lookup h pool q question :
  ordinaryIds h pool → q ∈ pool → h !! q = Some question →
  inherited (id question) = false.
Proof.
  unfold ordinaryIds. rewrite Forall_forall. intros Hall Hq Hlook.
  specialize (Hall q Hq). rewrite Hlook in Hall. simpl in Hall.
  by destruct (inherited (id question)).
Qed.

(** The per-category targets of a 50-question exam: the three midpoints,
    47.5%, 37.5% and 17.5%, give 23.75, 18.75 and 8.75, rounded to 24, 19 and
    9, which add up to 52. *)
Lemma targetCount_50 qs1 qs2 qs3 :
  targetCount 50 (Dist.mk 0.45 0.50 qs1) = Some 24%Z ∧
  targetCount 50 (Dist.mk 0.35 0.40 qs2) = Some 19%Z ∧
  targetCount 50 (Dist.mk 0.15 0.20 qs3) = Some 9%Z.
Proof. repeat split; by vm_compute. Qed.

Lemma slice0_sublist (arr : list loc) e : slice0 arr e `sublist_of` arr.
Proof. unfold slice0. destruct (e <? 0)%Z; apply sublist_take. Qed.

Lemma slice0_nonneg (arr : list loc) (n : nat) : slice0 arr (Z.of_nat n) = take n arr.
Proof.
  unfold slice0. destruct (Z.ltb_spec (Z.of_nat n) 0); [lia|]. by rewrite Nat2Z.id.
Qed.

Lemma sliceTarget_sublist shuffled target : sliceTarget shuffled target `sublist_of` shuffled.
Proof. destruct target; simpl; [apply slice0_sublist|apply sublist_nil_l]. Qed.

(** With a target that is a non-negative integer the slice has
    [min(targetCount, shuffled.length)] elements. *)
Lemma sliceTarget_Some shuffled (n : nat) :
  sliceTarget shuffled (Some (Z.of_nat n)) = take (n `min` length shuffled) shuffled.
Proof.
  simpl. rewrite <-Nat2Z.inj_min. apply slice0_nonneg.
Qed.

Lemma pick_of_submseteq targetTotal data pick :
  pick_of targetTotal data pick → pick ⊆+ Dist.questions data.
Proof.
  intros (shuffled & Hperm & ->). rewrite <-Hperm.
  apply sublist_submseteq, sliceTarget_sublist.
Qed.

Lemma pick_of_length targetTotal data pick (n : nat) :
  targetCount targetTotal data = Some (Z.of_nat n) →
  pick_of targetTotal data pick →
  length pick = n `min` length (Dist.questions data).
Proof.
  intros Htarget (shuffled & Hperm & ->). rewrite Htarget, sliceTarget_Some.
  rewrite length_take, (Permutation_length Hperm). lia.
Qed.

(** ** Lists of distinct references *)

Lemma submseteq_NoDup (l1 l2 : list loc) : l1 ⊆+ l2 → NoDup l2 → NoDup l1.
Proof.
  intros [k Hk]%submseteq_Permutation Hnd. rewrite Hk in Hnd.
  by apply NoDup_app in Hnd as [? _].
Qed.

Lemma filter_all (P : loc → Prop) `{∀ x, Decision (P x)} (l : list loc) :
  (∀ x, x ∈ l → P x) → filter P l = l.
Proof.
  induction l as [|x l IH]; intros Hall; [done|].
  rewrite filter_cons_True by (apply Hall; by left).
  f_equal. apply IH. intros y Hy. apply Hall. by right.
Qed.

Lemma filter_none (P : loc → Prop) `{∀ x, Decision (P x)} (l : list loc) :
  (∀ x, x ∈ l → ¬ P x) → filter P l = [].
Proof.
  induction l as [|x l IH]; intros Hall; [done|].
  rewrite filter_cons_False by (apply Hall; by left).
  apply IH. intros y Hy. apply Hall. by right.
Qed.

(** The questions not selected so far: with distinct references,
    [includes] takes out exactly the selected ones. *)
Lemma unused_Permutation (selected pool : list loc) :
  NoDup pool → selected ⊆+ pool →
  selected ++ filter (λ q, q ∉ selected) pool ≡ₚ pool.
Proof.
  intros Hnd [k Hk]%submseteq_Permutation.
  rewrite Hk in Hnd |- *. apply NoDup_app in Hnd as (_ & Hdisj & _).
  rewrite filter_app.
  rewrite (filter_none _ selected) by (intros x Hx Hnot; by apply Hnot).
  rewrite (filter_all _ k); [done|].
  intros x Hx Hsel. by apply (Hdisj x).
Qed.

Lemma unused_length (selected pool : list loc) :
  NoDup pool → selected ⊆+ pool →
  length (filter (λ q, q ∉ selected) pool) = length pool - length selected.
Proof.
  intros Hnd Hsub.
  pose proof (Permutation_length (unused_Permutation selected pool Hnd Hsub)) as Hlen.
  rewrite length_app in Hlen. lia.
Qed.

(** ** The questions of the three categories *)

Lemma grouped_categoryDistribution h pool :
  grouped h pool categoryDistribution =
    [ (envisioning, Dist.mk 0.45 0.50 (categoryPool h envisioning pool));
      (architecture, Dist.mk 0.35 0.40 (categoryPool h architecture pool));
      (implementation, Dist.mk 0.15 0.20 (categoryPool h implementation pool)) ].
Proof. reflexivity. Qed.

Lemma categoryPool_elem_of h name pool q :
  q ∈ categoryPool h name pool ↔ category <$> h !! q = Some name ∧ q ∈ pool.
Proof.
  unfold categoryPool.
  apply (list_elem_of_filter (λ q, category <$> h !! q = Some name)).
Qed.

Lemma categoryPool_disjoint h name1 name2 pool q :
  name1 ≠ name2 → q ∈ categoryPool h name1 pool → q ∉ categoryPool h name2 pool.
Proof.
  rewrite !categoryPool_elem_of. intros Hne [H1 _] [H2 _]. congruence.
Qed.

Lemma official_submseteq h pool :
  NoDup pool →
  categoryPool h envisioning pool ++ categoryPool h architecture pool
    ++ categoryPool h implementation pool ⊆+ pool.
Proof.
  intros Hnd. apply NoDup_submseteq.
  - rewrite !NoDup_app. repeat split; try (by apply NoDup_filter).
    + intros q H1 [H2|H2]%elem_of_app; revert H2;
        by apply (categoryPool_disjoint h envisioning).
    + intros q H1. by apply (categoryPool_disjoint h architecture).
  - intros q. rewrite !elem_of_app, !categoryPool_elem_of. tauto.
Qed.

Section Selection.
Variable random : nat → unit_frac.

(** ** Grouping *)

(** A category that names no inherited member is pushed to its entry, or
    skipped when it has none. *)
Lemma pushQuestion_ordinary category q dist :
  inherited category = false →
  pushQuestion category q dist =
    Some ((λ '(name, data),
             if String.eqb name category
             then (name, Dist.mk (Dist.min data) (Dist.max data)
                           (Dist.questions data ++ [q]))
             else (name, data)) <$> dist).
Proof.
  intros Hordinary. unfold pushQuestion. case_bool_decide as Hin; [done|].
  rewrite Hordinary. f_equal. rewrite <-(list_fmap_id dist) at 1.
  apply list_fmap_ext. intros i [name data] Hi. simpl.
  destruct (String.eqb_spec name category) as [->|Hne]; [|done].
  destruct Hin. apply list_elem_of_fmap. exists (category, data).
  split; [done|]. by apply list_elem_of_lookup_2 in Hi.
Qed.

(** A category that names an inherited member and is not a key of the
    distribution: [TypeError]. *)
Lemma pushQuestion_inherited category q dist :
  inherited category = true → category ∉ dist.*1 →
  pushQuestion category q dist = None.
Proof.
  intros Hinherited Hin. unfold pushQuestion.
  rewrite bool_decide_eq_false_2 by done. by rewrite Hinherited.
Qed.

Lemma pushQuestion_grouped h q question dist rest :
  h !! q = Some question → inherited (category question) = false →
  grouped h rest <$> pushQuestion (category question) q dist
    = Some (grouped h (q :: rest) dist).
Proof.
  intros Hq Hordinary. rewrite pushQuestion_ordinary by done. simpl. f_equal.
  unfold grouped. rewrite <-list_fmap_compose.
  apply list_fmap_ext. intros i [name [lo hi qs]] _. simpl.
  unfold categoryPool. rewrite filter_cons, Hq. simpl.
  destruct (String.eqb_spec name (category question)) as [->|Hne]; simpl.
  - rewrite decide_True by done. by rewrite <-app_assoc.
  - rewrite decide_False; [done|]. intros [= Heq]. by destruct Hne.
Qed.

Lemma groupQuestions_grouped h pool dist :
  allocated h pool → ordinaryCategories h pool →
  groupQuestions h pool dist = Some (grouped h pool dist).
Proof.
  unfold allocated. intros Hall. revert dist.
  induction Hall as [|q pool [question Hq] Hall IH]; intros dist Hordinary; simpl.
  - f_equal. unfold grouped. rewrite <-(list_fmap_id dist) at 1.
    apply list_fmap_ext. intros i [name [lo hi qs]] _. simpl.
    unfold categoryPool. by rewrite filter_nil, app_nil_r.
  - rewrite Hq. simpl.
    pose proof (pushQuestion_grouped h q question dist pool Hq) as Hpush.
    destruct (pushQuestion (category question) q dist) as [dist'|].
    + simpl. rewrite IH by (by apply Forall_cons in Hordinary as [_ ?]).
      apply Hpush. apply (ordinaryCategories_lookup h (q :: pool) q); [done| |done].
      apply elem_of_cons. by left.
    + exfalso. enough (None = Some (grouped h (q :: pool) dist)) by done.
      apply Hpush. apply (ordinaryCategories_lookup h (q :: pool) q); [done| |done].
      apply elem_of_cons. by left.
Qed.

(** A question whose category names an inherited member makes the
    grouping, and the selection, throw. *)
Lemma groupQuestions_names h pool dist dist' :
  groupQuestions h pool dist = Some dist' → dist'.*1 = dist.*1.
Proof.
  revert dist. induction pool as [|q pool IH]; intros dist; simpl; [by intros [= ->]|].
  destruct (h !! q) as [question|]; [|done]. simpl.
  unfold pushQuestion. case_bool_decide as Hin.
  - simpl. intros Hgroup. rewrite (IH _ Hgroup). rewrite <-list_fmap_compose.
    apply list_fmap_ext. intros i [name data] _. simpl.
    by destruct (String.eqb name (category question)).
  - destruct (inherited (category question)); [done|]. apply IH.
Qed.

Lemma groupQuestions_inherited h pool dist q question :
  q ∈ pool → h !! q = Some question →
  inherited (category question) = true → category question ∉ dist.*1 →
  groupQuestions h pool dist = None.
Proof.
  intros Hq Hlook Hinherited Hin. revert dist Hin.
  induction pool as [|q' pool IH]; intros dist Hin; [by apply elem_of_nil in Hq|].
  simpl. destruct (h !! q') as [question'|] eqn:Hlook'; [|done]. simpl.
  destruct (pushQuestion (category question') q' dist) as [dist'|] eqn:Hpush; [|done].
  simpl. apply elem_of_cons in Hq as [->|Hq].
  - rewrite Hlook in Hlook'. injection Hlook' as <-.
    by rewrite pushQuestion_inherited in Hpush.
  - apply IH; [done|].
    assert (groupQuestions h [q'] dist = Some dist') as Hone
      by (simpl; rewrite Hlook'; simpl; by rewrite Hpush).
    by rewrite (groupQuestions_names _ _ _ _ Hone).
Qed.

Lemma selectTestQuestions_inherited h pool targetTotal k q question :
  q ∈ pool → h !! q = Some question → inherited (category question) = true →
  selectTestQuestions random h pool targetTotal k = None.
Proof.
  intros Hq Hlook Hinherited. unfold selectTestQuestions.
  rewrite (groupQuestions_inherited h pool _ q question); [done..|].
  intros Hin. revert Hinherited.
  apply list_elem_of_fmap in Hin as ([name data] & -> & Hin). simpl.
  unfold categoryDistribution in Hin.
  repeat (apply elem_of_cons in Hin as [[= -> _]|Hin]; [by vm_compute|]).
  by apply elem_of_nil in Hin.
Qed.

(** ** The per-category pass *)

Lemma selectPerCategory_picks targetTotal entries acc k :
  ∃ picks,
    (selectPerCategory random targetTotal entries acc k).1 = acc ++ concat picks ∧
    Forall2 (λ pick entry, pick_of targetTotal entry.2 pick) picks entries.
Proof.
  revert acc k. induction entries as [|[name data] entries IH]; intros acc k; simpl.
  - exists []. by rewrite app_nil_r.
  - destruct (shuffle random (Dist.questions data) k) as [shuffled k'] eqn:Hshuffle.
    destruct (IH (acc ++ sliceTarget shuffled (targetCount targetTotal data)) k')
      as (picks & -> & Hpicks).
    exists (sliceTarget shuffled (targetCount targetTotal data) :: picks).
    split; [by rewrite <-app_assoc|].
    constructor; [|done]. exists shuffled. split; [|done].
    change shuffled with (shuffled, k').1. rewrite <-Hshuffle.
    apply UtilsFacts.shuffle_Permutation.
Qed.

(** The picks of the three rounds. *)
Lemma picks_three targetTotal h pool picks :
  Forall2 (λ pick entry, pick_of targetTotal entry.2 pick) picks
    (grouped h pool categoryDistribution) →
  ∃ pick1 pick2 pick3,
    picks = [pick1; pick2; pick3] ∧
    pick_of targetTotal (Dist.mk 0.45 0.50 (categoryPool h envisioning pool)) pick1 ∧
    pick_of targetTotal (Dist.mk 0.35 0.40 (categoryPool h architecture pool)) pick2 ∧
    pick_of targetTotal (Dist.mk 0.15 0.20 (categoryPool h implementation pool)) pick3.
Proof.
  rewrite grouped_categoryDistribution.
  intros (pick1 & ? & H1 & (pick2 & ? & H2 & (pick3 & ? & H3 & ->%Forall2_nil_inv_r
    & ->)%Forall2_cons_inv_r & ->)%Forall2_cons_inv_r & ->)%Forall2_cons_inv_r.
  by exists pick1, pick2, pick3.
Qed.

Lemma picks_submseteq targetTotal h pool picks :
  NoDup pool →
  Forall2 (λ pick entry, pick_of targetTotal entry.2 pick) picks
    (grouped h pool categoryDistribution) →
  concat picks ⊆+ pool.
Proof.
  intros Hnd (pick1 & pick2 & pick3 & -> & H1 & H2 & H3)%picks_three.
  simpl. rewrite app_nil_r. rewrite <-(official_submseteq h pool Hnd).
  repeat apply submseteq_app.
  - apply (pick_of_submseteq _ _ _ H1).
  - apply (pick_of_submseteq _ _ _ H2).
  - apply (pick_of_submseteq _ _ _ H3).
Qed.

(** ** The whole selection *)

Lemma selectTestQuestions_spec h pool targetTotal k :
  NoDup pool → allocated h pool → ordinaryCategories h pool →
  ∃ picks selected k',
    Forall2 (λ pick entry, pick_of targetTotal entry.2 pick) picks
      (grouped h pool categoryDistribution) ∧
    selectTestQuestions random h pool targetTotal k = Some (selected, k') ∧
    length selected = targetTotal `min` length pool ∧
    NoDup selected ∧
    selected ⊆+ pool ∧
    (targetTotal ≤ length (concat picks) → selected ⊆+ concat picks).
Proof.
  intros Hnd Halloc Hordinary. unfold selectTestQuestions.
  rewrite (groupQuestions_grouped h pool _ Halloc Hordinary). cbn [mbind option_bind].
  destruct (selectPerCategory_picks targetTotal (grouped h pool categoryDistribution) [] k)
    as (picks & Hsel & Hpicks).
  destruct (selectPerCategory random targetTotal (grouped h pool categoryDistribution) [] k)
    as [selected1 k1]. simpl in Hsel. subst selected1.
  pose proof (picks_submseteq targetTotal h pool picks Hnd Hpicks) as Hsub1.
  pose proof (submseteq_NoDup _ _ Hsub1 Hnd) as Hnd1.
  pose proof (submseteq_length _ _ Hsub1) as Hlen1.
  exists picks.
  destruct (Nat.ltb_spec (length (concat picks)) targetTotal) as [Hshort|Hfull].
  - (* the fill pass *)
    set (unused := filter (λ q, q ∉ concat picks) pool).
    pose proof (UtilsFacts.shuffle_Permutation random unused k1) as Hperm.
    destruct (shuffle random unused k1) as [shuffled k2]. simpl in Hperm.
    set (additional := take (targetTotal - length (concat picks)) shuffled).
    assert (Hadd : additional ⊆+ unused).
    { rewrite <-Hperm. apply sublist_submseteq, sublist_take. }
    assert (Hnd2 : NoDup (concat picks ++ additional)).
    { apply NoDup_app. split; [done|]. split.
      - intros q Hq Hq'. apply (elem_of_submseteq _ _ _ Hq') in Hadd.
        apply list_elem_of_filter in Hadd as [Hnot _]. by apply Hnot.
      - apply (submseteq_NoDup _ unused); [done|]. by apply NoDup_filter. }
    assert (Hsub2 : concat picks ++ additional ⊆+ pool).
    { rewrite <-(unused_Permutation (concat picks) pool Hnd Hsub1).
      by apply submseteq_app. }
    assert (Hlen2 : length (concat picks ++ additional) = targetTotal `min` length pool).
    { rewrite length_app. unfold additional.
      rewrite length_take, (Permutation_length Hperm).
      unfold unused. rewrite (unused_length _ _ Hnd Hsub1). lia. }
    pose proof (UtilsFacts.shuffle_Permutation random (concat picks ++ additional) k2)
      as Hperm3.
    destruct (shuffle random (concat picks ++ additional) k2) as [shuffled3 k3].
    simpl in Hperm3.
    assert (Hfinal : take targetTotal shuffled3 ⊆+ concat picks ++ additional).
    { rewrite <-Hperm3. apply sublist_submseteq, sublist_take. }
    exists (take targetTotal shuffled3), k3. split; [done|]. split; [done|].
    split; [|split; [|split]].
    + rewrite length_take, (Permutation_length Hperm3), Hlen2. lia.
    + by apply (submseteq_NoDup _ _ Hfinal).
    + by rewrite Hfinal.
    + lia.
  - (* enough questions after the per-category pass *)
    pose proof (UtilsFacts.shuffle_Permutation random (concat picks) k1) as Hperm3.
    destruct (shuffle random (concat picks) k1) as [shuffled3 k3]. simpl in Hperm3.
    assert (Hfinal : take targetTotal shuffled3 ⊆+ concat picks).
    { rewrite <-Hperm3. apply sublist_submseteq, sublist_take. }
    exists (take targetTotal shuffled3), k3. split; [done|]. split; [done|].
    split; [|split; [|split]].
    + rewrite length_take, (Permutation_length Hperm3). lia.
    + by apply (submseteq_NoDup _ _ Hfinal).
    + by rewrite Hfinal.
    + done.
Qed.

(** ** Counting by category *)

Lemma countCategory_app h name l1 l2 :
  countCategory h name (l1 ++ l2) = countCategory h name l1 + countCategory h name l2.
Proof. unfold countCategory, categoryPool. by rewrite filter_app, length_app. Qed.

Lemma countCategory_submseteq h name l1 l2 :
  l1 ⊆+ l2 → countCategory h name l1 ≤ countCategory h name l2.
Proof.
  intros [k Hk]%submseteq_Permutation. unfold countCategory, categoryPool.
  rewrite Hk, filter_app, length_app. lia.
Qed.

Lemma pick_category h name pool pick q :
  pick ⊆+ categoryPool h name pool → q ∈ pick → category <$> h !! q = Some name.
Proof.
  intros Hsub Hq. pose proof (elem_of_submseteq _ _ _ Hq Hsub) as Hin.
  by apply categoryPool_elem_of in Hin as [? _].
Qed.

(** A pick from the questions of one category only counts for that
    category. *)
Lemma countCategory_pick h name name' pool pick :
  pick ⊆+ categoryPool h name pool →
  countCategory h name' pick = if decide (name = name') then length pick else 0.
Proof.
  intros Hsub. unfold countCategory.
  assert (∀ q, q ∈ pick → category <$> h !! q = Some name) as Hcat.
  { intros q Hq. by apply (pick_category h name pool pick). }
  case_decide as Hname.
  - subst name'. unfold categoryPool. by rewrite filter_all.
  - unfold categoryPool. rewrite filter_none; [done|].
    intros q Hq Hq'. rewrite (Hcat q Hq) in Hq'. congruence.
Qed.

(** Three targets that are met leave no room for a fourth category. *)
Lemma countCategory_official h pool pick1 pick2 pick3 selected :
  pick1 ⊆+ categoryPool h envisioning pool →
  pick2 ⊆+ categoryPool h architecture pool →
  pick3 ⊆+ categoryPool h implementation pool →
  selected ⊆+ pick1 ++ pick2 ++ pick3 →
  countCategory h envisioning selected ≤ length pick1 ∧
  countCategory h architecture selected ≤ length pick2 ∧
  countCategory h implementation selected ≤ length pick3 ∧
  countCategory h envisioning selected + countCategory h architecture selected
    + countCategory h implementation selected = length selected.
Proof.
  intros H1 H2 H3 Hsel.
  pose proof (countCategory_submseteq h envisioning _ _ Hsel) as Hc1.
  pose proof (countCategory_submseteq h architecture _ _ Hsel) as Hc2.
  pose proof (countCategory_submseteq h implementation _ _ Hsel) as Hc3.
  rewrite !countCategory_app in Hc1, Hc2, Hc3.
  rewrite (countCategory_pick h _ _ _ _ H1), (countCategory_pick h _ _ _ _ H2),
    (countCategory_pick h _ _ _ _ H3) in Hc1.
  rewrite (countCategory_pick h _ _ _ _ H1), (countCategory_pick h _ _ _ _ H2),
    (countCategory_pick h _ _ _ _ H3) in Hc2.
  rewrite (countCategory_pick h _ _ _ _ H1), (countCategory_pick h _ _ _ _ H2),
    (countCategory_pick h _ _ _ _ H3) in Hc3.
  simpl in Hc1, Hc2, Hc3.
  repeat split; try lia.
  assert (∀ q, q ∈ selected →
            category <$> h !! q = Some envisioning ∨
            category <$> h !! q = Some architecture ∨
            category <$> h !! q = Some implementation) as Hofficial.
  { intros q Hq. apply (elem_of_submseteq _ _ _ Hq) in Hsel.
    rewrite !elem_of_app in Hsel. destruct Hsel as [Hq1|[Hq2|Hq3]].
    - left. by apply (pick_category h _ pool pick1).
    - right; left. by apply (pick_category h _ pool pick2).
    - right; right. by apply (pick_category h _ pool pick3). }
  clear -Hofficial. unfold countCategory, categoryPool.
  induction selected as [|q selected IH]; [done|].
  rewrite !filter_cons.
  specialize (IH (λ x Hx, Hofficial x (list_elem_of_further _ _ _ Hx))).
  unfold envisioning, architecture, implementation in *.
  destruct (Hofficial q) as [Hq|[Hq|Hq]]; [by left|..];
    rewrite Hq; repeat case_decide; simplify_eq; simpl; lia.
Qed.

(** C2 (amended): a 50-question exam drawn from a pool of distinct
    questions, none of which has a category that names a member of
    [Object.prototype].  The selection returns [min(50, pool.length)] questions, all
    of them from the pool and none twice; so it returns exactly 50 exactly
    when the pool has at least 50 questions.  When the pool holds at least
    24 envisioning, 19 architecture and 9 implementation questions (the
    rounded targets [50 * midpoint]), the 50 questions are all from the
    three official categories, with 22 to 24 on envisioning, 17 to 19 on
    architecture and 7 to 9 on implementation: the targets add up to 52 and
    the final shuffle drops two of them. *)
Theorem selectTestQuestions_exam_50 h pool k :
  NoDup pool → allocated h pool → ordinaryCategories h pool →
  ∃ selected k',
    selectTestQuestions random h pool 50 k = Some (selected, k') ∧
    length selected = 50 `min` length pool ∧
    NoDup selected ∧
    selected ⊆+ pool ∧
    (24 ≤ countCategory h envisioning pool →
     19 ≤ countCategory h architecture pool →
     9 ≤ countCategory h implementation pool →
     length selected = 50 ∧
     countCategory h envisioning selected + countCategory h architecture selected
       + countCategory h implementation selected = 50 ∧
     22 ≤ countCategory h envisioning selected ≤ 24 ∧
     17 ≤ countCategory h architecture selected ≤ 19 ∧
     7 ≤ countCategory h implementation selected ≤ 9).
Proof.
  intros Hnd Halloc Hordinary.
  destruct (selectTestQuestions_spec h pool 50 k Hnd Halloc Hordinary)
    as (picks & selected & k' & Hpicks & Hsel & Hlen & Hnd' & Hsub & Hfull).
  exists selected, k'. repeat (split; [done|]).
  intros Hn1 Hn2 Hn3. unfold countCategory in Hn1, Hn2, Hn3.
  apply picks_three in Hpicks as (pick1 & pick2 & pick3 & -> & H1 & H2 & H3).
  destruct (targetCount_50 (categoryPool h envisioning pool)
              (categoryPool h architecture pool) (categoryPool h implementation pool))
    as (Ht1 & Ht2 & Ht3).
  pose proof (pick_of_length 50 _ pick1 24 Ht1 H1) as Hl1.
  pose proof (pick_of_length 50 _ pick2 19 Ht2 H2) as Hl2.
  pose proof (pick_of_length 50 _ pick3 9 Ht3 H3) as Hl3.
  cbn [Dist.questions] in Hl1, Hl2, Hl3. cbn [concat] in Hfull.
  rewrite app_nil_r in Hfull.
  rewrite !length_app in Hfull.
  destruct (countCategory_official h pool pick1 pick2 pick3 selected)
    as (Hc1 & Hc2 & Hc3 & Hsum).
  { apply (pick_of_submseteq _ _ _ H1). }
  { apply (pick_of_submseteq _ _ _ H2). }
  { apply (pick_of_submseteq _ _ _ H3). }
  { apply Hfull. lia. }
  pose proof (submseteq_length _ _ (official_submseteq h pool Hnd)) as Hpool.
  rewrite !length_app in Hpool. lia.
Qed.

(** Without enough questions there is nothing to reach 50 with: a pool of
    distinct questions is returned whole when it has fewer than 50. *)
Lemma selectTestQuestions_short_pool h pool k :
  NoDup pool → allocated h pool → ordinaryCategories h pool → length pool < 50 →
  ∃ selected k',
    selectTestQuestions random h pool 50 k = Some (selected, k') ∧ selected ≡ₚ pool.
Proof.
  intros Hnd Halloc Hordinary Hshort.
  destruct (selectTestQuestions_spec h pool 50 k Hnd Halloc Hordinary)
    as (picks & selected & k' & _ & Hsel & Hlen & _ & Hsub & _).
  exists selected, k'. split; [done|].
  apply submseteq_length_Permutation; [done|lia].
Qed.

End Selection.

Lemma examBank_allocated : allocated examBank (seq 0 60).
Proof. apply (bool_decide_unpack _). vm_compute. exact I. Qed.

Lemma bank_allocated answers : allocated (bank answers) [0; 1; 2].
Proof. repeat constructor; eexists; reflexivity. Qed.

Lemma examBank_ordinaryCategories : ordinaryCategories examBank (seq 0 60).
Proof. apply (bool_decide_unpack _). vm_compute. exact I. Qed.

Lemma bank_ordinaryCategories answers : ordinaryCategories (bank answers) [0; 1; 2].
Proof. repeat constructor; by vm_compute. Qed.

Lemma bank_ordinaryIds answers : ordinaryIds (bank answers) [0; 1; 2].
Proof. repeat constructor; by vm_compute. Qed.

Lemma selectTestQuestions_exam_50_witness :
  ∃ selected k',
    selectTestQuestions zeros examBank (seq 0 60) 50 0 = Some (selected, k') ∧
    length selected = 50 ∧
    NoDup selected ∧
    selected ⊆+ seq 0 60 ∧
    countCategory examBank envisioning selected
      + countCategory examBank architecture selected
      + countCategory examBank implementation selected = 50 ∧
    22 ≤ countCategory examBank envisioning selected ≤ 24 ∧
    17 ≤ countCategory examBank architecture selected ≤ 19 ∧
    7 ≤ countCategory examBank implementation selected ≤ 9.
Proof.
  destruct (selectTestQuestions_exam_50 zeros examBank (seq 0 60) 0)
    as (selected & k' & Hsel & _ & Hnd & Hsub & Hbig).
  - apply NoDup_seq.
  - exact examBank_allocated.
  - exact examBank_ordinaryCategories.
  - exists selected, k'. split; [exact Hsel|].
    destruct Hbig as (Hlen & Hsum & H1 & H2 & H3).
    + vm_compute. lia.
    + vm_compute. lia.
    + vm_compute. lia.
    + repeat split; assumption || apply H1 || apply H2 || apply H3.
Defined.

(** The bounds are reached: with this random source the exam has 24, 19
    and 7 questions of the three categories. *)
Lemma selectTestQuestions_exam_example :
  ∃ selected k',
    selectTestQuestions (λ n, UnitFrac (n * 7 + 3) (n + 5)) examBank (seq 0 60) 50 0
      = Some (selected, k') ∧
    countCategory examBank envisioning selected = 24 ∧
    countCategory examBank architecture selected = 19 ∧
    countCategory examBank implementation selected = 7.
Proof. eexists _, _. split; [by vm_compute|]. repeat split; by vm_compute. Qed.

(** C2 as stated fails: the pool of the small bank has a question in each
    of the three official categories, and a 50-question exam drawn from it
    has 3 questions, whatever the random source does. *)
Lemma selectTestQuestions_not_always_50 :
  ¬ (∀ (random : nat → unit_frac) (h : gmap loc Question) (pool : list loc) (k : nat),
       NoDup pool → allocated h pool →
       0 < countCategory h envisioning pool →
       0 < countCategory h architecture pool →
       0 < countCategory h implementation pool →
       ∃ selected k',
         selectTestQuestions random h pool 50 k = Some (selected, k') ∧
         length selected = 50).
Proof.
  intros Hclaim.
  destruct (Hclaim zeros (bank ["A"; "C"]) [0; 1; 2] 0) as (selected & k' & Hsel & Hlen).
  - apply (bool_decide_unpack _). vm_compute. exact I.
  - apply bank_allocated.
  - vm_compute. lia.
  - vm_compute. lia.
  - vm_compute. lia.
  - vm_compute in Hsel. injection Hsel as <- _. discriminate Hlen.
Qed.

(** The same pool under any random source. *)
Lemma selectTestQuestions_small_bank random k :
  ∃ selected k',
    selectTestQuestions random (bank ["A"; "C"]) [0; 1; 2] 50 k = Some (selected, k') ∧
    selected ≡ₚ [0; 1; 2] ∧ length selected = 3.
Proof.
  destruct (selectTestQuestions_short_pool random (bank ["A"; "C"]) [0; 1; 2] k)
    as (selected & k' & Hsel & Hperm).
  - apply (bool_decide_unpack _). vm_compute. exact I.
  - apply bank_allocated.
  - apply bank_ordinaryCategories.
  - simpl. lia.
  - exists selected, k'. split; [done|]. split; [done|]. by rewrite Hperm.
Qed.

End SelectionFacts.

(* ===================================================================== *)
(** * Properties of the session: [startQuiz] and [checkAnswer] *)
(* ===================================================================== *)

Module SessionFacts.
Import JS Utils QuizApp Spec DictionaryFacts.

(** ** Sorting *)

Lemma sort_Permutation arr : sort arr ≡ₚ arr.
Proof. apply merge_sort_Permutation. Qed.



Lemma sort_nil : sort [] = [].
Proof. reflexivity. Qed.


Lemma sort_NoDup arr : NoDup arr → NoDup (sort arr).
Proof. intros H. by rewrite sort_Permutation. Qed.


Section Session.
Variable random : nat → unit_frac.
Variable clock : nat → Timestamp.

(** ** What each step leaves alone *)




(** The options of a question can be rendered when its id names no
    inherited member, when it is single-choice, and when something is stored
    for it. *)
Lemma optionsRendered_ordinary question w :
  inherited (id question) = false → optionsRendered question w = true.
Proof.
  intros Hordinary. unfold optionsRendered. rewrite get_ordinary by done.
  by destruct (userAnswers w !! id question).
Qed.

Lemma optionsRendered_singleChoice question w :
  isMultipleChoice question = false → optionsRendered question w = true.
Proof.
  intros Hsingle. unfold optionsRendered. rewrite Hsingle.
  by destruct (get (userAnswers w) (id question)).
Qed.

Lemma optionsRendered_stored question w :
  is_Some (userAnswers w !! id question) → optionsRendered question w = true.
Proof.
  intros [answer Hlook]. unfold optionsRendered. by rewrite (get_Own _ _ _ Hlook).
Qed.


(** [render] while the answer is hidden only reads, where the options of
    the current question can be rendered. *)
Lemma render_hidden w :
  showAnswer w = false →
  (∀ r, questions w !! currentIndex w = Some r →
        ∃ question, heap w !! r = Some question ∧ optionsRendered question w = true) →
  render w = Some w.
Proof.
  intros Hshow Halloc. unfold render.
  destruct (quizStarted w); [|done]. simpl.
  destruct (questions w !! currentIndex w) as [r|]; [|done].
  destruct (Halloc r eq_refl) as (question & -> & Hoptions). simpl.
  rewrite Hoptions. simpl. by rewrite Hshow.
Qed.

(** [selectAnswer] on a multiple-choice question toggles the letter, and
    the stored array stays free of repetitions. *)
Lemma selectAnswer_toggles w r question optionLetter stored :
  showAnswer w = false →
  questions w !! currentIndex w = Some r →
  heap w !! r = Some question →
  isMultipleChoice question = true →
  inherited (id question) = false →
  storedLetters (userAnswers w !! id question) stored →
  NoDup stored →
  ∃ w' stored',
    selectAnswer optionLetter w = Some w' ∧
    userAnswers w' !! id question = Some (Letters stored') ∧
    NoDup stored' ∧
    (∀ x, x ∈ stored' ↔
          (x ∈ stored ∧ x ≠ optionLetter) ∨ (x = optionLetter ∧ optionLetter ∉ stored)).
Proof.
  intros Hshow Hr Hq Hmulti Hordinary Hstored Hnd. unfold selectAnswer.
  rewrite Hshow, Hr. simpl. rewrite Hq. simpl. rewrite Hmulti.
  rewrite get_ordinary by done.
  unfold storedLetters in Hstored.
  destruct (userAnswers w !! id question) as [[[|c s]|currentAnswers]|] eqn:Hlook;
    try done; subst stored; simpl.
  - rewrite render_hidden;
      [|done|simpl; intros ? [= <-]%(eq_trans (eq_sym Hr));
             eauto using optionsRendered_ordinary].
    eexists _, _. split; [done|]. simpl. rewrite lookup_insert_eq.
    split; [done|]. split; [apply NoDup_singleton|].
    intros x. rewrite list_elem_of_singleton.
    pose proof (not_elem_of_nil x). pose proof (not_elem_of_nil optionLetter). tauto.
  - case_bool_decide as Hin; simpl.
    + rewrite render_hidden;
      [|done|simpl; intros ? [= <-]%(eq_trans (eq_sym Hr));
             eauto using optionsRendered_ordinary].
      eexists _, _. split; [done|]. simpl. rewrite lookup_insert_eq.
      split; [done|]. split; [by apply NoDup_filter|].
      intros x. rewrite list_elem_of_filter. tauto.
    + rewrite render_hidden;
      [|done|simpl; intros ? [= <-]%(eq_trans (eq_sym Hr));
             eauto using optionsRendered_ordinary].
      eexists _, _. split; [done|]. simpl. rewrite lookup_insert_eq.
      split; [done|]. split.
      * apply NoDup_app. split; [done|]. split; [|apply NoDup_singleton].
        intros x Hx ->%list_elem_of_singleton. done.
      * intros x. rewrite elem_of_app, list_elem_of_singleton.
        destruct (decide (x = optionLetter)) as [->|]; tauto.
  - rewrite render_hidden;
      [|done|simpl; intros ? [= <-]%(eq_trans (eq_sym Hr));
             eauto using optionsRendered_ordinary].
    eexists _, _. split; [done|]. simpl. rewrite lookup_insert_eq.
    split; [done|]. split; [apply NoDup_singleton|].
    intros x. rewrite list_elem_of_singleton.
    pose proof (not_elem_of_nil x). pose proof (not_elem_of_nil optionLetter). tauto.
Qed.






(** [startQuiz] on an empty pool. *)
Lemma filterByCategory_none h categories qs :
  (∀ r, r ∈ qs → ∃ question, h !! r = Some question ∧ category question ∉ categories) →
  filterByCategory h categories qs = Some [].
Proof.
  induction qs as [|q qs IH]; intros Hall; simpl; [done|].
  destruct (Hall q) as (question & -> & Hnot); [by left|]. simpl.
  rewrite IH by (intros r Hr; apply Hall; by right). simpl.
  by rewrite bool_decide_eq_false_2.
Qed.

(** C3: when the category filter leaves no question, [startQuiz] reports
    'No questions available with selected filters' and returns without
    creating a session: [questions], [currentIndex], [userAnswers], [score],
    [quizResults], [quizStarted] and [testStartTime] keep their values (so do
    all the other fields; only the alert is new). *)
Theorem startQuiz_empty_pool w :
  pool_empty w →
  ∃ w',
    startQuiz random clock w = Some w' ∧
    alerts w' = alerts w ++ ["No questions available with selected filters"] ∧
    questions w' = questions w ∧
    currentIndex w' = currentIndex w ∧
    userAnswers w' = userAnswers w ∧
    score w' = score w ∧
    quizResults w' = quizResults w ∧
    quizStarted w' = quizStarted w ∧
    testStartTime w' = testStartTime w ∧
    w' = set_alerts (alerts w') w.
Proof.
  intros Hempty. unfold startQuiz.
  assert ((if 0 <? size (selectedCategories w)
           then filterByCategory (heap w) (selectedCategories w) (allQuestions w)
           else Some (allQuestions w)) = Some []) as ->.
  { destruct (0 <? size (selectedCategories w)) eqn:Hsize.
    - apply filterByCategory_none. intros r Hr. by destruct (Hempty r Hr).
    - apply Nat.ltb_ge in Hsize.
      destruct (allQuestions w) as [|r rest] eqn:Hall; [done|].
      destruct (Hempty r) as [Hne _]; [rewrite Hall; by left|]. lia. }
  simpl. eexists. split; [reflexivity|]. done.
Qed.

End Session.





Lemma startQuiz_empty_pool_witness :
  ∃ w',
    startQuiz zeros ticks emptyCategoryApp = Some w' ∧
    alerts w' = alerts emptyCategoryApp ++ ["No questions available with selected filters"] ∧
    questions w' = questions emptyCategoryApp ∧
    currentIndex w' = currentIndex emptyCategoryApp ∧
    userAnswers w' = userAnswers emptyCategoryApp ∧
    score w' = score emptyCategoryApp ∧
    quizResults w' = quizResults emptyCategoryApp ∧
    quizStarted w' = quizStarted emptyCategoryApp ∧
    testStartTime w' = testStartTime emptyCategoryApp ∧
    w' = set_alerts (alerts w') emptyCategoryApp.
Proof.
  apply (startQuiz_empty_pool zeros ticks emptyCategoryApp).
  intros r Hr. split; [by vm_compute|].
  change (r ∈ [0; 1; 2]) in Hr.
  rewrite !elem_of_cons, elem_of_nil in Hr. destruct Hr as [->|[->|[->|[]]]].
  - eexists. split; [by vm_compute|]. by vm_compute.
  - eexists. split; [by vm_compute|]. by vm_compute.
  - eexists. split; [by vm_compute|]. by vm_compute.
Defined.

(** The scenario of C7 run to the end: with correct answers A, C the
    answer C, A is accepted. *)
Lemma checkAnswer_scenario :
  ∃ w w',
    answeredCA ["A"; "C"] = Some w ∧
    userAnswers w !! "q1" = Some (Letters ["C"; "A"]) ∧
    checkAnswer ticks w = Some w' ∧
    quizResults w' = [true] ∧ score w' = 1.
Proof.
  eexists _, _. split; [by vm_compute|].
  split; [by vm_compute|]. split; [by vm_compute|]. split; by vm_compute.
Qed.

(** C9: question records are not left alone by [checkAnswer].  On the
    multiple-choice question whose correct answers are listed as C, A, one
    call (here with the answer C, A) returns normally and leaves the
    question object of the bank, still referenced from [allQuestions], with
    its correct answers in the order A, C: [sort] works in place. *)
Theorem checkAnswer_reorders_correctAnswers :
  ∃ w w' question',
    answeredCA ["C"; "A"] = Some w ∧
    heap w !! 0 = Some (twoOf ["C"; "A"]) ∧
    0 ∈ allQuestions w ∧
    checkAnswer ticks w = Some w' ∧
    allQuestions w' = allQuestions w ∧
    heap w' !! 0 = Some question' ∧
    correctAnswers question' = ["A"; "C"] ∧
    question' ≠ twoOf ["C"; "A"].
Proof.
  eexists _, _, _. split; [by vm_compute|].
  split; [by vm_compute|].
  split; [by apply (bool_decide_unpack _); vm_compute|].
  split; [by vm_compute|]. split; [by vm_compute|]. split; [by vm_compute|].
  split; [by vm_compute|]. discriminate.
Qed.

End SessionFacts.

(* ===================================================================== *)
(** * Properties of the remaining utilities *)
(* ===================================================================== *)

Module HelpersFacts.
Import JS Utils QuizApp Helpers Props DictionaryFacts.

(** ** [arraysEqual] *)

(** X1: [arraysEqual] answers true exactly for two arrays of the same length
    with the same element at every position; in particular it tells apart
    two orders of the same elements. *)
Theorem arraysEqual_same_length_and_elements {A} `{EqDecision A} (arr1 arr2 : list A) :
  (arraysEqual arr1 arr2 = true ↔
   length arr1 = length arr2 ∧ ∀ i, i < length arr1 → arr1 !! i = arr2 !! i) ∧
  (arraysEqual arr1 arr2 = true ↔ arr1 = arr2) ∧
  (∀ x y : A, x ≠ y → arraysEqual [x; y] [y; x] = false).
Proof.
  split; [|split].
  - rewrite UtilsFacts.arraysEqual_spec. split.
    + by intros ->.
    + intros [Hlen Hall]. apply list_eq. intros i.
      destruct (decide (i < length arr1)); [by apply Hall|].
      by rewrite !lookup_ge_None_2 by lia.
  - apply UtilsFacts.arraysEqual_spec.
  - intros x y Hne. apply not_true_is_false.
    rewrite UtilsFacts.arraysEqual_spec. congruence.
Qed.

(** ** [getRandomElements] *)

(** X2: [getRandomElements] returns elements of the array, none more often than
    the array holds it: [count] of them, or the whole array when it is
    shorter; a negative [count] leaves out that many elements instead. *)
Theorem getRandomElements_sample {A} (random : nat → unit_frac) (array : list A)
    (count : Z) (k : nat) :
  (getRandomElements random array count k).1 ⊆+ array ∧
  length (getRandomElements random array count k).1 =
    (if (count <? 0)%Z then length array - Z.to_nat (- count)
     else Z.to_nat count `min` length array) ∧
  (getRandomElements random array count k).2 = k + (length array - 1).
Proof.
  unfold getRandomElements.
  pose proof (UtilsFacts.shuffle_Permutation random array k) as Hperm.
  pose proof (UtilsFacts.shuffle_calls random array k) as Hcalls.
  destruct (shuffle random array k) as [shuffled k']. simpl in *.
  split; [|split; [|done]].
  - rewrite <-Hperm. apply sublist_submseteq.
    unfold slice0. destruct (count <? 0)%Z; apply sublist_take.
  - unfold slice0. destruct (count <? 0)%Z;
      rewrite length_take, (Permutation_length Hperm); lia.
Qed.

(** ** [escapeHtml] *)

Lemma escapeChar_cases m :
  (m = "&"%char ∧ escapeChar m = "&amp;") ∨
  (m = "<"%char ∧ escapeChar m = "&lt;") ∨
  (m = ">"%char ∧ escapeChar m = "&gt;") ∨
  (m = quote ∧ escapeChar m = "&quot;") ∨
  (m = "'"%char ∧ escapeChar m = "&#039;") ∨
  (¬ special m ∧ escapeChar m = String m EmptyString).
Proof.
  unfold escapeChar.
  destruct (Ascii.eqb_spec m "&"%char) as [->|H1]; [by left|].
  destruct (Ascii.eqb_spec m "<"%char) as [->|H2]; [by right; left|].
  destruct (Ascii.eqb_spec m ">"%char) as [->|H3]; [by right; right; left|].
  destruct (Ascii.eqb_spec m quote) as [->|H4]; [by right; right; right; left|].
  destruct (Ascii.eqb_spec m "'"%char) as [->|H5]; [by right; right; right; right; left|].
  do 5 right. split; [|done].
  unfold special. rewrite !elem_of_cons, elem_of_nil. tauto.
Qed.

Lemma append_nil b : String.append EmptyString b = b.
Proof. reflexivity. Qed.

Lemma append_cons m a b : String.append (String m a) b = String m (String.append a b).
Proof. reflexivity. Qed.

Lemma append_assoc a b c :
  String.append a (String.append b c) = String.append (String.append a b) c.
Proof.
  induction a as [|m a IH]; [done|]. by rewrite !append_cons, IH.
Qed.

Lemma chars_append a b : chars (String.append a b) = chars a ++ chars b.
Proof.
  induction a as [|m a IH]; [done|]. rewrite append_cons. simpl. by rewrite <-IH.
Qed.

Lemma escapeHtml_append a b :
  escapeHtml (String.append a b) = String.append (escapeHtml a) (escapeHtml b).
Proof.
  induction a as [|m a IH]; [done|].
  rewrite append_cons. simpl. by rewrite IH, append_assoc.
Qed.

Lemma escapeHtml_markup_free (text : string) :
  Forall (λ m, ¬ markup m) (chars (escapeHtml text)).
Proof.
  induction text as [|m text IH]; simpl; [constructor|].
  rewrite chars_append. apply Forall_app. split; [|done].
  unfold markup.
  destruct (escapeChar_cases m)
    as [[-> ->]|[[-> ->]|[[-> ->]|[[-> ->]|[[-> ->]|[Hplain ->]]]]]];
    simpl; repeat constructor;
    try (rewrite !elem_of_cons, elem_of_nil; unfold quote;
         intros Hin; repeat destruct Hin as [Hin|Hin]; congruence).
  intros Hin. apply Hplain. unfold special. by right.
Qed.

(** X3: [escapeHtml] leaves no character that opens or closes a tag or an
    attribute value: the result holds no [<], no [>], no double quote and no
    apostrophe. *)
Theorem escapeHtml_no_markup (text : string) :
  Forall (λ m, ¬ markup m) (chars (escapeHtml text)).
Proof. apply escapeHtml_markup_free. Qed.

(** An escaped text starts with the characters of its first entity. *)
Lemma escapeHtml_cons m text :
  escapeHtml (String m text) = String.append (escapeChar m) (escapeHtml text).
Proof. reflexivity. Qed.

Lemma escapeHtml_inj (text1 text2 : string) :
  escapeHtml text1 = escapeHtml text2 → text1 = text2.
Proof.
  revert text2. induction text1 as [|m1 text1 IH]; intros [|m2 text2];
    rewrite ?escapeHtml_cons.
  - done.
  - by destruct (escapeChar_cases m2)
      as [[_ ->]|[[_ ->]|[[_ ->]|[[_ ->]|[[_ ->]|[_ ->]]]]]].
  - by destruct (escapeChar_cases m1)
      as [[_ ->]|[[_ ->]|[[_ ->]|[[_ ->]|[[_ ->]|[_ ->]]]]]].
  - destruct (escapeChar_cases m1)
      as [[-> ->]|[[-> ->]|[[-> ->]|[[-> ->]|[[-> ->]|[Hp1 ->]]]]]];
    destruct (escapeChar_cases m2)
      as [[-> ->]|[[-> ->]|[[-> ->]|[[-> ->]|[[-> ->]|[Hp2 ->]]]]]];
    rewrite ?append_cons, ?append_nil; intros Heq; try discriminate Heq;
    try (injection Heq as Heq; f_equal; by apply IH);
    try (injection Heq as <- _; exfalso;
         (apply Hp1 || apply Hp2); unfold special;
         rewrite !elem_of_cons; tauto);
    try (injection Heq as -> _; exfalso;
         (apply Hp1 || apply Hp2); unfold special;
         rewrite !elem_of_cons; tauto).
    injection Heq as -> Heq. f_equal. by apply IH.
Qed.

(** X4: Two different texts are never escaped to the same text. *)
Theorem escapeHtml_injective (text1 text2 : string) :
  escapeHtml text1 = escapeHtml text2 → text1 = text2.
Proof. apply escapeHtml_inj. Qed.

Lemma escapeHtml_injective_witness : "a<b & c" = "a<b & c".
Proof. apply (escapeHtml_injective "a<b & c" "a<b & c"). reflexivity. Defined.

Lemma length_append a b :
  String.length (String.append a b) = String.length a + String.length b.
Proof.
  induction a as [|m a IH]; [done|]. rewrite append_cons. simpl. by rewrite IH.
Qed.

Lemma escapeHtml_length text : String.length text ≤ String.length (escapeHtml text).
Proof.
  induction text as [|m text IH]; [done|].
  rewrite escapeHtml_cons, length_append. simpl.
  destruct (escapeChar_cases m)
    as [[_ ->]|[[_ ->]|[[_ ->]|[[_ ->]|[[_ ->]|[_ ->]]]]]]; simpl; lia.
Qed.

Lemma escapeHtml_plain text :
  Forall (λ m, ¬ special m) (chars text) → escapeHtml text = text.
Proof.
  induction text as [|m text IH]; [done|]. simpl.
  intros [Hm Htext]%Forall_cons. rewrite (IH Htext).
  destruct (escapeChar_cases m)
    as [[-> _]|[[-> _]|[[-> _]|[[-> _]|[[-> _]|[_ ->]]]]]];
    try (exfalso; apply Hm; unfold special; rewrite !elem_of_cons; tauto).
  by rewrite append_cons, append_nil.
Qed.

Lemma escapeHtml_unchanged text :
  escapeHtml text = text → Forall (λ m, ¬ special m) (chars text).
Proof.
  induction text as [|m text IH]; [constructor|].
  rewrite escapeHtml_cons. intros Heq.
  pose proof (f_equal String.length Heq) as Hlen.
  rewrite length_append in Hlen. simpl in Hlen.
  pose proof (escapeHtml_length text) as Hle.
  destruct (escapeChar_cases m)
    as [[_ He]|[[_ He]|[[_ He]|[[_ He]|[[_ He]|[Hplain He]]]]]];
    rewrite He in Heq, Hlen; simpl in Hlen; try lia.
  rewrite append_cons, append_nil in Heq. injection Heq as Heq.
  simpl. constructor; [done|]. by apply IH.
Qed.

(** X5: Escaping is the identity exactly on the texts without any of the five
    characters, and only on those can it be applied twice with the result of
    applying it once: a text with such a character is escaped further each
    time. *)
Theorem escapeHtml_twice (text : string) :
  (escapeHtml text = text ↔ Forall (λ m, ¬ special m) (chars text)) ∧
  (escapeHtml (escapeHtml text) = escapeHtml text ↔
   Forall (λ m, ¬ special m) (chars text)).
Proof.
  split.
  - split; [apply escapeHtml_unchanged|apply escapeHtml_plain].
  - split.
    + intros Heq. by apply escapeHtml_unchanged, escapeHtml_inj.
    + intros Hplain. by rewrite !(escapeHtml_plain text Hplain).
Qed.

(** ** [validateQuestion] *)

Lemma find_none_Forall (letters : list string) (answers : list string) :
  List.find (λ answer, negb (bool_decide (answer ∈ letters))) answers = None ↔
  Forall (λ answer, answer ∈ letters) answers.
Proof.
  induction answers as [|answer answers IH]; simpl.
  - split; [constructor|done].
  - case_bool_decide as Hin; simpl.
    + rewrite IH. split; [by constructor|]. by intros [_ ?]%Forall_cons.
    + split; [done|]. by intros [? _]%Forall_cons.
Qed.

Lemma existsb_blank_false (opts : list AnswerOption) :
  existsb (λ option, String.eqb (letter option) "" || String.eqb (optionText option) "") opts
    = false ↔
  Forall (λ option, letter option ≠ "" ∧ optionText option ≠ "") opts.
Proof.
  induction opts as [|option opts IH]; simpl.
  - split; [constructor|done].
  - rewrite orb_false_iff, IH, Forall_cons, orb_false_iff.
    destruct (String.eqb_spec (letter option) ""), (String.eqb_spec (optionText option) "");
      intuition congruence.
Qed.

Lemma validateQuestion_wellFormed question :
  valid (validateQuestion question) = true ↔ wellFormed question.
Proof.
  unfold validateQuestion, wellFormed.
  destruct (String.eqb_spec (id question) "") as [Hid|Hid];
    [simpl; intuition congruence|].
  destruct (String.eqb_spec (text question) "") as [Htext|Htext];
    [simpl; intuition congruence|].
  destruct (String.eqb_spec (category question) "") as [Hcat|Hcat];
    [simpl; intuition congruence|].
  simpl.
  destruct (Nat.ltb_spec (length (options question)) 2) as [Hopts|Hopts];
    [simpl; intuition (congruence || lia)|].
  destruct (Nat.eqb_spec (length (correctAnswers question)) 0) as [Hans|Hans].
  { simpl. apply nil_length_inv in Hans. intuition congruence. }
  assert (correctAnswers question ≠ []) as Hne
    by (intros Hnil; by rewrite Hnil in Hans).
  destruct (existsb _ (options question)) eqn:Hblank.
  { simpl. split; [done|]. intros (_ & _ & _ & _ & _ & Hall & _).
    apply existsb_blank_false in Hall. congruence. }
  apply existsb_blank_false in Hblank.
  destruct (List.find _ (correctAnswers question)) as [answer|] eqn:Hfind.
  - simpl. split; [done|]. intros (_ & _ & _ & _ & _ & _ & Hall).
    apply find_none_Forall in Hall. congruence.
  - simpl. apply find_none_Forall in Hfind. intuition.
Qed.

(** X6: [validateQuestion] accepts exactly the questions with a non-empty id,
    text and category, at least two options, each with a non-empty letter
    and text, and at least one correct answer, each of them the letter of an
    option; it gives an error message exactly when it rejects. *)
Theorem validateQuestion_accepts_well_formed (question : Question) :
  (valid (validateQuestion question) = true ↔ wellFormed question) ∧
  (valid (validateQuestion question) = false ↔
   is_Some (errors (validateQuestion question))).
Proof.
  split; [apply validateQuestion_wellFormed|].
  unfold validateQuestion.
  destruct (0 <? _); [by split; eauto|].
  destruct (_ <? 2); [by split; eauto|].
  destruct (_ =? 0); [by split; eauto|].
  destruct (existsb _ _); [by split; eauto|].
  destruct (List.find _ _); [by split; eauto|].
  simpl. split; [done|]. by intros [? [=]].
Qed.

(** ** [formatQuestion] *)

Lemma escapeHtml_empty text : escapeHtml text = "" ↔ text = "".
Proof.
  split; [|by intros ->]. intros Heq.
  pose proof (escapeHtml_length text) as Hlen. rewrite Heq in Hlen.
  destruct text; [done|simpl in Hlen; lia].
Qed.

(** X7: The question that [formatQuestion] returns has no markup character in
    its text or in the text of an option; its id, category, correct answers
    and the letters of its options are those of the argument, and
    [validateQuestion] accepts it exactly when it accepts the argument. *)
Theorem formatQuestion_escapes_texts_only (question : Question) :
  Forall (λ m, ¬ markup m) (chars (text (formatQuestion question))) ∧
  Forall (λ option, Forall (λ m, ¬ markup m) (chars (optionText option)))
    (options (formatQuestion question)) ∧
  id (formatQuestion question) = id question ∧
  category (formatQuestion question) = category question ∧
  correctAnswers (formatQuestion question) = correctAnswers question ∧
  letter <$> options (formatQuestion question) = letter <$> options question ∧
  valid (validateQuestion (formatQuestion question)) = valid (validateQuestion question).
Proof.
  split; [apply escapeHtml_markup_free|].
  split.
  { simpl. apply Forall_fmap, Forall_true. intros option. apply escapeHtml_markup_free. }
  split; [done|]. split; [done|]. split; [done|].
  assert (letter <$> options (formatQuestion question) = letter <$> options question)
    as Hletters.
  { simpl. rewrite <-list_fmap_compose. by apply list_fmap_ext. }
  split; [done|].
  apply eq_true_iff_eq. rewrite !validateQuestion_wellFormed.
  unfold wellFormed. rewrite Hletters. simpl.
  rewrite length_fmap, Forall_fmap.
  assert (escapeHtml (text question) ≠ "" ↔ text question ≠ "") as ->
    by (by rewrite escapeHtml_empty).
  assert (Forall (λ option, letter option ≠ "" ∧ optionText option ≠ "")
            (options question) ↔
          Forall ((λ option, letter option ≠ "" ∧ optionText option ≠ "")
                  ∘ (λ opt, mkOption (letter opt) (escapeHtml (optionText opt))))
            (options question)) as <-; [|done].
  apply Forall_proper; [|done]. intros option. simpl. by rewrite escapeHtml_empty.
Qed.

(** ** [calculateDifficulty] *)

Lemma difficulty_table : forallb difficulty_ok (seq 1 200) = true.
Proof. vm_compute. reflexivity. Qed.

Lemma calculateDifficulty_fields questionId history questionHistory :
  history !! questionId = Some questionHistory →
  calculateDifficulty questionId history =
    calculateDifficulty "q"
      {[ "q" := mkHistory (attempts questionHistory) (correct questionHistory)
                  (attempts questionHistory - correct questionHistory) None 0%nat false 100 ]}.
Proof.
  intros Hlook. unfold calculateDifficulty.
  rewrite (get_Own _ _ _ Hlook). by rewrite (get_Own _ "q" _ (lookup_singleton_eq _ _)).
Qed.

(** X8: for a question without history [calculateDifficulty] answers
    'unknown', and 'hard' when the id of the question names a member of
    [Object.prototype]; it answers 'unknown' for a question whose history
    has no attempts.  For a question attempted up to 200 times, with
    some of the attempts correct, the quotient of doubles decides as the exact
    fraction does: 'easy' from 4/5 of the attempts on, 'medium' from 1/2
    on, 'hard' below. *)
Theorem calculateDifficulty_thresholds questionId history questionHistory :
  history !! questionId = Some questionHistory →
  (0 ≤ correct questionHistory ≤ attempts questionHistory)%Z →
  (attempts questionHistory ≤ 200)%Z →
  calculateDifficulty questionId (delete questionId history) =
    (if inherited questionId then "hard" else "unknown") ∧
  calculateDifficulty questionId history =
    if (attempts questionHistory =? 0)%Z then "unknown"
    else difficultyOf (correct questionHistory) (attempts questionHistory).
Proof.
  intros Hlook Hcorrect Hmany. split.
  { unfold calculateDifficulty, get. rewrite lookup_delete_eq.
    by destruct (inherited questionId). }
  destruct (Z.eqb_spec (attempts questionHistory) 0) as [Hzero|Hpos].
  { unfold calculateDifficulty. by rewrite (get_Own _ _ _ Hlook), Hzero. }
  rewrite (calculateDifficulty_fields _ _ _ Hlook).
  pose proof difficulty_table as Htable. rewrite forallb_forall in Htable.
  specialize (Htable (Z.to_nat (attempts questionHistory))).
  unfold difficulty_ok in Htable. rewrite forallb_forall in Htable.
  specialize (Htable ltac:(apply in_seq; lia) (Z.to_nat (correct questionHistory))
                ltac:(apply in_seq; lia)).
  apply String.eqb_eq in Htable.
  rewrite !Z2Nat.id in Htable by lia.
  rewrite <-Z2Nat.inj_sub, Z2Nat.id in Htable by lia. done.
Qed.

Lemma calculateDifficulty_thresholds_witness :
  calculateDifficulty "q7"
    (delete "q7" ({[ "q7" := mkHistory 5 4 1 None 0%nat false 80 ]} : gmap string History))
    = (if inherited "q7" then "hard" else "unknown") ∧
  calculateDifficulty "q7" {[ "q7" := mkHistory 5 4 1 None 0%nat false 80 ]} =
    if (attempts (mkHistory 5 4 1 None 0%nat false 80) =? 0)%Z then "unknown"
    else difficultyOf (correct (mkHistory 5 4 1 None 0%nat false 80))
           (attempts (mkHistory 5 4 1 None 0%nat false 80)).
Proof.
  apply (calculateDifficulty_thresholds "q7" {[ "q7" := mkHistory 5 4 1 None 0%nat false 80 ]}
           (mkHistory 5 4 1 None 0%nat false 80)).
  - reflexivity.
  - simpl. lia.
  - simpl. lia.
Defined.

(** With no history at all the difficulty of the question 'constructor' is
    'hard', that of 'q7' is 'unknown'. *)
Lemma calculateDifficulty_without_history :
  calculateDifficulty "constructor" ∅ = "hard" ∧ calculateDifficulty "q7" ∅ = "unknown".
Proof. split; by vm_compute. Qed.

End HelpersFacts.

(* ===================================================================== *)
(** * Properties of the statistics, the history and the results *)
(* ===================================================================== *)

Module FlowFacts.
Import JS Utils QuizApp Helpers Flow Spec Props DictionaryFacts.

Section Flow.
Variable random : nat → unit_frac.
Variable clock : nat → Timestamp.

(** ** What the methods leave alone *)

Lemma render_session w w' : render w = Some w' → session w' = session w.
Proof.
  unfold render. destruct (negb (quizStarted w)); [by intros [= <-]|].
  destruct (questions w !! currentIndex w) as [r|]; [|by intros [= <-]].
  destruct (heap w !! r) as [question|]; simpl; [|done].
  destruct (negb (optionsRendered question w)); [done|].
  destruct (showAnswer w && isMultipleChoice question); [|by intros [= <-]].
  unfold sortedAnswersEqual.
  destruct (get (userAnswers w) (id question)) as [[[|??]|?]| |]; simpl; try done;
    by intros [= <-].
Qed.

Lemma render_setup w : quizStarted w = false → render w = Some w.
Proof. intros Hstarted. unfold render. by rewrite Hstarted. Qed.

Lemma updateQuestionHistory_controls questionId isCorrect w :
  controls (updateQuestionHistory clock questionId isCorrect w) = controls w.
Proof.
  unfold updateQuestionHistory, saveHistory.
  destruct (get (questionHistory w) questionId), isCorrect; simpl;
    by destruct (localStorage w).
Qed.

(** ** [loadQuestions] and [validateQuestions] *)

Lemma isValid_spec h q :
  isValid h q = true ↔ ∃ question, h !! q = Some question ∧ id question ≠ "" ∧ text question ≠ "".
Proof.
  unfold isValid. destruct (h !! q) as [question|]; [|split; [done|by intros (? & ? & _)]].
  rewrite andb_true_iff, !negb_true_iff.
  destruct (String.eqb_spec (id question) ""), (String.eqb_spec (text question) "");
    split; try (by intros [??]); try (intros (? & [= <-] & ? & ?); done); eauto.
Qed.

(** X9: After [loadQuestions], [allQuestions] holds the records of the data
    that have an id and a text, in the order of the data; each of them is a
    question object; validating again changes nothing. *)
Theorem loadQuestions_keeps_valid_questions (data : list loc) (w : State) :
  let w' := loadQuestions data w in
  allQuestions w' `sublist_of` data ∧
  (∀ q, q ∈ allQuestions w' ↔
        q ∈ data ∧ ∃ question, heap w !! q = Some question ∧ id question ≠ "" ∧ text question ≠ "") ∧
  allocated (heap w') (allQuestions w') ∧
  validateQuestions w' = w'.
Proof.
  simpl. unfold loadQuestions, validateQuestions. simpl.
  split; [apply sublist_filter|].
  split.
  { intros q. rewrite list_elem_of_filter, isValid_spec. tauto. }
  split.
  { apply Forall_forall. intros q [(question & Hq & _)%isValid_spec _]%list_elem_of_filter.
    by exists question. }
  unfold set_allQuestions. simpl. f_equal.
  apply list_filter_filter_l. tauto.
Qed.

(** ** [calculateMasteryStats] *)

Lemma status_cases w questionId :
  status (getQuestionMasteryStatus w questionId) ∈ ["mastered"; "weak"; "unseen"; "learning"].
Proof.
  unfold getQuestionMasteryStatus.
  destruct (get (questionHistory w) questionId) as [history| |];
    [|simpl; rewrite !elem_of_cons; tauto..].
  destruct (mastered history && _); [simpl; rewrite !elem_of_cons; tauto|].
  destruct (_ || _); simpl; rewrite !elem_of_cons; tauto.
Qed.

Lemma countStatuses_sum w qs mastered weak unseen learning :
  allocated (heap w) qs →
  ∃ mastered' weak' unseen' learning',
    countStatuses w qs (mastered, weak, unseen, learning)
      = Some (mastered', weak', unseen', learning') ∧
    mastered' + weak' + unseen' + learning'
      = mastered + weak + unseen + learning + length qs ∧
    (questionHistory w = ∅ →
     mastered' = mastered ∧ weak' = weak ∧
     learning' = learning + length (inheritedIds (heap w) qs) ∧
     unseen' + length (inheritedIds (heap w) qs) = unseen + length qs).
Proof.
  intros Halloc. revert mastered weak unseen learning.
  induction Halloc as [|q qs [question Hq] _ IH]; intros mastered weak unseen learning.
  { eexists _, _, _, _. split; [done|]. simpl. split; [lia|].
    intros _. unfold inheritedIds. rewrite ?filter_nil. simpl. lia. }
  simpl. rewrite Hq. simpl.
  pose proof (status_cases w (id question)) as Hstatus.
  assert (questionHistory w = ∅ →
          status (getQuestionMasteryStatus w (id question)) =
            if inherited (id question) then "learning" else "unseen") as Hunseen.
  { intros Hempty. unfold getQuestionMasteryStatus, get. rewrite Hempty, lookup_empty.
    by destruct (inherited (id question)). }
  assert (length (inheritedIds (heap w) (q :: qs)) =
            (if inherited (id question) then 1 else 0) + length (inheritedIds (heap w) qs))
    as Hcount.
  { unfold inheritedIds. rewrite filter_cons, Hq. simpl.
    destruct (inherited (id question)); [by rewrite decide_True|by rewrite decide_False]. }
  unfold countStatus.
  repeat (apply elem_of_cons in Hstatus as [Hstatus|Hstatus]);
    [..|by apply elem_of_nil in Hstatus]; rewrite Hstatus; simpl;
    match goal with
    | |- context [countStatuses w qs (?a, ?b, ?c, ?d)] =>
        destruct (IH a b c d) as (mastered' & weak' & unseen' & learning' & -> & Hsum & Hfresh)
    end;
    eexists _, _, _, _; (split; [done|]); (split; [lia|]);
    intros Hempty; specialize (Hunseen Hempty); specialize (Hfresh Hempty);
    rewrite Hstatus in Hunseen; rewrite Hcount;
    destruct (inherited (id question)); try done; lia.
Qed.

(** X10: [calculateMasteryStats] puts every loaded question into exactly one of
    the four classes: the counters add up to [total], the number of loaded
    questions.  Without any history none is mastered or weak: the questions
    whose id names a member of [Object.prototype] are learning, and all the
    others are unseen. *)
Theorem calculateMasteryStats_counts_every_question (w : State) :
  allocated (heap w) (allQuestions w) →
  ∃ stats,
    calculateMasteryStats w = Some stats ∧
    Stats.mastered stats + Stats.weak stats + Stats.unseen stats + Stats.learning stats
      = Stats.total stats ∧
    Stats.total stats = length (allQuestions w) ∧
    (questionHistory w = ∅ →
     Stats.mastered stats = 0 ∧ Stats.weak stats = 0 ∧
     Stats.learning stats = length (inheritedIds (heap w) (allQuestions w)) ∧
     Stats.unseen stats + length (inheritedIds (heap w) (allQuestions w))
       = Stats.total stats).
Proof.
  intros Halloc. unfold calculateMasteryStats.
  destruct (countStatuses_sum w (allQuestions w) 0 0 0 0 Halloc)
    as (mastered' & weak' & unseen' & learning' & -> & Hsum & Hfresh).
  simpl. eexists. split; [done|]. simpl. split; [lia|]. split; [done|].
  intros Hempty. destruct (Hfresh Hempty) as (-> & -> & -> & Hunseen). lia.
Qed.

(** ** [toggleCategory] *)

Lemma set_selectedCategories_same w :
  set_selectedCategories (selectedCategories w) w = w.
Proof. by destruct w. Qed.

(** X11: On the setup page, [toggleCategory] changes the membership of the
    category in [selectedCategories], of no other category, and no other
    field; toggling the same category again gives back the state. *)
Theorem toggleCategory_flips_membership (category : string) (w : State) :
  quizStarted w = false →
  ∃ w',
    toggleCategory category w = Some w' ∧
    (category ∈ selectedCategories w' ↔ category ∉ selectedCategories w) ∧
    (∀ other, other ≠ category →
              (other ∈ selectedCategories w' ↔ other ∈ selectedCategories w)) ∧
    w' = set_selectedCategories (selectedCategories w') w ∧
    toggleCategory category w' = Some w.
Proof.
  intros Hstarted. unfold toggleCategory.
  case_bool_decide as Hin.
  - rewrite render_setup by done. eexists. split; [done|]. simpl.
    split; [rewrite elem_of_difference, elem_of_singleton; tauto|].
    split; [intros other ?; rewrite elem_of_difference, elem_of_singleton; tauto|].
    split; [done|].
    rewrite bool_decide_false
      by (rewrite elem_of_difference, elem_of_singleton; tauto).
    rewrite render_setup by done. f_equal.
    etrans; [|apply set_selectedCategories_same].
    unfold set_selectedCategories. simpl. f_equal.
    apply set_eq. intros x. rewrite elem_of_union, elem_of_difference, elem_of_singleton.
    destruct (decide (x = category)) as [->|]; tauto.
  - rewrite render_setup by done. eexists. split; [done|]. simpl.
    split; [rewrite elem_of_union, elem_of_singleton; tauto|].
    split; [intros other ?; rewrite elem_of_union, elem_of_singleton; tauto|].
    split; [done|].
    rewrite bool_decide_true by (rewrite elem_of_union, elem_of_singleton; tauto).
    rewrite render_setup by done. f_equal.
    etrans; [|apply set_selectedCategories_same].
    unfold set_selectedCategories. simpl. f_equal.
    apply set_eq. intros x. rewrite elem_of_difference, elem_of_union, elem_of_singleton.
    destruct (decide (x = category)) as [->|]; tauto.
Qed.

(** ** The history over a sequence of answers *)

Lemma updateQuestionHistory_counts questionId isCorrect other w :
  inherited other = false →
  attemptCounts (updateQuestionHistory clock questionId isCorrect w) other =
    let '(a, c, i) := attemptCounts w other in
    if decide (questionId = other)
    then (a + 1, c + (if isCorrect then 1 else 0), i + (if isCorrect then 0 else 1))%Z
    else (a, c, i).
Proof.
  intros Hordinary.
  unfold attemptCounts. destruct (decide (questionId = other)) as [<-|Hne].
  - destruct (HistoryFacts.update_lookup_eq clock w questionId isCorrect)
      as (history' & -> & -> & -> & -> & _).
    { rewrite get_ordinary by done. by destruct (questionHistory w !! questionId). }
    unfold Spec.startingHistory.
    by destruct (questionHistory w !! questionId).
  - rewrite HistoryFacts.update_lookup_ne by done.
    by destruct (questionHistory w !! other).
Qed.

Lemma recordAttempts_counts questionId calls w :
  inherited questionId = false →
  attemptCounts (recordAttempts clock calls w) questionId =
    let '(a, c, i) := attemptCounts w questionId in
    (a + Z.of_nat (length (callsFor questionId calls)),
     c + Z.of_nat (length (filter (λ call, call.2 = true) (callsFor questionId calls))),
     i + Z.of_nat (length (filter (λ call, call.2 = false) (callsFor questionId calls))))%Z.
Proof.
  intros Hordinary.
  revert w. induction calls as [|[called isCorrect] calls IH]; intros w.
  { simpl. destruct (attemptCounts w questionId) as [[a c] i]. f_equal; [f_equal|]; lia. }
  simpl. rewrite IH, updateQuestionHistory_counts by done.
  destruct (attemptCounts w questionId) as [[a c] i].
  unfold callsFor. rewrite filter_cons. simpl.
  destruct (decide (called = questionId)) as [->|Hne].
  - rewrite !filter_cons. simpl.
    destruct isCorrect; simpl; (f_equal; [f_equal|]); lia.
  - done.
Qed.

(** X12: For a question whose id names no member of [Object.prototype],
    starting without a history for the question, after a sequence of
    answers that includes it (and has no answer for the id [__proto__])
    the history counts its answers: [attempts] is
    their number, [correct] and [incorrect] are the numbers of the correct
    and the incorrect ones, and so add up to [attempts].  A question that is
    not answered keeps what it had. *)
Theorem recordAttempts_counts_answers (w : State) (questionId : string)
    (calls : list (string * bool)) :
  inherited questionId = false →
  "__proto__" ∉ calls.*1 →
  questionHistory w !! questionId = None →
  questionId ∈ calls.*1 →
  (∃ history,
     questionHistory (recordAttempts clock calls w) !! questionId = Some history ∧
     attempts history = Z.of_nat (length (callsFor questionId calls)) ∧
     correct history =
       Z.of_nat (length (filter (λ call, call.2 = true) (callsFor questionId calls))) ∧
     incorrect history =
       Z.of_nat (length (filter (λ call, call.2 = false) (callsFor questionId calls))) ∧
     attempts history = (correct history + incorrect history)%Z) ∧
  (∀ other, other ∉ calls.*1 →
            questionHistory (recordAttempts clock calls w) !! other = questionHistory w !! other).
Proof.
  intros Hordinary _ Hfresh Hin. split.
  - destruct (HistoryFacts.run_attempted clock calls w questionId Hordinary Hin)
      as [history Hlook].
    exists history. split; [done|].
    pose proof (recordAttempts_counts questionId calls w Hordinary) as Hcounts.
    unfold attemptCounts in Hcounts. rewrite Hlook, Hfresh in Hcounts.
    injection Hcounts as Ha Hc Hi. rewrite Ha, Hc, Hi.
    split; [lia|]. split; [lia|]. split; [lia|].
    assert (∀ l : list (string * bool),
              length l = length (filter (λ call, call.2 = true) l)
                         + length (filter (λ call, call.2 = false) l)) as Hsplit.
    { induction l as [|[? []] l IHl]; [done|..]; rewrite !filter_cons; simpl; lia. }
    rewrite (Hsplit (callsFor questionId calls)) at 1. lia.
  - clear Hfresh Hin. revert w.
    induction calls as [|[called isCorrect] calls IH]; intros w other Hother; [done|].
    simpl in *. apply not_elem_of_cons in Hother as [Hne Hother].
    rewrite IH by done. by apply HistoryFacts.update_lookup_ne.
Qed.

(** ** [calculateCategoryScores] *)

Lemma sum_list_cons (x : nat) (l : list nat) : sum_list (x :: l) = x + sum_list l.
Proof. reflexivity. Qed.

Lemma filter_nothing {A} (P : A → Prop) `{∀ x, Decision (P x)} (l : list A) :
  (∀ x, x ∈ l → ¬ P x) → filter P l = [].
Proof.
  induction l as [|x l IH]; intros Hnone; [done|].
  rewrite filter_cons_False by (apply Hnone, elem_of_cons; by left).
  apply IH. intros y Hy. apply Hnone, elem_of_cons. by right.
Qed.

Lemma addResult_names category isCorrect categories :
  inherited category = false →
  name <$> addResult category isCorrect categories =
    if decide (category ∈ name <$> categories) then name <$> categories
    else (name <$> categories) ++ [category].
Proof.
  intros Hordinary.
  induction categories as [|entry rest IH].
  { cbn [addResult fmap list_fmap]. rewrite Hordinary. case_decide as Hin; [|done].
    by apply elem_of_nil in Hin. }
  cbn [addResult]. rewrite !fmap_cons.
  destruct (String.eqb_spec (name entry) category) as [Heq|Hne].
  - rewrite fmap_cons. cbn [name]. clear IH.
    rewrite decide_True; [done|]. rewrite Heq. apply elem_of_cons. by left.
  - rewrite fmap_cons, IH.
    destruct (decide (category ∈ name <$> rest)) as [Hin|Hnin].
    + rewrite decide_True; [done|]. apply elem_of_cons. by right.
    + rewrite decide_False; [done|]. rewrite elem_of_cons. intros [?|?]; congruence.
Qed.

Lemma addResult_sums category isCorrect categories :
  inherited category = false →
  sum_list (categoryTotal <$> addResult category isCorrect categories)
    = S (sum_list (categoryTotal <$> categories)) ∧
  sum_list (categoryCorrect <$> addResult category isCorrect categories)
    = (if isCorrect then 1 else 0) + sum_list (categoryCorrect <$> categories).
Proof.
  intros Hordinary.
  induction categories as [|entry rest [IHt IHc]]; cbn [addResult].
  { rewrite Hordinary. by destruct isCorrect. }
  destruct (String.eqb (name entry) category);
    rewrite !fmap_cons, !sum_list_cons; cbn [categoryTotal categoryCorrect].
  - destruct isCorrect; lia.
  - rewrite IHt, IHc. lia.
Qed.

Lemma addResult_bounds category isCorrect categories :
  Forall (λ entry, categoryCorrect entry ≤ categoryTotal entry ∧ 1 ≤ categoryTotal entry)
    categories →
  Forall (λ entry, categoryCorrect entry ≤ categoryTotal entry ∧ 1 ≤ categoryTotal entry)
    (addResult category isCorrect categories).
Proof.
  induction 1 as [|entry rest [Hle Hpos] Hrest IH]; simpl.
  { destruct (inherited category); [done|].
    constructor; [|done]. simpl. destruct isCorrect; lia. }
  destruct (String.eqb (name entry) category).
  - constructor; [|done]. simpl. destruct isCorrect; lia.
  - by constructor.
Qed.

Lemma addResult_totalOf n category isCorrect categories :
  inherited category = false →
  totalOf n (addResult category isCorrect categories) =
    totalOf n categories + (if decide (category = n) then 1 else 0).
Proof.
  intros Hordinary.
  unfold totalOf. induction categories as [|entry rest IH]; cbn [addResult].
  { rewrite Hordinary, filter_cons. cbn [name]. by destruct (decide (category = n)). }
  destruct (String.eqb_spec (name entry) category) as [Heq|Hne].
  - rewrite !filter_cons. cbn [name]. rewrite Heq.
    destruct (decide (category = n));
      rewrite ?fmap_cons, ?sum_list_cons; cbn [categoryTotal]; lia.
  - rewrite !filter_cons. destruct (decide (name entry = n));
      rewrite ?fmap_cons, ?sum_list_cons, IH; lia.
Qed.

Lemma totalOf_entry categories entry :
  NoDup (name <$> categories) → entry ∈ categories →
  totalOf (name entry) categories = categoryTotal entry.
Proof.
  unfold totalOf. induction categories as [|first rest IH]; intros Hnd Hin.
  { by apply elem_of_nil in Hin. }
  rewrite fmap_cons in Hnd.
  apply NoDup_cons in Hnd as [Hfirst Hnd]. rewrite filter_cons.
  apply elem_of_cons in Hin as [->|Hin].
  - rewrite decide_True by done. rewrite fmap_cons, sum_list_cons.
    rewrite (filter_nothing (λ other, name other = name first) rest); [simpl; lia|].
    intros other Hother Hname. apply Hfirst.
    rewrite <-Hname. by apply list_elem_of_fmap_2.
  - rewrite decide_False; [by apply IH|].
    intros Hname. apply Hfirst. rewrite Hname. by apply list_elem_of_fmap_2.
Qed.

Lemma correctResults_step (results : list bool) index n :
  correctResults (take (S n) (drop index results)) =
    (if default false (results !! index) then 1 else 0)
    + correctResults (take n (drop (S index) results)).
Proof.
  unfold correctResults. destruct (results !! index) as [r|] eqn:Hlook.
  - rewrite (drop_S _ _ _ Hlook). simpl. rewrite filter_cons.
    by destruct r.
  - apply lookup_ge_None in Hlook. rewrite !drop_ge by lia. by rewrite !take_nil.
Qed.

(** The tally does not fail. *)
Lemma tally_returns w qs index acc :
  allocated (heap w) qs → is_Some (tally w qs index acc).
Proof.
  intros Halloc. revert index acc.
  induction Halloc as [|q qs [question Hq] _ IH]; intros index acc; simpl; [done|].
  rewrite Hq. simpl. apply IH.
Qed.

Lemma tally_spec w qs index acc :
  allocated (heap w) qs → ordinaryCategories (heap w) qs →
  ∃ categories,
    tally w qs index acc = Some categories ∧
    (NoDup (name <$> acc) → NoDup (name <$> categories)) ∧
    sum_list (categoryTotal <$> categories) = sum_list (categoryTotal <$> acc) + length qs ∧
    sum_list (categoryCorrect <$> categories) =
      sum_list (categoryCorrect <$> acc)
      + correctResults (take (length qs) (drop index (quizResults w))) ∧
    (Forall (λ entry, categoryCorrect entry ≤ categoryTotal entry ∧ 1 ≤ categoryTotal entry) acc →
     Forall (λ entry, categoryCorrect entry ≤ categoryTotal entry ∧ 1 ≤ categoryTotal entry)
       categories) ∧
    (∀ n, totalOf n categories = totalOf n acc + countCategory (heap w) n qs).
Proof.
  intros Halloc. revert index acc.
  induction Halloc as [|q qs [question Hq] _ IH]; intros index acc Hcategories.
  { exists acc. split; [done|]. split; [done|]. simpl. unfold correctResults.
    rewrite take_0. simpl. do 3 (split; [done || lia|]). intros n.
    unfold countCategory, categoryPool. simpl. lia. }
  assert (inherited (category question) = false) as Hordinary.
  { apply (SelectionFacts.ordinaryCategories_lookup (heap w) (q :: qs) q); [done| |done].
    apply elem_of_cons. by left. }
  apply Forall_cons in Hcategories as [_ Hcategories].
  simpl. rewrite Hq. simpl.
  destruct (IH (S index)
              (addResult (category question) (default false (quizResults w !! index)) acc)
              Hcategories)
    as (categories & -> & Hnd & Htotal & Hcorrect & Hbounds & Hof).
  exists categories. split; [done|].
  destruct (addResult_sums (category question)
              (default false (quizResults w !! index)) acc Hordinary) as [Ht Hc].
  split.
  { intros Hacc. apply Hnd. rewrite addResult_names by done.
    destruct (decide (category question ∈ name <$> acc)); [done|].
    apply NoDup_app. split; [done|]. split; [|apply NoDup_singleton].
    intros x Hx ->%list_elem_of_singleton. done. }
  split; [lia|].
  split; [rewrite Hcorrect, Hc, correctResults_step; lia|].
  split; [intros Hacc; by apply Hbounds, addResult_bounds|].
  intros n. rewrite Hof, addResult_totalOf by done.
  unfold countCategory, categoryPool. rewrite filter_cons, Hq. simpl.
  destruct (decide (category question = n)) as [->|Hne].
  - rewrite decide_True by done. simpl. lia.
  - rewrite decide_False by congruence. lia.
Qed.

(** X14: For a session none of whose questions has a category that names a
    member of [Object.prototype], [calculateCategoryScores] returns one entry
    for each category that occurs among the questions of the session.  Its [total] is the number of
    the questions of that category, so the totals add up to the number of
    questions; its [correct] is at most its [total], and the [correct] add up
    to the number of true results at the positions of the questions. *)
Theorem calculateCategoryScores_accounts_for_every_question (w : State) :
  allocated (heap w) (questions w) →
  ordinaryCategories (heap w) (questions w) →
  ∃ categories,
    calculateCategoryScores w = Some categories ∧
    NoDup (name <$> categories) ∧
    Forall (λ entry,
              categoryTotal entry = countCategory (heap w) (name entry) (questions w) ∧
              1 ≤ categoryTotal entry ∧
              categoryCorrect entry ≤ categoryTotal entry) categories ∧
    sum_list (categoryTotal <$> categories) = length (questions w) ∧
    sum_list (categoryCorrect <$> categories) =
      correctResults (take (length (questions w)) (quizResults w)).
Proof.
  intros Halloc Hcategories. unfold calculateCategoryScores.
  destruct (tally_spec w (questions w) 0 [] Halloc Hcategories)
    as (categories & -> & Hnd & Htotal & Hcorrect & Hbounds & Hof).
  exists categories. split; [done|].
  specialize (Hnd (NoDup_nil_2 : NoDup (name <$> []))).
  specialize (Hbounds (Forall_nil_2 _)).
  split; [done|]. split.
  { apply Forall_forall. intros entry Hentry.
    rewrite Forall_forall in Hbounds. destruct (Hbounds entry Hentry) as [Hle Hpos].
    split; [|done].
    rewrite <-(totalOf_entry categories entry Hnd Hentry), Hof. done. }
  split; [simpl in Htotal; lia|].
  rewrite Hcorrect. simpl. by rewrite drop_0.
Qed.

(** ** [showResults] *)

Lemma results_table : forallb results_ok (seq 1 100) = true.
Proof. vm_compute. reflexivity. Qed.

Lemma results_at correctCount totalQuestions :
  1 ≤ totalQuestions ≤ 100 → correctCount ≤ totalQuestions →
  let rawPercentage :=
    Math_round_num (num correctCount / num totalQuestions * 100)%float in
  (∃ p, (rawPercentage =? num p)%float = true
        ∧ nearestPercentage correctCount totalQuestions p) ∧
  ((700 <=? calculateScaledScore_num rawPercentage)%float = true ↔
   129 * totalQuestions ≤ 200 * correctCount).
Proof.
  intros Ht Hc. pose proof results_table as Htable.
  rewrite forallb_forall in Htable.
  specialize (Htable totalQuestions ltac:(apply in_seq; lia)).
  unfold results_ok in Htable. rewrite forallb_forall in Htable.
  specialize (Htable correctCount ltac:(apply in_seq; lia)).
  cbv zeta in Htable. apply andb_true_iff in Htable as [Hraw Hpass].
  split.
  - apply orb_true_iff in Hraw as [Hraw|[Hraw Hnear]%andb_true_iff].
    + eexists. split; [exact Hraw|]. unfold nearestPercentage.
      set (p := (200 * correctCount + totalQuestions) / (2 * totalQuestions)).
      assert (p * (2 * totalQuestions) ≤ 200 * correctCount + totalQuestions) as Hlow.
      { subst p. rewrite Nat.mul_comm. apply Nat.Div0.mul_div_le. }
      assert (200 * correctCount + totalQuestions < 2 * totalQuestions * S p) as Hhigh.
      { subst p. apply Nat.mul_succ_div_gt. lia. }
      nia.
    + eexists. split; [exact Hraw|]. unfold nearestPercentage.
      apply Nat.leb_le in Hnear.
      set (p := (200 * correctCount + totalQuestions) / (2 * totalQuestions)) in *.
      assert (p * (2 * totalQuestions) ≤ 200 * correctCount + totalQuestions) as Hlow.
      { subst p. rewrite Nat.mul_comm. apply Nat.Div0.mul_div_le. }
      split; [done|]. nia.
  - apply eqb_prop in Hpass. rewrite Hpass. apply Nat.leb_le.
Qed.

(** X15: In test mode, for a session of up to 100 questions with at most as many
    correct results, [showResults] reports the numbers of correct answers and
    of questions, as percentage an integer nearest to their ratio, and
    [passed] exactly when at least 64.5% of the answers are correct. *)
Theorem showResults_pass_mark (w : State) :
  quizMode w = "test" →
  allocated (heap w) (questions w) →
  1 ≤ length (questions w) ≤ 100 →
  correctResults (quizResults w) ≤ length (questions w) →
  ∃ scaledScore passed rawPercentage testDuration categories w' p,
    showResults clock w =
      Some (TestResults scaledScore passed rawPercentage (correctResults (quizResults w))
              (length (questions w)) testDuration categories, w') ∧
    (passed = true ↔ 129 * length (questions w) ≤ 200 * correctResults (quizResults w)) ∧
    (rawPercentage =? num p)%float = true ∧
    nearestPercentage (correctResults (quizResults w)) (length (questions w)) p ∧
    scaledScore = calculateScaledScore_num rawPercentage ∧
    calculateCategoryScores w = Some categories.
Proof.
  intros Hmode Halloc Htotal Hcorrect.
  destruct (results_at _ _ Htotal Hcorrect) as [(p & Hraw & Hnear) Hpass].
  cbv zeta in Hraw, Hpass.
  destruct (tally_returns w (questions w) 0 [] Halloc) as [categories Htally].
  unfold showResults, calculateCategoryScores. fold (correctResults (quizResults w)).
  destruct (testStartTime w) as [start|].
  - destruct (tally_returns (set_dateCalls (S (dateCalls w)) w) (questions w) 0 [] Halloc)
      as [categories' Htally'].
    assert (categories' = categories) as ->.
    { revert Htally' Htally. clear. generalize (@nil CategoryScore) 0.
      induction (questions w) as [|q qs IH]; intros acc index; simpl; [congruence|].
      destruct (heap w !! q); simpl; [apply IH|done]. }
    change (questions (set_dateCalls (S (dateCalls w)) w)) with (questions w).
    rewrite Htally'. cbn [mbind option_bind].
    change (quizMode (set_dateCalls (S (dateCalls w)) w)) with (quizMode w).
    rewrite Hmode. eexists _, _, _, _, _, _, p.
    (split; [reflexivity|]); (split; [exact Hpass|]); (split; [exact Hraw|]);
      (split; [exact Hnear|]); (split; [reflexivity|exact Htally]).
  - rewrite Htally. cbn [mbind option_bind]. rewrite Hmode.
    eexists _, _, _, _, _, _, p.
    (split; [reflexivity|]); (split; [exact Hpass|]); (split; [exact Hraw|]);
      (split; [exact Hnear|]); (split; reflexivity).
Qed.

End Flow.

Lemma toggleCategory_flips_membership_witness :
  ∃ w',
    toggleCategory "Architect a solution" (loadedApp ["A"; "C"]) = Some w' ∧
    ("Architect a solution" ∈ selectedCategories w' ↔
     "Architect a solution" ∉ selectedCategories (loadedApp ["A"; "C"])) ∧
    (∀ other, other ≠ "Architect a solution" →
              (other ∈ selectedCategories w' ↔ other ∈ selectedCategories (loadedApp ["A"; "C"]))) ∧
    w' = set_selectedCategories (selectedCategories w') (loadedApp ["A"; "C"]) ∧
    toggleCategory "Architect a solution" w' = Some (loadedApp ["A"; "C"]).
Proof.
  apply (toggleCategory_flips_membership "Architect a solution" (loadedApp ["A"; "C"])).
  reflexivity.
Defined.

Lemma calculateMasteryStats_counts_every_question_witness :
  ∃ stats,
    calculateMasteryStats (loadedApp ["A"; "C"]) = Some stats ∧
    Stats.mastered stats + Stats.weak stats + Stats.unseen stats + Stats.learning stats
      = Stats.total stats ∧
    Stats.total stats = length (allQuestions (loadedApp ["A"; "C"])) ∧
    (questionHistory (loadedApp ["A"; "C"]) = ∅ →
     Stats.mastered stats = 0 ∧ Stats.weak stats = 0 ∧
     Stats.learning stats =
       length (inheritedIds (heap (loadedApp ["A"; "C"])) (allQuestions (loadedApp ["A"; "C"]))) ∧
     Stats.unseen stats
       + length (inheritedIds (heap (loadedApp ["A"; "C"])) (allQuestions (loadedApp ["A"; "C"])))
       = Stats.total stats).
Proof.
  apply (calculateMasteryStats_counts_every_question (loadedApp ["A"; "C"])).
  repeat constructor; by eexists.
Defined.

Lemma recordAttempts_counts_answers_witness :
  (∃ history,
     questionHistory (recordAttempts ticks [("q7", true); ("q2", false); ("q7", false)] emptyApp)
       !! "q7" = Some history ∧
     attempts history =
       Z.of_nat (length (callsFor "q7" [("q7", true); ("q2", false); ("q7", false)])) ∧
     correct history =
       Z.of_nat (length (filter (λ call, call.2 = true)
                           (callsFor "q7" [("q7", true); ("q2", false); ("q7", false)]))) ∧
     incorrect history =
       Z.of_nat (length (filter (λ call, call.2 = false)
                           (callsFor "q7" [("q7", true); ("q2", false); ("q7", false)]))) ∧
     attempts history = (correct history + incorrect history)%Z) ∧
  (∀ other, other ∉ [("q7", true); ("q2", false); ("q7", false)].*1 →
            questionHistory
              (recordAttempts ticks [("q7", true); ("q2", false); ("q7", false)] emptyApp)
              !! other = questionHistory emptyApp !! other).
Proof.
  apply (recordAttempts_counts_answers ticks emptyApp "q7"
           [("q7", true); ("q2", false); ("q7", false)]).
  - reflexivity.
  - apply (bool_decide_unpack _). vm_compute. exact I.
  - reflexivity.
  - simpl. apply elem_of_cons. by left.
Defined.

Lemma finishedSession_allocated mode :
  allocated (heap (finishedSession mode)) (questions (finishedSession mode)).
Proof. repeat constructor; by eexists. Qed.

Lemma calculateCategoryScores_accounts_for_every_question_witness :
  ∃ categories,
    calculateCategoryScores (finishedSession "practice") = Some categories ∧
    NoDup (name <$> categories) ∧
    Forall (λ entry,
              categoryTotal entry =
                countCategory (heap (finishedSession "practice")) (name entry)
                  (questions (finishedSession "practice")) ∧
              1 ≤ categoryTotal entry ∧
              categoryCorrect entry ≤ categoryTotal entry) categories ∧
    sum_list (categoryTotal <$> categories) = length (questions (finishedSession "practice")) ∧
    sum_list (categoryCorrect <$> categories) =
      correctResults (take (length (questions (finishedSession "practice")))
                        (quizResults (finishedSession "practice"))).
Proof.
  apply (calculateCategoryScores_accounts_for_every_question (finishedSession "practice")).
  - apply finishedSession_allocated.
  - repeat constructor; by vm_compute.
Defined.

Lemma showResults_pass_mark_witness :
  ∃ scaledScore passed rawPercentage testDuration categories w' p,
    showResults ticks (finishedSession "test") =
      Some (TestResults scaledScore passed rawPercentage
              (correctResults (quizResults (finishedSession "test")))
              (length (questions (finishedSession "test"))) testDuration categories, w') ∧
    (passed = true ↔
     129 * length (questions (finishedSession "test"))
       ≤ 200 * correctResults (quizResults (finishedSession "test"))) ∧
    (rawPercentage =? num p)%float = true ∧
    nearestPercentage (correctResults (quizResults (finishedSession "test")))
      (length (questions (finishedSession "test"))) p ∧
    scaledScore = calculateScaledScore_num rawPercentage ∧
    calculateCategoryScores (finishedSession "test") = Some categories.
Proof.
  apply (showResults_pass_mark ticks (finishedSession "test")).
  - reflexivity.
  - apply finishedSession_allocated.
  - simpl. lia.
  - vm_compute. lia.
Defined.

End FlowFacts.

(* ===================================================================== *)
(** * Properties of a session and of the page *)
(* ===================================================================== *)

Module PageFacts.
Import JS Utils QuizApp Helpers Flow Spec Props FlowFacts DictionaryFacts.

Section Page.
Variable random : nat → unit_frac.
Variable clock : nat → Timestamp.

(** ** Steps that stay in the session *)

Lemma sameExam_refl w : sameExam w w.
Proof. by repeat split. Qed.

Lemma sameExam_trans w1 w2 w3 : sameExam w1 w2 → sameExam w2 w3 → sameExam w1 w3.
Proof. unfold sameExam. intros (-> & -> & -> & ->) (-> & -> & -> & ->). done. Qed.

Lemma render_sameExam w w' : render w = Some w' → sameExam w w'.
Proof.
  intros Hs%render_session. unfold session in Hs. unfold sameExam.
  injection Hs as _ -> _ _ -> _ _ _ -> _ _ _ -> _ _ _ _ _. done.
Qed.

Lemma selectAnswer_sameExam optionLetter w w' :
  selectAnswer optionLetter w = Some w' → sameExam w w'.
Proof.
  unfold selectAnswer. destruct (showAnswer w); [intros [= <-]; apply sameExam_refl|].
  destruct (questions w !! currentIndex w) as [r|]; [|done]. cbn [mbind option_bind].
  destruct (heap w !! r) as [question|]; [|done]. cbn [mbind option_bind].
  destruct (isMultipleChoice question).
  - destruct (get (userAnswers w) (id question)) as [[[|c s]|currentAnswers]| |];
      try destruct (includes_str _ _); try case_bool_decide;
      cbn [mbind option_bind]; try done; by intros ?%render_sameExam.
  - cbn [mbind option_bind]. by intros ?%render_sameExam.
Qed.

Lemma prevQuestion_sameExam w w' : prevQuestion w = Some w' → sameExam w w'.
Proof.
  unfold prevQuestion. destruct (0 <? currentIndex w).
  - by intros ?%render_sameExam.
  - intros [= <-]. apply sameExam_refl.
Qed.

Lemma showResults_sameExam w w' report :
  showResults clock w = Some (report, w') → sameExam w w'.
Proof.
  unfold showResults.
  destruct (testStartTime w); cbn [mbind option_bind];
    destruct (calculateCategoryScores _); cbn [mbind option_bind]; try done;
    cbn [quizMode set_dateCalls];
    (destruct (String.eqb (quizMode w) "test");
     [|destruct (calculateMasteryStats _); cbn [mbind option_bind]; [|done]]);
    intros [= _ <-]; by repeat split.
Qed.

Lemma nextQuestion_sameExam w w' report :
  nextQuestion clock w = Some (w', report) → sameExam w w'.
Proof.
  unfold nextQuestion. destruct (currentIndex w <? length (questions w) - 1).
  - destruct (render _) as [w1|] eqn:Hrender; [|done]. cbn [mbind option_bind].
    intros [= <- _]. by apply render_sameExam in Hrender.
  - destruct (showResults clock w) as [[report' w1]|] eqn:Hresults; [|done].
    cbn [mbind option_bind]. intros [= <- _]. by apply showResults_sameExam in Hresults.
Qed.

Lemma checkAnswer_mode w w' :
  checkAnswer clock w = Some w' →
  quizStarted w' = quizStarted w ∧ quizMode w' = quizMode w ∧ questions w' = questions w.
Proof.
  unfold checkAnswer.
  destruct (questions w !! currentIndex w) as [r|]; [|done]. cbn [mbind option_bind].
  destruct (heap w !! r) as [question|]; [|done]. cbn [mbind option_bind].
  destruct (if isMultipleChoice question then _ else _) as [[isCorrect w1]|] eqn:Hcheck;
    [|done].
  cbn [mbind option_bind].
  assert (quizStarted w1 = quizStarted w ∧ quizMode w1 = quizMode w
          ∧ questions w1 = questions w) as (H1 & H2 & H3).
  { destruct (isMultipleChoice question); [|by injection Hcheck as _ <-].
    unfold sortedAnswersEqual in Hcheck.
    destruct (get (userAnswers w) (id question)) as [[[|??]|?]| |]; simpl in Hcheck;
      try done; by injection Hcheck as _ <-. }
  intros (H4 & _ & H5 & H6)%render_sameExam. rewrite H4, H5, H6.
  pose proof (updateQuestionHistory_controls clock (id question) isCorrect w1) as Hc.
  unfold controls in Hc. injection Hc as _ _ Hq _ _ _ Hm _ _ _ Hs _ _ _ _ _ _.
  destruct isCorrect; simpl; by rewrite Hq, Hm, Hs.
Qed.

(** ** [startQuiz] *)

Lemma selectTestQuestions_length h pool targetTotal k selected k' :
  selectTestQuestions random h pool targetTotal k = Some (selected, k') →
  length selected ≤ targetTotal.
Proof.
  unfold selectTestQuestions. destruct (groupQuestions h pool _) as [dist|]; [|done].
  cbn [mbind option_bind].
  destruct (selectPerCategory _ _ _ _ _) as [selectedQuestions k1].
  destruct (length selectedQuestions <? targetTotal).
  - destruct (shuffle random (filter _ pool) k1) as [unused k2].
    destruct (shuffle random _ k2) as [shuffled k3]. intros [= <- _].
    rewrite length_take. lia.
  - destruct (shuffle random _ k1) as [shuffled k3]. intros [= <- _].
    rewrite length_take. lia.
Qed.

Lemma startQuiz_cases w w' :
  startQuiz random clock w = Some w' →
  w' = set_alerts (alerts w ++ ["No questions available with selected filters"]) w ∨
  (alerts w' = alerts w ∧ quizStarted w' = true ∧ quizResults w' = [] ∧
   quizMode w' = quizMode w ∧
   (quizMode w = "test" → length (questions w') ≤ 60)).
Proof.
  unfold startQuiz.
  destruct (if 0 <? size (selectedCategories w) then _ else _) as [pool|]; [|done].
  cbn [mbind option_bind]. destruct (length pool =? 0); [intros [= <-]; by left|].
  intros Hstart. right.
  destruct (if String.eqb (quizMode w) "test" then _ else _) as [[selected k]|] eqn:Hsel;
    [|done].
  apply bind_Some in Hstart as ([selected' k'] & [= <- <-] & Hstart).
  apply render_session in Hstart. unfold session in Hstart.
  injection Hstart as _ Hq _ _ Hm _ _ _ Hs _ _ _ Hr _ _ _ Ha _.
  rewrite Ha, Hs, Hr, Hm, Hq. do 4 (split; [reflexivity|]).
  intros Hmode. rewrite Hmode in Hsel.
  change (String.eqb "test" "test") with true in Hsel. cbv iota in Hsel.
  apply selectTestQuestions_length in Hsel.
  pose proof (UtilsFacts.floor_mul_lt (random (randomCalls w)) 21). lia.
Qed.

Lemma filterByCategory_selected w qs :
  allocated (heap w) qs →
  filterByCategory (heap w) (selectedCategories w) qs =
    Some (filter (λ q, inSelectedCategory w q = true) qs).
Proof.
  induction 1 as [|q qs [question Hq] _ IH]; [done|].
  cbn [filterByCategory]. rewrite Hq, IH. cbn [mbind option_bind].
  rewrite filter_cons.
  assert (inSelectedCategory w q = bool_decide (category question ∈ selectedCategories w))
    as -> by (unfold inSelectedCategory; by rewrite Hq).
  by destruct (bool_decide (category question ∈ selectedCategories w)).
Qed.

Lemma startQuiz_pool w :
  allocated (heap w) (allQuestions w) →
  (if 0 <? size (selectedCategories w)
   then filterByCategory (heap w) (selectedCategories w) (allQuestions w)
   else Some (allQuestions w)) = Some (selectedPool w).
Proof.
  intros Halloc. unfold selectedPool.
  destruct (0 <? size (selectedCategories w)); [|done].
  by apply filterByCategory_selected.
Qed.

Lemma selectedPool_sublist w : selectedPool w `sublist_of` allQuestions w.
Proof.
  unfold selectedPool. destruct (0 <? size (selectedCategories w)); [|done].
  apply sublist_filter.
Qed.

Lemma ordinaryIds_rendered h qs i r question w :
  ordinaryIds h qs → qs !! i = Some r → h !! r = Some question →
  optionsRendered question w = true.
Proof.
  intros Hids Hr Hq. apply SessionFacts.optionsRendered_ordinary.
  apply (SelectionFacts.ordinaryIds_lookup h qs r); [done| |done].
  by apply list_elem_of_lookup_2 in Hr.
Qed.

Lemma startQuiz_started w selected k :
  allocated (heap w) (allQuestions w) →
  selectedPool w ≠ [] →
  (if String.eqb (quizMode w) "test" then
     selectTestQuestions random (heap w) (selectedPool w)
       (floor_mul (random (randomCalls w)) 21 + 40) (S (randomCalls w))
   else
     let '(shuffled, k) := Utils.shuffle random (selectedPool w) (randomCalls w) in
     Some (match questionCount w with
           | all => shuffled
           | limit n => slice0 shuffled n
           end, k)) = Some (selected, k) →
  allocated (heap w) selected →
  ordinaryIds (heap w) selected →
  ∃ w',
    startQuiz random clock w = Some w' ∧
    session w' =
      (allQuestions w, selected, 0, 0, quizMode w, false, false, hintLevel w, true,
       selectedCategories w, questionCount w, questionHistory w, [],
       Some (clock (dateCalls w)), k, S (dateCalls w), alerts w, localStorage w) ∧
    heap w' = heap w ∧ userAnswers w' = ∅.
Proof.
  intros Halloc Hne Hsel Hselected Hids. unfold startQuiz.
  rewrite (startQuiz_pool w Halloc). cbn [mbind option_bind].
  destruct (selectedPool w) as [|q pool] eqn:Hpool; [done|].
  cbn [length Nat.eqb]. rewrite Hsel.
  eexists. split.
  - apply SessionFacts.render_hidden; [reflexivity|].
    intros r Hr. change (selected !! 0 = Some r) in Hr.
    unfold allocated in Hselected. rewrite Forall_forall in Hselected.
    destruct (Hselected r) as [question Hq]; [by apply list_elem_of_lookup_2 in Hr|].
    exists question. split; [exact Hq|].
    by apply (ordinaryIds_rendered (heap w) selected 0 r).
  - split; [reflexivity|]. split; reflexivity.
Qed.

Lemma allocated_submseteq h (l k : list loc) : l ⊆+ k → allocated h k → allocated h l.
Proof.
  unfold allocated. rewrite !Forall_forall. intros Hsub Hk q Hq.
  apply Hk. by apply (elem_of_submseteq l).
Qed.

Lemma ordinaryIds_submseteq h (l k : list loc) :
  l ⊆+ k → ordinaryIds h k → ordinaryIds h l.
Proof.
  unfold ordinaryIds. rewrite !Forall_forall. intros Hsub Hk q Hq.
  apply Hk. by apply (elem_of_submseteq l).
Qed.

(** X16: In practice mode, with a question in the selected categories, none
    of which has an id that names a member of [Object.prototype],
    [startQuiz] starts a session on a rearrangement of those questions, cut
    to [questionCount] when it is a number: the session is at its first
    question with no answer, no result and a score of 0, whatever the
    previous session left, and the history and the questions are untouched. *)
Theorem startQuiz_practice_session (w : State) :
  quizMode w ≠ "test" →
  allocated (heap w) (allQuestions w) →
  ordinaryIds (heap w) (selectedPool w) →
  selectedPool w ≠ [] →
  ∃ w' shuffled,
    startQuiz random clock w = Some w' ∧
    shuffled ≡ₚ selectedPool w ∧
    questions w' = match questionCount w with
                   | all => shuffled
                   | limit n => slice0 shuffled n
                   end ∧
    questions w' ⊆+ selectedPool w ∧
    match questionCount w with
    | all => length (questions w') = length (selectedPool w)
    | limit n =>
        (0 ≤ n)%Z → length (questions w') = Z.to_nat n `min` length (selectedPool w)
    end ∧
    quizStarted w' = true ∧ currentIndex w' = 0 ∧ score w' = 0 ∧ userAnswers w' = ∅ ∧
    quizResults w' = [] ∧ showAnswer w' = false ∧ alerts w' = alerts w ∧
    questionHistory w' = questionHistory w ∧ heap w' = heap w.
Proof.
  intros Hmode Halloc Hids Hne.
  pose proof (UtilsFacts.shuffle_Permutation random (selectedPool w) (randomCalls w)) as Hperm.
  destruct (shuffle random (selectedPool w) (randomCalls w)) as [shuffled k] eqn:Hshuffle.
  simpl in Hperm.
  set (selected := match questionCount w with
                   | all => shuffled
                   | limit n => slice0 shuffled n
                   end).
  assert (selected ⊆+ selectedPool w) as Hsub.
  { rewrite <-Hperm. subst selected. destruct (questionCount w) as [|n]; [done|].
    apply sublist_submseteq, SelectionFacts.slice0_sublist. }
  destruct (startQuiz_started w selected k Halloc Hne) as (w' & Hstart & Hsession & Hheap & Hanswers).
  { rewrite (proj2 (String.eqb_neq _ _)) by done. by rewrite Hshuffle. }
  { apply (allocated_submseteq _ _ (selectedPool w)); [done|].
    apply (allocated_submseteq _ _ (allQuestions w)); [|done].
    apply sublist_submseteq, selectedPool_sublist. }
  { by apply (ordinaryIds_submseteq _ _ (selectedPool w)). }
  unfold session in Hsession.
  injection Hsession as _ Hq Hi Hsc _ Hsa _ _ Hs _ _ Hh Hr _ _ _ Ha _.
  exists w', shuffled. rewrite Hq, Hi, Hsc, Hsa, Hs, Hh, Hr, Ha.
  do 4 (split; [done|]). split; [|done].
  subst selected. destruct (questionCount w) as [|n].
  - by rewrite Hperm.
  - intros Hn. unfold slice0. rewrite (proj2 (Z.ltb_ge _ _)) by done.
    rewrite length_take, Hperm. done.
Qed.

(** X17: In test mode, with a question in the selected categories, none of
    which has an id or a category that names a member of
    [Object.prototype], and no question loaded twice, [startQuiz] starts an
    exam of a number of questions
    drawn between 40 and 60, or of the whole pool when it is smaller: the
    questions are distinct questions of the selected categories, and the
    exam is at its first question with no answer and no result, its start
    time taken from the clock. *)
Theorem startQuiz_exam_session (w : State) :
  quizMode w = "test" →
  NoDup (allQuestions w) →
  allocated (heap w) (allQuestions w) →
  ordinaryIds (heap w) (selectedPool w) →
  ordinaryCategories (heap w) (selectedPool w) →
  selectedPool w ≠ [] →
  ∃ w',
    startQuiz random clock w = Some w' ∧
    40 ≤ floor_mul (random (randomCalls w)) 21 + 40 ≤ 60 ∧
    length (questions w') =
      (floor_mul (random (randomCalls w)) 21 + 40) `min` length (selectedPool w) ∧
    NoDup (questions w') ∧
    questions w' ⊆+ selectedPool w ∧
    quizStarted w' = true ∧ currentIndex w' = 0 ∧ score w' = 0 ∧ userAnswers w' = ∅ ∧
    quizResults w' = [] ∧ showAnswer w' = false ∧ alerts w' = alerts w ∧
    testStartTime w' = Some (clock (dateCalls w)) ∧
    questionHistory w' = questionHistory w ∧ heap w' = heap w.
Proof.
  intros Hmode Hnd Halloc Hids Hcategories Hne.
  assert (selectedPool w ⊆+ allQuestions w) as Hpool
    by apply sublist_submseteq, selectedPool_sublist.
  destruct (SelectionFacts.selectTestQuestions_spec random (heap w) (selectedPool w)
              (floor_mul (random (randomCalls w)) 21 + 40) (S (randomCalls w)))
    as (picks & selected & k & _ & Hselect & Hlen & Hnd' & Hsub & _).
  { exact (sublist_NoDup _ _ Hnd (selectedPool_sublist w)). }
  { by apply (allocated_submseteq _ _ (allQuestions w)). }
  { done. }
  destruct (startQuiz_started w selected k Halloc Hne) as (w' & Hstart & Hsession & Hheap & Hanswers).
  { rewrite (proj2 (String.eqb_eq _ _)) by done. done. }
  { apply (allocated_submseteq _ _ (selectedPool w)); [done|].
    by apply (allocated_submseteq _ _ (allQuestions w)). }
  { by apply (ordinaryIds_submseteq _ _ (selectedPool w)). }
  unfold session in Hsession.
  injection Hsession as _ Hq Hi Hsc _ Hsa _ _ Hs _ _ Hh Hr Ht _ _ Ha _.
  exists w'. rewrite Hq, Hi, Hsc, Hsa, Hs, Hh, Hr, Ha, Ht.
  split; [done|]. split.
  { pose proof (UtilsFacts.floor_mul_lt (random (randomCalls w)) 21). lia. }
  done.
Qed.

(** ** Navigation *)

Lemma render_same w r question :
  questions w !! currentIndex w = Some r → heap w !! r = Some question →
  optionsRendered question w = true →
  showAnswer w && isMultipleChoice question = false → render w = Some w.
Proof.
  intros Hr Hq Hoptions Hshow. unfold render. destruct (negb (quizStarted w)); [done|].
  rewrite Hr, Hq. cbn [mbind option_bind]. rewrite Hoptions. cbn [negb].
  by rewrite Hshow.
Qed.

Lemma allocated_lookup h qs i :
  allocated h qs → i < length qs → ∃ r question, qs !! i = Some r ∧ h !! r = Some question.
Proof.
  intros Halloc Hi. destruct (lookup_lt_is_Some_2 qs i Hi) as [r Hr].
  unfold allocated in Halloc. rewrite Forall_forall in Halloc.
  destruct (Halloc r) as [question Hq]; [by apply list_elem_of_lookup_2 in Hr|].
  by exists r, question.
Qed.

Lemma set_currentIndex_back w :
  set_showHints false
    (set_showAnswer false
       (set_currentIndex (S (currentIndex w) - 1)
          (set_showHints false (set_showAnswer false (set_currentIndex (S (currentIndex w)) w)))))
  = set_showHints false (set_showAnswer false w).
Proof.
  replace (S (currentIndex w) - 1) with (currentIndex w) by lia.
  by destruct w.
Qed.

(** ** Checking an answer again *)

Lemma checkAnswer_singleChoice_controls w r question :
  questions w !! currentIndex w = Some r →
  heap w !! r = Some question →
  isMultipleChoice question = false →
  ∃ w',
    checkAnswer clock w = Some w' ∧
    controls w' =
      (heap w, allQuestions w, questions w, currentIndex w, userAnswers w,
       (if strictEqual (get (userAnswers w) (id question)) (correctAnswers question !! 0)
        then S (score w) else score w),
       quizMode w, true, showHints w, hintLevel w, quizStarted w, selectedCategories w,
       questionCount w,
       quizResults w ++ [strictEqual (get (userAnswers w) (id question))
                           (correctAnswers question !! 0)],
       testStartTime w, randomCalls w, alerts w) ∧
    questionHistory w' =
      questionHistory
        (updateQuestionHistory clock (id question)
           (strictEqual (get (userAnswers w) (id question)) (correctAnswers question !! 0))
           w).
Proof.
  intros Hr Hq Hsingle. unfold checkAnswer.
  rewrite Hr. cbn [mbind option_bind]. rewrite Hq. cbn [mbind option_bind].
  rewrite Hsingle. cbn [mbind option_bind].
  generalize (strictEqual (get (userAnswers w) (id question)) (correctAnswers question !! 0)).
  intros isCorrect.
  pose proof (updateQuestionHistory_controls clock (id question) isCorrect w) as Hc.
  unfold controls in Hc.
  injection Hc as H1 H2 H3 H4 H5 H6 H7 H8 H9 H10 H11 H12 H13 H14 H15 H16 H17.
  eexists. split.
  - apply (render_same _ r question).
    + destruct isCorrect; fields; rewrite H3, H4; exact Hr.
    + destruct isCorrect; fields; rewrite H1; exact Hq.
    + by apply SessionFacts.optionsRendered_singleChoice.
    + rewrite Hsingle. apply andb_false_r.
  - split; [|by destruct isCorrect].
    unfold controls. destruct isCorrect; fields; congruence.
Qed.

Lemma nextQuestion_prevQuestion w :
  allocated (heap w) (questions w) →
  ordinaryIds (heap w) (questions w) →
  S (currentIndex w) < length (questions w) →
  nextQuestion clock w =
    Some (set_showHints false (set_showAnswer false (set_currentIndex (S (currentIndex w)) w)),
          None) ∧
  prevQuestion
    (set_showHints false (set_showAnswer false (set_currentIndex (S (currentIndex w)) w)))
    = Some (set_showHints false (set_showAnswer false w)).
Proof.
  intros Halloc Hids Hnext.
  destruct (allocated_lookup _ _ _ Halloc Hnext) as (r1 & question1 & Hr1 & Hq1).
  destruct (allocated_lookup _ (questions w) (currentIndex w) Halloc ltac:(lia))
    as (r & question & Hr & Hq).
  split.
  - unfold nextQuestion. rewrite (proj2 (Nat.ltb_lt _ _)) by lia.
    rewrite (render_same _ r1 question1); [reflexivity|exact Hr1|exact Hq1| |reflexivity].
    by apply (ordinaryIds_rendered (heap w) (questions w) (S (currentIndex w)) r1).
  - unfold prevQuestion.
    change (0 <? S (currentIndex w)) with true. cbv iota.
    rewrite (render_same _ r question).
    + f_equal. apply set_currentIndex_back.
    + change (questions w !! (S (currentIndex w) - 1) = Some r).
      by replace (S (currentIndex w) - 1) with (currentIndex w) by lia.
    + exact Hq.
    + by apply (ordinaryIds_rendered (heap w) (questions w) (currentIndex w) r).
    + reflexivity.
Qed.

(** X18: In a session none of whose questions has an id that names a member
    of [Object.prototype]: before the last question, [nextQuestion] moves to the next question
    and hides the answer and the hints, without a report; [prevQuestion]
    then leads back to the state it came from, with the answer and the hints
    hidden.  At the first question [prevQuestion] does nothing. *)
Theorem prevQuestion_undoes_nextQuestion (w : State) :
  allocated (heap w) (questions w) →
  ordinaryIds (heap w) (questions w) →
  S (currentIndex w) < length (questions w) →
  ∃ w1,
    nextQuestion clock w = Some (w1, None) ∧
    w1 = set_showHints false (set_showAnswer false (set_currentIndex (S (currentIndex w)) w)) ∧
    prevQuestion w1 = Some (set_showHints false (set_showAnswer false w)) ∧
    (currentIndex w = 0 → prevQuestion w = Some w).
Proof.
  intros Halloc Hids Hnext.
  destruct (nextQuestion_prevQuestion w Halloc Hids Hnext) as [Hforward Hback].
  eexists. split; [exact Hforward|]. split; [reflexivity|]. split; [exact Hback|].
  intros Hzero. unfold prevQuestion. by rewrite Hzero.
Qed.

Lemma clicks_app cs1 cs2 a :
  clicks random clock (cs1 ++ cs2) a =
    clicks random clock cs1 a ≫= clicks random clock cs2.
Proof.
  revert a. induction cs1 as [|c cs1 IH]; intros a; [done|].
  simpl. destruct (click random clock c a) as [a1|]; simpl; [apply IH|done].
Qed.

Lemma currentQuestion_Some w r question :
  questions w !! currentIndex w = Some r → heap w !! r = Some question →
  currentQuestion w = Some question.
Proof. intros Hr Hq. unfold currentQuestion. rewrite Hr. exact Hq. Qed.

Lemma click_CheckAnswer w question :
  currentQuestion w = Some question →
  showAnswer w = false → quizMode w = "practice" → checkDisabled w question = false →
  click random clock CheckAnswer (mkApp w QuestionScreen) =
    (w' ← checkAnswer clock w; Some (mkApp w' (rendered w'))).
Proof.
  intros Hcurrent Hshow Hmode Hdisabled. unfold click, available. cbn [screen state].
  by rewrite Hcurrent, Hshow, Hmode, Hdisabled.
Qed.

Lemma click_Next w question :
  currentQuestion w = Some question → showAnswer w = true →
  click random clock Next (mkApp w QuestionScreen) =
    ('(w', report) ← nextQuestion clock w;
     Some (mkApp w' (match report with
                     | Some report => ResultsScreen report
                     | None => rendered w'
                     end))).
Proof.
  intros Hcurrent Hshow. unfold click, available. cbn [screen state].
  by rewrite Hcurrent, Hshow.
Qed.

Lemma click_Previous w question i :
  currentQuestion w = Some question → currentIndex w = S i →
  click random clock Previous (mkApp w QuestionScreen) =
    (w' ← prevQuestion w; Some (mkApp w' (rendered w'))).
Proof.
  intros Hcurrent Hindex. unfold click, available. cbn [screen state].
  rewrite Hcurrent, Hindex. cbn [Nat.eqb negb]. unfold handle. cbn [state].
  by rewrite Hindex.
Qed.

Lemma recheck_round w r question answer :
  correctlyAnswered w r question answer →
  ∃ w',
    clicks random clock [CheckAnswer; Next; Previous] (mkApp w QuestionScreen)
      = Some (mkApp w' QuestionScreen) ∧
    correctlyAnswered w' r question answer ∧
    score w' = S (score w) ∧ quizResults w' = quizResults w ++ [true] ∧
    questions w' = questions w ∧ currentIndex w' = currentIndex w.
Proof.
  intros (Hstarted & Hmode & Hshow & Halloc & Hids & Hnext & Hr & Hq & Hsingle & Hanswer & Hne
          & Hcorrect).
  destruct (checkAnswer_singleChoice_controls w r question Hr Hq Hsingle)
    as (w1 & Hcheck & Hc & _).
  rewrite (get_Own _ _ _ Hanswer), Hcorrect in Hc. cbn [strictEqual] in Hc. rewrite String.eqb_refl in Hc.
  unfold controls in Hc.
  injection Hc as H1 H2 H3 H4 H5 H6 H7 H8 H9 H10 H11 H12 H13 H14 H15 H16 H17.
  destruct (allocated_lookup _ _ _ Halloc Hnext) as (r1 & question1 & Hr1 & Hq1).
  assert (allocated (heap w1) (questions w1)) as Halloc1 by (by rewrite H1, H3).
  assert (ordinaryIds (heap w1) (questions w1)) as Hids1 by (by rewrite H1, H3).
  assert (S (currentIndex w1) < length (questions w1)) as Hnext1 by (by rewrite H3, H4).
  destruct (nextQuestion_prevQuestion w1 Halloc1 Hids1 Hnext1) as [Hforward Hback].
  exists (set_showHints false (set_showAnswer false w1)). split.
  - cbn [clicks].
    rewrite (click_CheckAnswer w question);
      [|by apply (currentQuestion_Some w r)|done|done|].
    2:{ unfold checkDisabled. rewrite (get_Own _ _ _ Hanswer). by destruct answer. }
    rewrite Hcheck. cbn [mbind option_bind].
    unfold rendered at 1. rewrite H11, Hstarted.
    rewrite (click_Next w1 question);
      [|apply (currentQuestion_Some w1 r); by rewrite ?H1, ?H3, ?H4|done].
    rewrite Hforward. cbn [mbind option_bind].
    unfold rendered at 1. fields. rewrite H11, Hstarted.
    rewrite (click_Previous _ question1 (currentIndex w1));
      [|apply (currentQuestion_Some _ r1); fields; by rewrite ?H1, ?H3, ?H4|reflexivity].
    rewrite Hback. cbn [mbind option_bind].
    unfold rendered. fields. by rewrite H11, Hstarted.
  - split.
    { unfold correctlyAnswered. fields.
      rewrite H1, H3, H4, H5, H7, H11. done. }
    fields. rewrite H6, H14, H3, H4. done.
Qed.

(** X21: In practice mode, in a session none of whose questions has an id that
    names a member of [Object.prototype], at a single-choice question that
    is not the last one and whose correct answer is chosen: each round of 'Check Answer', 'Next'
    and 'Previous' leads back to the question with its answer still stored
    and not shown, and counts the answer once more; after [n] rounds the
    score has grown by [n] and [n] correct results are recorded for the one
    question. *)
Theorem answer_is_counted_on_every_visit (w : State) (r : loc) (question : Question)
    (answer : string) (n : nat) :
  quizStarted w = true → quizMode w = "practice" → showAnswer w = false →
  allocated (heap w) (questions w) →
  ordinaryIds (heap w) (questions w) →
  S (currentIndex w) < length (questions w) →
  questions w !! currentIndex w = Some r → heap w !! r = Some question →
  isMultipleChoice question = false →
  userAnswers w !! id question = Some (Letter answer) → answer ≠ "" →
  correctAnswers question !! 0 = Some answer →
  ∃ w',
    clicks random clock (concat (replicate n [CheckAnswer; Next; Previous]))
      (mkApp w QuestionScreen) = Some (mkApp w' QuestionScreen) ∧
    score w' = score w + n ∧
    quizResults w' = quizResults w ++ replicate n true ∧
    questions w' = questions w ∧ currentIndex w' = currentIndex w ∧
    userAnswers w' !! id question = Some (Letter answer) ∧ showAnswer w' = false.
Proof.
  intros Hstarted Hmode Hshow Halloc Hids Hnext Hr Hq Hsingle Hanswer Hne Hcorrect.
  assert (correctlyAnswered w r question answer) as Hstate by done.
  clear Hstarted Hmode Hshow Halloc Hids Hnext Hr Hq Hsingle Hanswer Hne Hcorrect.
  revert w Hstate. induction n as [|n IH]; intros w Hstate.
  { exists w. simpl. rewrite Nat.add_0_r, app_nil_r.
    destruct Hstate as (_ & _ & ? & _ & _ & _ & _ & _ & _ & ? & _). done. }
  destruct (recheck_round w r question answer Hstate)
    as (w1 & Hround & Hstate1 & Hscore1 & Hresults1 & Hquestions1 & Hindex1).
  destruct (IH w1 Hstate1) as (w' & Hrest & Hscore & Hresults & Hquestions & Hindex & Hkept).
  exists w'. split.
  { change (concat (replicate (S n) [CheckAnswer; Next; Previous]))
      with ([CheckAnswer; Next; Previous] ++ concat (replicate n [CheckAnswer; Next; Previous])).
    rewrite clicks_app, Hround. exact Hrest. }
  rewrite Hscore, Hresults, Hquestions, Hindex, Hscore1, Hresults1, Hquestions1, Hindex1.
  split; [lia|]. split; [by rewrite <-app_assoc|]. done.
Qed.

(** ** Single-choice and multiple-choice answers *)

(** X19: For a single-choice question whose id names no member of
    [Object.prototype], [checkAnswer] counts the answer as
    correct exactly when the stored letter is the first of the correct
    answers, or when nothing is stored and the question has no correct answer
    at all.  It records the result, one more attempt in the history and the
    score, shows the answer, and leaves the question objects and the stored
    answers as they are. *)
Theorem checkAnswer_single_choice_first_answer_counts (w : State) (r : loc)
    (question : Question) :
  questions w !! currentIndex w = Some r →
  heap w !! r = Some question →
  isMultipleChoice question = false →
  inherited (id question) = false →
  ∃ w' isCorrect,
    checkAnswer clock w = Some w' ∧
    (isCorrect = true ↔
     (∃ answer, userAnswers w !! id question = Some (Letter answer)
                ∧ correctAnswers question !! 0 = Some answer)
     ∨ (userAnswers w !! id question = None ∧ correctAnswers question = [])) ∧
    quizResults w' = quizResults w ++ [isCorrect] ∧
    score w' = (if isCorrect then S (score w) else score w) ∧
    attemptCounts w' (id question) =
      (let '(a, c, i) := attemptCounts w (id question) in
       (a + 1, c + (if isCorrect then 1 else 0), i + (if isCorrect then 0 else 1)))%Z ∧
    showAnswer w' = true ∧ heap w' = heap w ∧ userAnswers w' = userAnswers w ∧
    currentIndex w' = currentIndex w.
Proof.
  intros Hr Hq Hsingle Hordinary.
  destruct (checkAnswer_singleChoice_controls w r question Hr Hq Hsingle)
    as (w' & Hcheck & Hc & Hhistory).
  unfold controls in Hc.
  injection Hc as H1 H2 H3 H4 H5 H6 H7 H8 H9 H10 H11 H12 H13 H14 H15 H16 H17.
  exists w', (strictEqual (get (userAnswers w) (id question)) (correctAnswers question !! 0)).
  split; [done|]. split.
  { unfold strictEqual. rewrite get_ordinary by done.
    destruct (userAnswers w !! id question) as [[a|letters]|];
      destruct (correctAnswers question) as [|c rest]; simpl.
    - split; [done|]. by intros [(? & _ & ?)|[? _]].
    - rewrite String.eqb_eq. split.
      + intros ->. left. by exists c.
      + intros [(answer & [= ->] & [= ->])|[? _]]; done.
    - split; [done|]. by intros [(? & ? & _)|[? _]].
    - split; [done|]. by intros [(? & ? & _)|[? _]].
    - split; [by right|done].
    - split; [done|]. by intros [(? & ? & _)|[_ ?]]. }
  do 2 (split; [done|]). split; [|done].
  unfold attemptCounts at 1. rewrite Hhistory.
  pose proof (updateQuestionHistory_counts clock (id question)
                (strictEqual (get (userAnswers w) (id question))
                   (correctAnswers question !! 0))
                (id question) w Hordinary) as Hcounts.
  unfold attemptCounts at 1 in Hcounts. rewrite Hcounts.
  destruct (attemptCounts w (id question)) as [[a c] i].
  by rewrite decide_True.
Qed.

Lemma render_hidden_inv w w' : showAnswer w = false → render w = Some w' → w' = w.
Proof.
  intros Hshow. unfold render. destruct (negb (quizStarted w)); [by intros [= <-]|].
  destruct (questions w !! currentIndex w) as [r|]; [|by intros [= <-]].
  destruct (heap w !! r) as [question|]; cbn [mbind option_bind]; [|done].
  destruct (negb (optionsRendered question w)); [done|].
  rewrite Hshow. by intros [= <-].
Qed.

Lemma selectAnswer_hidden optionLetter w w' :
  showAnswer w = false → selectAnswer optionLetter w = Some w' →
  ∃ answers, w' = set_userAnswers answers w.
Proof.
  intros Hshow. unfold selectAnswer. rewrite Hshow.
  destruct (questions w !! currentIndex w) as [r|]; [|done]. cbn [mbind option_bind].
  destruct (heap w !! r) as [question|]; [|done]. cbn [mbind option_bind].
  destruct (isMultipleChoice question).
  - destruct (get (userAnswers w) (id question)) as [[[|c s]|currentAnswers]| |];
      try destruct (includes_str _ _); try case_bool_decide;
      cbn [mbind option_bind]; try done;
      intros ->%render_hidden_inv; eauto.
  - cbn [mbind option_bind]. intros ->%render_hidden_inv; eauto.
Qed.

(** X20: On a multiple-choice question whose id names no member of
    [Object.prototype] and whose answer is not shown, [selectAnswer]
    with a letter changes whether the letter is among the stored answers;
    with the same letter again, the stored answers are the original ones, in
    some order. *)
Theorem selectAnswer_twice_restores (w : State) (r : loc) (question : Question)
    (optionLetter : string) (stored : list string) :
  showAnswer w = false →
  questions w !! currentIndex w = Some r →
  heap w !! r = Some question →
  isMultipleChoice question = true →
  inherited (id question) = false →
  storedLetters (userAnswers w !! id question) stored →
  NoDup stored →
  ∃ w1 w2 stored1 stored2,
    selectAnswer optionLetter w = Some w1 ∧
    userAnswers w1 !! id question = Some (Letters stored1) ∧
    (optionLetter ∈ stored1 ↔ optionLetter ∉ stored) ∧
    selectAnswer optionLetter w1 = Some w2 ∧
    userAnswers w2 !! id question = Some (Letters stored2) ∧
    stored2 ≡ₚ stored.
Proof.
  intros Hshow Hr Hq Hmulti Hordinary Hstored Hnd.
  destruct (SessionFacts.selectAnswer_toggles random clock w r question optionLetter stored
              Hshow Hr Hq Hmulti Hordinary Hstored Hnd)
    as (w1 & stored1 & Hselect1 & Hlook1 & Hnd1 & Hin1).
  destruct (selectAnswer_hidden _ _ _ Hshow Hselect1) as [answers ->].
  destruct (SessionFacts.selectAnswer_toggles random clock (set_userAnswers answers w) r question
              optionLetter stored1)
    as (w2 & stored2 & Hselect2 & Hlook2 & Hnd2 & Hin2); try done.
  { unfold storedLetters. by rewrite Hlook1. }
  exists (set_userAnswers answers w), w2, stored1, stored2.
  split; [done|]. split; [done|]. split.
  { rewrite Hin1. destruct (decide (optionLetter ∈ stored)); tauto. }
  split; [done|]. split; [done|].
  apply NoDup_Permutation; [done..|].
  intros x. rewrite Hin2, !Hin1.
  destruct (decide (x = optionLetter)) as [->|]; destruct (decide (optionLetter ∈ stored)); tauto.
Qed.

(** ** The pages *)

Lemma examInvariant_rendered w scr w' :
  examInvariant (mkApp w scr) → sameExam w w' → examInvariant (mkApp w' (rendered w')).
Proof.
  unfold examInvariant, sameExam, rendered. simpl.
  intros (I0 & I1 & I2 & I3) (Hs & Hr & Hm & Hq). rewrite Hr, Hm, Hq.
  destruct (quizStarted w') eqn:Hstarted.
  - split; [split; done|]. split; [done|]. split; [|done].
    intros Hmode. destruct (I2 Hmode) as [Hnil Hlen]. split; [done|]. intros _.
    apply Hlen. intros Hsetup%I0. congruence.
  - split; [split; done|].
    assert (quizResults w = []) as Hnil by (apply I1, I0; congruence).
    split; [done|]. split; [|done]. done.
Qed.

Lemma rendered_screen w scr w' :
  examInvariant (mkApp w scr) → (∀ report, scr ≠ ResultsScreen report) →
  quizStarted w' = quizStarted w → rendered w' = scr.
Proof.
  unfold examInvariant, rendered. simpl. intros (I0 & _) Hscr ->.
  destruct (quizStarted w) eqn:Hstarted.
  - destruct scr; [|done|by destruct (Hscr report)].
    destruct I0 as [I0 _]. by specialize (I0 eq_refl).
  - symmetry. by apply I0.
Qed.

Lemma zero_score_table : forallb zero_score_fails (seq 0 61) = true.
Proof. vm_compute. reflexivity. Qed.

Lemma showResults_failedExam w w' report :
  (quizMode w = "test" → quizResults w = [] ∧ length (questions w) ≤ 60) →
  showResults clock w = Some (report, w') → failedExam report.
Proof.
  intros Hexam. unfold showResults.
  destruct (testStartTime w); cbn [mbind option_bind];
    destruct (calculateCategoryScores _); cbn [mbind option_bind]; try done;
    cbn [quizMode set_dateCalls];
    (destruct (String.eqb_spec (quizMode w) "test") as [Hmode|Hmode];
     [|destruct (calculateMasteryStats _); cbn [mbind option_bind]; [|done]]);
    intros [= <- _]; try done;
    destruct (Hexam Hmode) as [Hnil Hlen]; rewrite Hnil; simpl; (split; [|done]);
    pose proof zero_score_table as Htable; rewrite forallb_forall in Htable;
    specialize (Htable (length (questions w)) ltac:(apply in_seq; lia));
    by apply negb_true_iff in Htable.
Qed.

Lemma click_examInvariant c a a' :
  examInvariant a → click random clock c a = Some a' → examInvariant a'.
Proof.
  intros Hinv. unfold click. destruct (available a c) eqn:Havail; [|done].
  destruct a as [w scr]. unfold available in Havail. simpl in Havail.
  pose proof Hinv as (I0 & I1 & I2 & I3). simpl in I0, I1, I2, I3.
  unfold handle. cbn [state screen].
  destruct scr as [| |report].
  - (* the setup page *)
    assert (quizStarted w = false) as Hstarted by by apply I0.
    assert (quizResults w = []) as Hnil by by apply I1.
    destruct c; try done.
    + destruct (render _) as [w'|] eqn:Hrender; [|done]. intros [= <-].
      destruct (render_sameExam _ _ Hrender) as (Hs & Hr & Hm & Hq). simpl in *.
      unfold examInvariant, rendered. simpl. rewrite Hs, Hstarted, Hr, Hm, Hnil.
      split; [done|]. do 2 (split; [done|]). done.
    + destruct (render _) as [w'|] eqn:Hrender; [|done]. intros [= <-].
      destruct (render_sameExam _ _ Hrender) as (Hs & Hr & Hm & Hq). simpl in *.
      unfold examInvariant, rendered. simpl. rewrite Hs, Hstarted, Hr, Hm, Hnil.
      split; [done|]. do 2 (split; [done|]). done.
    + destruct (toggleCategory _ _) as [w'|] eqn:Hrender; [|done]. intros [= <-].
      unfold toggleCategory in Hrender. apply render_sameExam in Hrender.
      apply (examInvariant_rendered w SetupScreen); [done|].
      revert Hrender.
      match goal with |- sameExam (if ?b then _ else _) _ → _ => destruct b end;
        intros Hrender; exact Hrender.
    + destruct (render _) as [w'|] eqn:Hrender; [|done]. intros [= <-].
      apply render_sameExam in Hrender.
      by apply (examInvariant_rendered w SetupScreen).
    + destruct (render _) as [w'|] eqn:Hrender; [|done]. intros [= <-].
      apply render_sameExam in Hrender.
      by apply (examInvariant_rendered w SetupScreen).
    + destruct (render _) as [w'|] eqn:Hrender; [|done]. intros [= <-].
      apply render_sameExam in Hrender.
      by apply (examInvariant_rendered w SetupScreen).
    + destruct (startQuiz random clock w) as [w'|] eqn:Hstart; [|done]. intros [= <-].
      apply startQuiz_cases in Hstart as [->|(Ha & Hs & Hr & Hm & Hlen)].
      * simpl. rewrite length_app. simpl.
        rewrite (proj2 (Nat.eqb_neq _ _)) by lia.
        unfold examInvariant. simpl. done.
      * rewrite Ha, Nat.eqb_refl. unfold examInvariant, rendered. simpl.
        rewrite Hs, Hr, Hm. split; [done|]. split; [done|]. split; [|done].
        intros Hmode. split; [done|]. intros _. by apply Hlen.
  - (* the question page *)
    assert (quizStarted w = true) as Hstarted.
    { apply not_false_iff_true. intros Hs. by apply I0 in Hs. }
    destruct (currentQuestion w) as [question|]; [|done].
    destruct c; try done.
    + destruct (selectAnswer _ _) as [w'|] eqn:Hselect; [|done]. intros [= <-].
      apply selectAnswer_sameExam in Hselect.
      pose proof (examInvariant_rendered _ _ _ Hinv Hselect) as Hinv'.
      rewrite (rendered_screen w QuestionScreen w') in Hinv'; [|done|done|apply Hselect].
      by destruct (showAnswer w);
        [|rewrite (rendered_screen w QuestionScreen w'); [|done|done|apply Hselect]].
    + destruct (render _) as [w'|] eqn:Hrender; [|done]. intros [= <-].
      apply render_sameExam in Hrender.
      by apply (examInvariant_rendered w QuestionScreen).
    + destruct (render _) as [w'|] eqn:Hrender; [|done]. intros [= <-].
      apply render_sameExam in Hrender.
      by apply (examInvariant_rendered w QuestionScreen).
    + destruct (prevQuestion w) as [w'|] eqn:Hprev; [|done]. intros [= <-].
      apply prevQuestion_sameExam in Hprev.
      pose proof (examInvariant_rendered _ _ _ Hinv Hprev) as Hinv'.
      destruct (0 <? currentIndex w); [done|].
      by rewrite (rendered_screen w QuestionScreen w') in Hinv'; [|done|done|apply Hprev].
    + destruct (checkAnswer clock w) as [w'|] eqn:Hcheck; [|done]. intros [= <-].
      apply checkAnswer_mode in Hcheck as (Hs & Hm & Hq).
      apply andb_true_iff in Havail as [[_ Hmode%String.eqb_eq]%andb_true_iff _].
      unfold examInvariant, rendered. simpl. rewrite Hs, Hstarted, Hm, Hmode.
      split; [done|]. split; [done|]. done.
    + destruct (nextQuestion clock w) as [[w' shown]|] eqn:Hnext; [|done]. intros [= <-].
      pose proof (nextQuestion_sameExam _ _ _ Hnext) as Hsame.
      destruct shown as [report|]; [|by apply (examInvariant_rendered w QuestionScreen)].
      unfold nextQuestion in Hnext.
      destruct (currentIndex w <? length (questions w) - 1).
      { destruct (render _); [|done]. done. }
      destruct (showResults clock w) as [[report' w1]|] eqn:Hresults; [|done].
      injection Hnext as <- <-.
      apply showResults_failedExam in Hresults.
      2:{ intros Hmode. destruct (I2 Hmode) as [Hnil Hlen]. split; [done|]. by apply Hlen. }
      destruct Hsame as (Hs & Hr & Hm & Hq).
      unfold examInvariant. simpl. rewrite Hs, Hstarted, Hr, Hm, Hq.
      split; [done|]. split; [done|]. split.
      * intros Hmode. destruct (I2 Hmode) as [Hnil Hlen]. split; [done|]. intros _.
        by apply Hlen.
      * by intros ? [= <-].
  - (* the results page *)
    destruct c; try done.
    + destruct (reset w) as [w'|] eqn:Hreset; [|done]. intros [= <-].
      unfold reset in Hreset. apply render_sameExam in Hreset as (Hs & Hr & Hm & Hq).
      simpl in *. unfold examInvariant, rendered. simpl. rewrite Hs, Hr. done.
    + destruct (reviewAnswers w) as [w'|] eqn:Hreview; [|done]. intros [= <-].
      unfold reviewAnswers in Hreview. apply render_sameExam in Hreview.
      by apply (examInvariant_rendered w (ResultsScreen report)).
Qed.

Lemma clicks_examInvariant cs a a' :
  examInvariant a → clicks random clock cs a = Some a' → examInvariant a'.
Proof.
  revert a. induction cs as [|c cs IH]; intros a Hinv; simpl.
  { by intros [= <-]. }
  destruct (click random clock c a) as [a1|] eqn:Hclick; [|done]. simpl.
  apply IH. by apply (click_examInvariant c a).
Qed.

(** X22: Whatever is clicked after the application has loaded its questions, a
    report of an exam in test mode shows no correct answer and a failure;
    no result is ever recorded in test mode, where the page has no control
    that calls [checkAnswer]. *)
Theorem exam_in_test_mode_is_never_passed (h : gmap loc Question)
    (storage : option (gmap string History)) (data : list loc)
    (cs : list Click) (a : App) :
  clicks random clock cs (mkApp (loadQuestions data (constructor h storage)) SetupScreen)
    = Some a →
  (quizMode (state a) = "test" → quizResults (state a) = []) ∧
  ∀ scaledScore passed rawPercentage correctCount totalQuestions testDuration categories,
    screen a = ResultsScreen
                 (TestResults scaledScore passed rawPercentage correctCount totalQuestions
                    testDuration categories) →
    passed = false ∧ correctCount = 0.
Proof.
  intros Hclicks. apply clicks_examInvariant in Hclicks as (_ & _ & I2 & I3).
  - split; [intros Hmode; by apply I2|].
    intros scaledScore passed rawPercentage correctCount totalQuestions testDuration
      categories Hscreen.
    exact (I3 _ Hscreen).
  - unfold examInvariant. simpl. done.
Qed.

End Page.

Lemma examRun_results :
  ∃ w scaledScore rawPercentage testDuration categories,
    examRun = Some (mkApp w (ResultsScreen
                               (TestResults scaledScore false rawPercentage 0 3
                                  testDuration categories))) ∧
    userAnswers w !! "q1" = Some (Letters ["A"]).
Proof. vm_compute. eexists _, _, _, _, _. split; reflexivity. Qed.

Lemma exam_in_test_mode_is_never_passed_witness :
  (quizMode (state (default (mkApp emptyApp SetupScreen) examRun)) = "test" →
   quizResults (state (default (mkApp emptyApp SetupScreen) examRun)) = []) ∧
  ∀ scaledScore passed rawPercentage correctCount totalQuestions testDuration categories,
    screen (default (mkApp emptyApp SetupScreen) examRun) =
      ResultsScreen
        (TestResults scaledScore passed rawPercentage correctCount totalQuestions
           testDuration categories) →
    passed = false ∧ correctCount = 0.
Proof.
  apply (exam_in_test_mode_is_never_passed zeros ticks (bank ["A"; "C"]) (Some ∅) [0; 1; 2]
           [ChooseTest; SelectAll; Start; ChooseOption "A"; Next; Next; Next]).
  vm_compute. reflexivity.
Defined.

Lemma startQuiz_practice_session_witness :
  ∃ w' shuffled,
    startQuiz zeros ticks (loadedApp ["A"; "C"]) = Some w' ∧
    shuffled ≡ₚ selectedPool (loadedApp ["A"; "C"]) ∧
    questions w' = match questionCount (loadedApp ["A"; "C"]) with
                   | all => shuffled
                   | limit n => slice0 shuffled n
                   end ∧
    questions w' ⊆+ selectedPool (loadedApp ["A"; "C"]) ∧
    match questionCount (loadedApp ["A"; "C"]) with
    | all => length (questions w') = length (selectedPool (loadedApp ["A"; "C"]))
    | limit n =>
        (0 ≤ n)%Z →
        length (questions w') = Z.to_nat n `min` length (selectedPool (loadedApp ["A"; "C"]))
    end ∧
    quizStarted w' = true ∧ currentIndex w' = 0 ∧ score w' = 0 ∧ userAnswers w' = ∅ ∧
    quizResults w' = [] ∧ showAnswer w' = false ∧ alerts w' = alerts (loadedApp ["A"; "C"]) ∧
    questionHistory w' = questionHistory (loadedApp ["A"; "C"]) ∧
    heap w' = heap (loadedApp ["A"; "C"]).
Proof.
  apply (startQuiz_practice_session zeros ticks (loadedApp ["A"; "C"])).
  - discriminate.
  - repeat constructor; by eexists.
  - apply SelectionFacts.bank_ordinaryIds.
  - discriminate.
Defined.

Lemma startQuiz_exam_session_witness :
  ∃ w',
    startQuiz zeros ticks (set_quizMode "test" (loadedApp ["A"; "C"])) = Some w' ∧
    40 ≤ floor_mul (zeros (randomCalls (set_quizMode "test" (loadedApp ["A"; "C"])))) 21 + 40
      ≤ 60 ∧
    length (questions w') =
      (floor_mul (zeros (randomCalls (set_quizMode "test" (loadedApp ["A"; "C"])))) 21 + 40)
        `min` length (selectedPool (set_quizMode "test" (loadedApp ["A"; "C"]))) ∧
    NoDup (questions w') ∧
    questions w' ⊆+ selectedPool (set_quizMode "test" (loadedApp ["A"; "C"])) ∧
    quizStarted w' = true ∧ currentIndex w' = 0 ∧ score w' = 0 ∧ userAnswers w' = ∅ ∧
    quizResults w' = [] ∧ showAnswer w' = false ∧
    alerts w' = alerts (set_quizMode "test" (loadedApp ["A"; "C"])) ∧
    testStartTime w' = Some (ticks (dateCalls (set_quizMode "test" (loadedApp ["A"; "C"])))) ∧
    questionHistory w' = questionHistory (set_quizMode "test" (loadedApp ["A"; "C"])) ∧
    heap w' = heap (set_quizMode "test" (loadedApp ["A"; "C"])).
Proof.
  apply (startQuiz_exam_session zeros ticks (set_quizMode "test" (loadedApp ["A"; "C"]))).
  - reflexivity.
  - apply (bool_decide_unpack _). vm_compute. exact I.
  - repeat constructor; by eexists.
  - apply SelectionFacts.bank_ordinaryIds.
  - apply SelectionFacts.bank_ordinaryCategories.
  - discriminate.
Defined.

Lemma prevQuestion_undoes_nextQuestion_witness :
  ∃ w1,
    nextQuestion ticks answeredSession = Some (w1, None) ∧
    w1 = set_showHints false
           (set_showAnswer false
              (set_currentIndex (S (currentIndex answeredSession)) answeredSession)) ∧
    prevQuestion w1 = Some (set_showHints false (set_showAnswer false answeredSession)) ∧
    (currentIndex answeredSession = 0 → prevQuestion answeredSession = Some answeredSession).
Proof.
  apply (prevQuestion_undoes_nextQuestion ticks answeredSession).
  - repeat constructor; by eexists.
  - repeat constructor; by vm_compute.
  - simpl. lia.
Defined.

Lemma answer_is_counted_on_every_visit_witness :
  ∃ w',
    clicks zeros ticks (concat (replicate 3 [CheckAnswer; Next; Previous]))
      (mkApp answeredSession QuestionScreen) = Some (mkApp w' QuestionScreen) ∧
    score w' = score answeredSession + 3 ∧
    quizResults w' = quizResults answeredSession ++ replicate 3 true ∧
    questions w' = questions answeredSession ∧
    currentIndex w' = currentIndex answeredSession ∧
    userAnswers w' !! id oneOf = Some (Letter "A") ∧ showAnswer w' = false.
Proof.
  apply (answer_is_counted_on_every_visit zeros ticks answeredSession 1 oneOf "A" 3).
  - reflexivity.
  - reflexivity.
  - reflexivity.
  - repeat constructor; by eexists.
  - repeat constructor; by vm_compute.
  - simpl. lia.
  - reflexivity.
  - reflexivity.
  - reflexivity.
  - reflexivity.
  - discriminate.
  - reflexivity.
Defined.

Lemma checkAnswer_single_choice_first_answer_counts_witness :
  ∃ w' isCorrect,
    checkAnswer ticks answeredSession = Some w' ∧
    (isCorrect = true ↔
     (∃ answer, userAnswers answeredSession !! id oneOf = Some (Letter answer)
                ∧ correctAnswers oneOf !! 0 = Some answer)
     ∨ (userAnswers answeredSession !! id oneOf = None ∧ correctAnswers oneOf = [])) ∧
    quizResults w' = quizResults answeredSession ++ [isCorrect] ∧
    score w' = (if isCorrect then S (score answeredSession) else score answeredSession) ∧
    attemptCounts w' (id oneOf) =
      (let '(a, c, i) := attemptCounts answeredSession (id oneOf) in
       (a + 1, c + (if isCorrect then 1 else 0), i + (if isCorrect then 0 else 1)))%Z ∧
    showAnswer w' = true ∧ heap w' = heap answeredSession ∧
    userAnswers w' = userAnswers answeredSession ∧
    currentIndex w' = currentIndex answeredSession.
Proof.
  apply (checkAnswer_single_choice_first_answer_counts ticks answeredSession 1 oneOf).
  - reflexivity.
  - reflexivity.
  - reflexivity.
  - reflexivity.
Defined.

Lemma selectAnswer_twice_restores_witness :
  ∃ w1 w2 stored1 stored2,
    selectAnswer "B" (default emptyApp (answeredCA ["A"; "C"])) = Some w1 ∧
    userAnswers w1 !! id (twoOf ["A"; "C"]) = Some (Letters stored1) ∧
    ("B" ∈ stored1 ↔ "B" ∉ ["C"; "A"]) ∧
    selectAnswer "B" w1 = Some w2 ∧
    userAnswers w2 !! id (twoOf ["A"; "C"]) = Some (Letters stored2) ∧
    stored2 ≡ₚ ["C"; "A"].
Proof.
  apply (selectAnswer_twice_restores zeros ticks (default emptyApp (answeredCA ["A"; "C"])) 0
           (twoOf ["A"; "C"]) "B" ["C"; "A"]).
  - vm_compute. reflexivity.
  - vm_compute. reflexivity.
  - vm_compute. reflexivity.
  - reflexivity.
  - reflexivity.
  - vm_compute. reflexivity.
  - apply (bool_decide_unpack _). vm_compute. exact I.
Defined.

End PageFacts.
